(** * go-gpm: a shallow embedding of the client runtime

    The development follows the Go sources of the repository:
    - package [core]: [Api], [GetAuthToken], [refreshAccessToken], the
      [TokenCache] interface and [MemoryTokenCache], [CommitUpload],
      [decodeProtobufToJSON] and [parseLibraryResponse];
    - package [gpm]: [DedupKeyPattern], [DownloadFile] and its file name
      helpers, [ResolveItemKey], [ResolveMediaKey], [Upload] and [uploadFile].

    Go values are modelled as follows.  A Go [string] is a Rocq [string] (a
    sequence of 8-bit characters), a [[]byte] is a [list byte], Go's [int],
    [int64] and [uint64] are [Z] (every number that occurs stays inside its
    range, conversions that wrap are written out), a [map[string]T] is a
    [gmap string T], an [error] is the text of its message, and a pair
    [(T, error)] is a [result].  Functions of the Go standard library and of
    [google.golang.org/protobuf] that the code calls are modelled after their
    documented behaviour in the modules [GoStrings], [Base64] and
    [Protowire]. *)

From stdpp Require Import base option list strings gmap pretty.
From Stdlib Require Import ZArith Lia Sorted.
From Stdlib.Strings Require Import Ascii Byte.

#[local] Set Warnings "-register-all".
#[local] Open Scope string_scope.
#[local] Open Scope Z_scope.

(** ** Errors and results *)

(** A Go [error] value, identified with its message. *)
Definition error := string.

(** The pair [(T, error)] a fallible Go function returns. *)
Inductive result (A : Type) : Type :=
| Ok (a : A)
| Err (e : error).
Arguments Ok {A} a.
Arguments Err {A} e.

Definition is_Err {A} (r : result A) : bool :=
  match r with Ok _ => false | Err _ => true end.

(** [fmt.Errorf("<prefix>: %w", err)] *)
Definition wrap (prefix : string) (e : error) : error := prefix +:+ ": " +:+ e.

(** The numeric value of a byte. *)
Definition byteZ (b : byte) : Z := Z.of_N (Byte.to_N b).

(** [len(s)] for a string and for a byte slice, as a Go [int]. *)
Definition slen (s : string) : Z := Z.of_nat (String.length s).
Definition blen (b : list byte) : Z := Z.of_nat (length b).

(** ** The parts of package [strings], [strconv] and [net/url] the code uses *)
Module GoStrings.

(** [s[n:]] for [0 <= n <= len(s)]. *)
Fixpoint string_drop (n : nat) (s : string) : string :=
  match n, s with
  | O, _ => s
  | S n', String _ s' => string_drop n' s'
  | S _, EmptyString => EmptyString
  end.

(** [strings.HasPrefix] *)
Definition HasPrefix (s prefix : string) : bool := String.prefix prefix s.

(** [strings.TrimPrefix] *)
Definition TrimPrefix (s prefix : string) : string :=
  if HasPrefix s prefix then string_drop (String.length prefix) s else s.

(** [strings.Index]: the offset of the first occurrence of [sub], or [-1]. *)
Fixpoint Index_from (i : Z) (s sub : string) : Z :=
  if String.prefix sub s then i
  else match s with
       | EmptyString => -1
       | String _ s' => Index_from (i + 1) s' sub
       end.

Definition Index (s sub : string) : Z := Index_from 0 s sub.

(** [strings.Contains] *)
Definition Contains (s sub : string) : bool := 0 <=? Index s sub.

(** [strings.Split(s, sep)] for a separator of one character. *)
Fixpoint Split (s : string) (sep : ascii) : list string :=
  match s with
  | EmptyString => [EmptyString]
  | String a s' =>
      if Ascii.eqb a sep then EmptyString :: Split s' sep
      else match Split s' sep with
           | h :: t => String a h :: t
           | [] => [String a EmptyString]
           end
  end.

(** [strings.SplitN(s, sep, 2)] for a separator of one character: the text
    before the first separator and the text after it, or [s] alone. *)
Fixpoint SplitN2 (s : string) (sep : ascii) : list string :=
  match s with
  | EmptyString => [EmptyString]
  | String a s' =>
      if Ascii.eqb a sep then [EmptyString; s']
      else match SplitN2 s' sep with
           | [h; t] => [String a h; t]
           | _ => [s]
           end
  end.

(** [strings.Trim(s, cutset)] for a cutset of one character. *)
Fixpoint TrimLeft (s : string) (c : ascii) : string :=
  match s with
  | String a s' => if Ascii.eqb a c then TrimLeft s' c else s
  | EmptyString => EmptyString
  end.

Definition TrimRight (s : string) (c : ascii) : string :=
  String.rev (TrimLeft (String.rev s) c).

Definition Trim (s : string) (c : ascii) : string := TrimRight (TrimLeft s c) c.

(** The table [asciiSpace] of package [strings]. *)
Definition asciiSpace (c : ascii) : bool :=
  let n := Ascii.N_of_ascii c in
  ((9 <=? n) && (n <=? 13) || (n =? 32))%N.

(** [strings.TrimSpace] on its ASCII path (the one taken when the text has no
    byte above 0x7f next to the trimmed ends). *)
Fixpoint TrimLeftSpace (s : string) : string :=
  match s with
  | String a s' => if asciiSpace a then TrimLeftSpace s' else s
  | EmptyString => EmptyString
  end.

Definition TrimSpaceASCII (s : string) : string :=
  String.rev (TrimLeftSpace (String.rev (TrimLeftSpace s))).

(** [strconv.ParseUint(s, 10, 64)]: [None] stands for a syntax or range error. *)
Definition digit_of (c : ascii) : option Z :=
  let n := Z.of_N (Ascii.N_of_ascii c) in
  if (48 <=? n) && (n <=? 57) then Some (n - 48) else None.

Fixpoint ParseUint_from (n : Z) (s : string) : option Z :=
  match s with
  | EmptyString => Some n
  | String c s' =>
      match digit_of c with
      | None => None
      | Some d =>
          let n1 := n * 10 + d in
          if 2 ^ 64 <=? n1 then None else ParseUint_from n1 s'
      end
  end.

Definition ParseUint (s : string) : option Z :=
  match s with
  | EmptyString => None
  | _ => ParseUint_from 0 s
  end.

(** [strconv.ParseInt(s, 10, 64)] *)
Definition ParseInt (s : string) : option Z :=
  match s with
  | EmptyString => None
  | String c s' =>
      let neg := Ascii.eqb c "-" in
      let s1 := if Ascii.eqb c "+" || neg then s' else s in
      match ParseUint s1 with
      | None => None
      | Some un =>
          let cutoff := 2 ^ 63 in
          if negb neg && (cutoff <=? un) then None
          else if neg && (cutoff <? un) then None
          else Some (if neg then - un else un)
      end
  end.

(** [url.PathUnescape]: every ["%"] must be followed by two hexadecimal
    digits, which it replaces by the byte they denote. *)
Definition unhex (c : ascii) : option Z :=
  let n := Z.of_N (Ascii.N_of_ascii c) in
  if (48 <=? n) && (n <=? 57) then Some (n - 48)
  else if (97 <=? n) && (n <=? 102) then Some (n - 97 + 10)
  else if (65 <=? n) && (n <=? 70) then Some (n - 65 + 10)
  else None.

Fixpoint PathUnescape (s : string) : option string :=
  match s with
  | EmptyString => Some EmptyString
  | String c s' =>
      if Ascii.eqb c "%" then
        match s' with
        | String h (String l rest) =>
            match unhex h, unhex l, PathUnescape rest with
            | Some a, Some b, Some r =>
                Some (String (Ascii.ascii_of_N (Z.to_N (a * 16 + b))) r)
            | _, _, _ => None
            end
        | _ => None
        end
      else option_map (String c) (PathUnescape s')
  end.

End GoStrings.

(** ** [internal/core]: the client and the upload commit *)
Module Core.

(** The fields of [Api] that are data (the HTTP client, the token cache and
    the mutex are modelled where they are used). *)
Record Api := {
  AndroidAPIVersion : Z;
  Model : string;
  Make : string;
  ClientVersionCode : Z;
  UserAgent : string;
  Language : string;
  AuthData : string;
  Quality : string;
  UseQuota : bool
}.

(** [pb.CommitToken] *)
Record CommitToken := { CT_Field1 : Z; CT_Field2 : list byte }.

(** [pb.CommitUpload], flattened: [F1_*] are the fields of [Field1], [F2_*]
    those of [Field2]. *)
Record CommitUploadRequest := {
  F1_F1_Field1 : Z;
  F1_F1_Field2 : list byte;
  F1_FileName : string;
  F1_Sha1Hash : list byte;
  F1_F4_FileLastModifiedTimestamp : Z;
  F1_F4_Field2 : Z;
  F1_Quality : Z;
  F1_Field10 : Z;
  F2_Model : string;
  F2_Make : string;
  F2_AndroidApiVersion : Z;
  Field3 : list byte
}.

(** [pb.CommitUploadResponse]: [Field1], its [Field3] and the media key in it;
    [None] is a nil message. *)
Definition CommitUploadResponse := option (option string).

(** The request [CommitUpload] builds, up to the call of [DoProtoRequest].
    [now] is [time.Now().Unix()]. *)
Definition CommitUpload_request (a : Api) (now : Z) (commitToken : CommitToken)
    (fileName : string) (sha1Hash : list byte) (uploadTimestamp : Z)
    (qualityStr : string) (useQuota : bool) : CommitUploadRequest :=
  let uploadTimestamp := if uploadTimestamp =? 0 then now else uploadTimestamp in
  (* Use defaults from Api if not overridden *)
  let effectiveQuality := qualityStr in
  let effectiveQuality :=
    if String.eqb effectiveQuality "" then Quality a else effectiveQuality in
  let effectiveUseQuota := useQuota || UseQuota a in
  (* Determine model based on quality and quota settings *)
  let model := Model a in
  let quality := 3 in
  let '(quality, model) :=
    if String.eqb effectiveQuality "storage-saver" then (1, "Pixel 2")
    else (quality, model) in
  let model := if effectiveUseQuota then "Pixel 8" else model in
  let unknownConstant := 46000000 in
  {| F1_F1_Field1 := CT_Field1 commitToken;
     F1_F1_Field2 := CT_Field2 commitToken;
     F1_FileName := fileName;
     F1_Sha1Hash := sha1Hash;
     F1_F4_FileLastModifiedTimestamp := uploadTimestamp;
     F1_F4_Field2 := unknownConstant;
     F1_Quality := quality;
     F1_Field10 := 1;
     F2_Model := model;
     F2_Make := Make a;
     F2_AndroidApiVersion := AndroidAPIVersion a;
     Field3 := [x01; x03]%byte |}.

(** [CommitUpload]; [doProtoRequest] is the round trip to the commit endpoint. *)
Definition CommitUpload (doProtoRequest : CommitUploadRequest -> result CommitUploadResponse)
    (a : Api) (now : Z) (commitToken : CommitToken)
    (fileName : string) (sha1Hash : list byte) (uploadTimestamp : Z)
    (qualityStr : string) (useQuota : bool) : result string :=
  let requestBody :=
    CommitUpload_request a now commitToken fileName sha1Hash uploadTimestamp
      qualityStr useQuota in
  match doProtoRequest requestBody with
  | Err err => Err err
  | Ok response =>
      match response with
      | None | Some None => Err "upload rejected by API: invalid response structure"
      | Some (Some mediaKey) =>
          if String.eqb mediaKey "" then Err "upload rejected by API: no media key returned"
          else Ok mediaKey
      end
  end.

(** The quality and the quota flag in effect in [CommitUpload]: its
    arguments, with the defaults of the client behind them. *)
Definition effectiveQuality (a : Api) (qualityStr : string) : string :=
  if String.eqb qualityStr "" then Quality a else qualityStr.
Definition effectiveUseQuota (a : Api) (useQuota : bool) : bool :=
  useQuota || UseQuota a.

(** The client [NewApi] builds (language taken from the credential). *)
Definition NewApi_defaults (language authData quality : string) (useQuota : bool) : Api :=
  {| AndroidAPIVersion := 28; Model := "Pixel XL"; Make := "Google";
     ClientVersionCode := 49029607; UserAgent := ""; Language := language;
     AuthData := authData; Quality := quality; UseQuota := useQuota |}.

End Core.

(** ** [encoding/base64] *)
Module Base64.

(** The alphabets of [StdEncoding] and of [URLEncoding]. *)
Definition encodeStd : string :=
  "ABCDEFGHIJKLMNOPQRSTUVWXYZabcdefghijklmnopqrstuvwxyz0123456789+/".
Definition encodeURL : string :=
  "ABCDEFGHIJKLMNOPQRSTUVWXYZabcdefghijklmnopqrstuvwxyz0123456789-_".

(** [enc.encode[i]] *)
Definition enc (alphabet : string) (i : Z) : ascii :=
  default "000"%char (String.get (Z.to_nat i) alphabet).

(** [enc.decodeMap[c]]: the position of [c] in the alphabet, if it is there. *)
Fixpoint decodeMap_from (i : Z) (alphabet : string) (c : ascii) : option Z :=
  match alphabet with
  | EmptyString => None
  | String a rest => if Ascii.eqb a c then Some i else decodeMap_from (i + 1) rest c
  end.

Definition decodeMap (alphabet : string) (c : ascii) : option Z :=
  decodeMap_from 0 alphabet c.

(** [byte(v)]: the low eight bits. *)
Definition byte_of_Z (v : Z) : byte :=
  default x00%byte (Byte.of_N (Z.to_N (Z.land v 0xFF))).

(** The 6-bit groups of the input: three bytes give four groups, a rest of
    two bytes three groups and a rest of one byte two groups. *)
Fixpoint encode_sextets (src : list byte) : list Z :=
  match src with
  | a :: b :: c :: rest =>
      let val := Z.lor (Z.lor (Z.shiftl (byteZ a) 16) (Z.shiftl (byteZ b) 8)) (byteZ c) in
      Z.land (Z.shiftr val 18) 0x3F :: Z.land (Z.shiftr val 12) 0x3F
        :: Z.land (Z.shiftr val 6) 0x3F :: Z.land val 0x3F :: encode_sextets rest
  | [a; b] =>
      let val := Z.lor (Z.shiftl (byteZ a) 16) (Z.shiftl (byteZ b) 8) in
      [Z.land (Z.shiftr val 18) 0x3F; Z.land (Z.shiftr val 12) 0x3F;
       Z.land (Z.shiftr val 6) 0x3F]
  | [a] =>
      let val := Z.shiftl (byteZ a) 16 in
      [Z.land (Z.shiftr val 18) 0x3F; Z.land (Z.shiftr val 12) 0x3F]
  | [] => []
  end.

(** The padding that completes the last group of four characters. *)
Definition padding (padChar : option ascii) (n : nat) : string :=
  match padChar, (n mod 3)%nat with
  | Some p, 1%nat => String p (String p EmptyString)
  | Some p, 2%nat => String p EmptyString
  | _, _ => EmptyString
  end.

(** [enc.EncodeToString(src)]; [padChar = None] is [NoPadding]. *)
Definition EncodeToString (alphabet : string) (padChar : option ascii)
    (src : list byte) : string :=
  String.string_of_list_ascii (map (enc alphabet) (encode_sextets src))
    +:+ padding padChar (length src).

(** The bytes of a sequence of 6-bit groups; a single left-over group is
    corrupt input, the unused low bits of a last group are dropped. *)
Fixpoint decode_sextets (sx : list Z) : option (list byte) :=
  match sx with
  | s0 :: s1 :: s2 :: s3 :: rest =>
      let val := Z.lor (Z.lor (Z.lor (Z.shiftl s0 18) (Z.shiftl s1 12)) (Z.shiftl s2 6)) s3 in
      match decode_sextets rest with
      | Some out =>
          Some (byte_of_Z (Z.shiftr val 16) :: byte_of_Z (Z.shiftr val 8)
                  :: byte_of_Z val :: out)
      | None => None
      end
  | [s0; s1; s2] =>
      let val := Z.lor (Z.lor (Z.shiftl s0 18) (Z.shiftl s1 12)) (Z.shiftl s2 6) in
      Some [byte_of_Z (Z.shiftr val 16); byte_of_Z (Z.shiftr val 8)]
  | [s0; s1] =>
      let val := Z.lor (Z.shiftl s0 18) (Z.shiftl s1 12) in
      Some [byte_of_Z (Z.shiftr val 16)]
  | [_] => None
  | [] => Some []
  end.

(** The 6-bit groups of a text, if each of its characters is in the alphabet. *)
Fixpoint sextets_of (alphabet : string) (s : string) : option (list Z) :=
  match s with
  | EmptyString => Some []
  | String c s' =>
      match decodeMap alphabet c, sextets_of alphabet s' with
      | Some i, Some l => Some (i :: l)
      | _, _ => None
      end
  end.

(** [enc.DecodeString(s)] of an encoding without padding. *)
Definition DecodeString (alphabet : string) (s : string) : option (list byte) :=
  match sextets_of alphabet s with
  | Some sx => decode_sextets sx
  | None => None
  end.

End Base64.

(** ** Dedup keys *)
Module Dedup.

(** The character class [[A-Za-z0-9_-]]. *)
Definition dedup_char (c : ascii) : bool :=
  let n := Z.of_N (Ascii.N_of_ascii c) in
  (65 <=? n) && (n <=? 90) || (97 <=? n) && (n <=? 122)
  || (48 <=? n) && (n <=? 57) || (n =? 95) || (n =? 45).

(** [DedupKeyPattern.MatchString], for [DedupKeyPattern = ^[A-Za-z0-9_-]{27}$]. *)
Definition DedupKeyPattern_MatchString (s : string) : bool :=
  (String.length s =? 27)%nat && forallb dedup_char (String.list_ascii_of_string s).

(** Modelled from the spec: [core.SHA1ToDedupeKey], whose source is not part
    of the files at hand.  The spec has it as the URL-safe base64 encoding,
    without padding, of the raw digest. *)
Definition SHA1ToDedupeKey (sha1Hash : list byte) : string :=
  Base64.EncodeToString Base64.encodeURL None sha1Hash.

(** Modelled from the spec: [core.DedupeKeyToSHA1], whose source is not part
    of the files at hand.  The spec has it as the inverse of
    [SHA1ToDedupeKey], failing if the decoded length is not 20. *)
Definition DedupeKeyToSHA1 (dedupKey : string) : result (list byte) :=
  match Base64.DecodeString Base64.encodeURL dedupKey with
  | None => Err "invalid dedup key: illegal base64 data"
  | Some decoded =>
      if (length decoded =? 20)%nat then Ok decoded
      else Err "invalid dedup key: decoded length is not 20"
  end.

End Dedup.

(** ** The token cache and the authentication manager *)
Module Auth.

(** The interface [TokenCache]: [Get() (token, expiry)] and
    [Set(token, expiry)], over the state of the implementation. *)
Class TokenCache (C : Type) := {
  CacheGet : C -> string * Z;
  CacheSet : string -> Z -> C -> C
}.

(** [MemoryTokenCache] ([NewMemoryTokenCache] returns [emptyMemoryTokenCache]). *)
Record MemoryTokenCache := { token : string; expiry : Z }.

Definition emptyMemoryTokenCache : MemoryTokenCache := {| token := ""; expiry := 0 |}.

#[global] Instance MemoryTokenCache_TokenCache : TokenCache MemoryTokenCache := {
  CacheGet c := (token c, expiry c);
  CacheSet t e _ := {| token := t; expiry := e |}
}.

(** [url.Values] and its [Get]: the first value of a key, or the empty text. *)
Definition Values := gmap string (list string).

Definition Values_Get (v : Values) (key : string) : string :=
  match v !! key with
  | Some (x :: _) => x
  | _ => ""
  end.

(** The request [refreshAccessToken] sends. *)
Record Request := {
  Method : string;
  URL : string;
  Header : gmap string string;
  Form : Values
}.

(** An [http.Response], as far as the code looks at it: the status code and
    what [readGzipBody] makes of the body (the text, or a read error). *)
Record Response := {
  StatusCode : Z;
  readGzipBody : result string
}.

(** [checkResponse]; [None] is the nil error. *)
Definition checkResponse (resp : Response) : option error :=
  if (200 <=? StatusCode resp) && (StatusCode resp <? 300) then None
  else
    match readGzipBody resp with
    | Err err =>
        Some ("request failed with status " +:+ pretty (StatusCode resp)
              +:+ " (could not read response: " +:+ err +:+ ")")
    | Ok body =>
        Some ("request failed with status " +:+ pretty (StatusCode resp) +:+ ": " +:+ body)
    end.

(** A Go map read at a key that may be absent: [m[key]]. *)
Definition map_get (m : gmap string string) (key : string) : string :=
  default "" (m !! key).

(** The client state the authentication manager works on: the token cache,
    the requests sent to the token endpoint so far (latest first) and the
    number of calls of [refreshAccessToken] so far. *)
Record World (C : Type) := {
  cache : C;
  requests : list Request;
  refreshes : nat
}.
Arguments cache {C} w.
Arguments requests {C} w.
Arguments refreshes {C} w.

Section WithEnvironment.

(** [strings.TrimSpace], [url.ParseQuery] and the round trip [a.Client.Do]. *)
Variable TrimSpace : string -> string.
Variable ParseQuery : string -> result Values.
Variable Do : Request -> result Response.

Context {C : Type} `{TokenCache C}.

(** The loop of [refreshAccessToken] that reads the [key=value] lines of the
    reply into the map [parsedAuthResponse]. *)
Definition parsedAuthResponse (body : string) : gmap string string :=
  foldl (fun (m : gmap string string) (line : string) =>
           let line := TrimSpace line in
           if String.eqb line "" then m
           else match GoStrings.SplitN2 line "=" with
                | [k; v] => <[k := v]> m
                | _ => m
                end)
        ∅ (GoStrings.Split body "010").

Definition authRequest (authDataValues : Values) : Request :=
  let authRequestData : Values :=
    list_to_map
      [("androidId", [Values_Get authDataValues "androidId"]);
       ("app", ["com.google.android.apps.photos"]);
       ("client_sig", [Values_Get authDataValues "client_sig"]);
       ("callerPkg", ["com.google.android.apps.photos"]);
       ("callerSig", [Values_Get authDataValues "callerSig"]);
       ("device_country", [Values_Get authDataValues "device_country"]);
       ("Email", [Values_Get authDataValues "Email"]);
       ("google_play_services_version",
        [Values_Get authDataValues "google_play_services_version"]);
       ("lang", [Values_Get authDataValues "lang"]);
       ("oauth2_foreground", [Values_Get authDataValues "oauth2_foreground"]);
       ("sdk_version", [Values_Get authDataValues "sdk_version"]);
       ("service", [Values_Get authDataValues "service"]);
       ("Token", [Values_Get authDataValues "Token"])] in
  let headers : gmap string string :=
    list_to_map
      [("Accept-Encoding", "gzip");
       ("app", "com.google.android.apps.photos");
       ("Connection", "Keep-Alive");
       ("Content-Type", "application/x-www-form-urlencoded");
       ("device", Values_Get authRequestData "androidId");
       ("User-Agent", "GoogleAuth/1.4 (Pixel XL PQ2A.190205.001); gzip")] in
  {| Method := "POST"; URL := "https://android.googleapis.com/auth";
     Header := headers; Form := authRequestData |}.

(** [refreshAccessToken] *)
Definition refreshAccessToken (a : Core.Api) (w : World C)
    : result (string * Z) * World C :=
  let w := {| cache := cache w; requests := requests w; refreshes := S (refreshes w) |} in
  match ParseQuery (Core.AuthData a) with
  | Err err => (Err (wrap "failed to parse auth data" err), w)
  | Ok authDataValues =>
      let req := authRequest authDataValues in
      let w := {| cache := cache w; requests := req :: requests w;
                  refreshes := refreshes w |} in
      match Do req with
      | Err err => (Err (wrap "auth request failed" err), w)
      | Ok resp =>
          match checkResponse resp with
          | Some err => (Err err, w)
          | None =>
              match readGzipBody resp with
              | Err err => (Err (wrap "failed to read response body" err), w)
              | Ok bodyBytes =>
                  (* Parse the key=value response format *)
                  let parsed := parsedAuthResponse bodyBytes in
                  (* Validate we got the required fields *)
                  if String.eqb (map_get parsed "Auth") ""
                     || String.eqb (map_get parsed "Expiry") ""
                  then (Err "auth response missing Auth or Expiry token", w)
                  else
                    match GoStrings.ParseInt (map_get parsed "Expiry") with
                    | None => (Err (wrap "failed to parse expiry" "invalid syntax or out of range"), w)
                    | Some expiryInt => (Ok (map_get parsed "Auth", expiryInt), w)
                    end
              end
          end
      end
  end.

(** [GetAuthToken]; [now] is [time.Now().Unix()].  The mutex [authMu] is
    held for the whole call, which therefore runs as one step. *)
Definition GetAuthToken (a : Core.Api) (now : Z) (w : World C)
    : result string * World C :=
  let '(token, expiry) := CacheGet (cache w) in
  if negb (String.eqb token "") && (now <? expiry) then (Ok token, w)
  else
    match refreshAccessToken a w with
    | (Err err, w) => (Err (wrap "failed to refresh auth token" err), w)
    | (Ok (token, expiry), w) =>
        (Ok token,
         {| cache := CacheSet token expiry (cache w); requests := requests w;
            refreshes := refreshes w |})
    end.

End WithEnvironment.

End Auth.

(** ** The identifier resolver *)
Module Resolver.

(** What a resolver does to the outside: [os.Stat] on a path, hashing a file
    with [CalculateSHA1], and the lookup RPC [FindMediaKeyByHash]. *)
Inductive Effect :=
| EStat (path : string)
| EHash (path : string)
| ELookup (sha1Hash : list byte).

(** The outside, as the resolvers see it: whether [os.Stat] succeeds on a
    path, what hashing a file gives and what the library answers to a lookup. *)
Record Env := {
  statOk : string -> bool;
  sha1Of : string -> result (list byte);
  lookup : list byte -> result string
}.

(** Computations that may fail and that log their effects, oldest first. *)
Definition M (A : Type) : Type := list Effect -> result A * list Effect.

Definition ret {A} (a : A) : M A := fun log => (Ok a, log).
Definition fail {A} (e : error) : M A := fun log => (Err e, log).
Definition bind {A B} (m : M A) (k : A -> M B) : M B :=
  fun log =>
    match m log with
    | (Ok a, log') => k a log'
    | (Err e, log') => (Err e, log')
    end.
Definition perform {A} (eff : Effect) (r : result A) : M A :=
  fun log => (r, (log ++ [eff])%list).
(** [if err != nil { return "", fmt.Errorf("<prefix>: %w", err) }] *)
Definition wrapErr {A} (prefix : string) (m : M A) : M A :=
  fun log =>
    match m log with
    | (Err e, log') => (Err (wrap prefix e), log')
    | ok => ok
    end.
Definition run {A} (m : M A) : result A * list Effect := m [].

Notation "'go' x <~ m ; k" := (bind m (fun x => k))
  (at level 10, x name, m at level 100, k at level 200, only parsing).

Section WithEnv.
Variable env : Env.
(** [core.SHA1ToDedupeKey] and [core.DedupeKeyToSHA1], whose sources are not
    among the files at hand (module [Dedup] has them as the spec describes
    them). *)
Variable SHA1ToDedupeKey : list byte -> string.
Variable DedupeKeyToSHA1 : string -> result (list byte).

Definition Stat (path : string) : M bool := perform (EStat path) (Ok (statOk env path)).
Definition CalculateSHA1 (path : string) : M (list byte) :=
  perform (EHash path) (sha1Of env path).
Definition FindMediaKeyByHash (sha1Hash : list byte) : M string :=
  perform (ELookup sha1Hash) (lookup env sha1Hash).

(** [ResolveItemKey] *)
Definition ResolveItemKey (input : string) : M string :=
  if String.eqb input "" then fail "item key or file path is required"
  else if Dedup.DedupKeyPattern_MatchString input then
    (* If input looks like a dedup key *)
    ret input
  else
    (* Check if input is a file path by trying to stat it *)
    go found <~ Stat input ;
    if found then
      go hash <~ wrapErr "failed to calculate SHA1" (CalculateSHA1 input) ;
      ret (SHA1ToDedupeKey hash)
    else
      (* Assume it's already a media key or dedup key *)
      ret input.

(** [ResolveMediaKey] *)
Definition ResolveMediaKey (input : string) : M string :=
  if String.eqb input "" then fail "item key or file path is required"
  else if Dedup.DedupKeyPattern_MatchString input then
    (* If input looks like a dedup key, convert to hash and look up mediaKey *)
    match DedupeKeyToSHA1 input with
    | Err err => fail (wrap "failed to decode dedup key" err)
    | Ok hash =>
        go mediaKey <~ wrapErr "failed to find media in library" (FindMediaKeyByHash hash) ;
        if String.eqb mediaKey "" then fail "media not found in Google Photos library"
        else ret mediaKey
    end
  else
    (* Check if input is a file path by trying to stat it *)
    go found <~ Stat input ;
    if found then
      go hash <~ wrapErr "failed to calculate SHA1" (CalculateSHA1 input) ;
      go mediaKey <~ wrapErr "failed to find media in library" (FindMediaKeyByHash hash) ;
      if String.eqb mediaKey "" then fail "file not found in Google Photos library"
      else ret mediaKey
    else
      (* Assume it's already a media key *)
      ret input.

End WithEnv.

(** What [ResolveMediaKey] is to make of the reply to a hash lookup: the
    media key, [notFound] when the reply is empty, the wrapped error when the
    lookup failed. *)
Definition lookupOutcome (notFound : error) (reply : result string) : result string :=
  match reply with
  | Err err => Err (wrap "failed to find media in library" err)
  | Ok mediaKey => if String.eqb mediaKey "" then Err notFound else Ok mediaKey
  end.

(** The two errors with which [ResolveMediaKey] reports an empty lookup reply. *)
Definition NOT_FOUND (e : error) : bool :=
  String.eqb e "media not found in Google Photos library"
  || String.eqb e "file not found in Google Photos library".

End Resolver.

(** ** Download to a file: the choice of the file name *)
Module Download.

(** The reply to [http.Get], as far as [DownloadFile] looks at it. *)
Record GetResponse := {
  StatusCode : Z;
  ContentDisposition : string;      (* resp.Header.Get("Content-Disposition") *)
  Body : list byte
}.

Section WithLibraries.

(** [strings.TrimSpace]; [url.Parse] followed by the selection of [Path]
    ([None] when [url.Parse] fails); [http.Get]; and [DownloadFromReader],
    which writes the body to the file it derives from the output path and
    the file name. *)
Variable TrimSpace : string -> string.
Variable url_Parse_Path : string -> option string.
Variable http_Get : string -> result GetResponse.
Variable DownloadFromReader : list byte -> string -> string -> result string.

(** The loop of [extractFilenameFromContentDisposition] over the parts of the
    header. *)
Fixpoint extractFilenameFromParts (parts : list string) : string :=
  match parts with
  | [] => ""
  | part :: rest =>
      let part := TrimSpace part in
      if GoStrings.HasPrefix part "filename*=" then
        let value := GoStrings.TrimPrefix part "filename*=" in
        let idx := GoStrings.Index value "''" in
        if negb (idx =? -1) then
          let filename := GoStrings.string_drop (Z.to_nat (idx + 2)) value in
          match GoStrings.PathUnescape filename with
          | Some decoded => decoded
          | None => filename
          end
        else extractFilenameFromParts rest
      else if GoStrings.HasPrefix part "filename=" then
        let value := GoStrings.TrimPrefix part "filename=" in
        let value := GoStrings.Trim value "034" in
        value
      else extractFilenameFromParts rest
  end.

(** [extractFilenameFromContentDisposition] *)
Definition extractFilenameFromContentDisposition (header : string) : string :=
  if String.eqb header "" then ""
  else extractFilenameFromParts (GoStrings.Split header ";").

(** The loop [for i := len(pathSegments) - 1; i >= 0; i--] of
    [extractFilenameFromURL]; [n] is [i + 1]. *)
Fixpoint lastDottedSegment (pathSegments : list string) (n : nat) : string :=
  match n with
  | O => ""
  | S i =>
      let segment := nth i pathSegments "" in
      if negb (String.eqb segment "") && GoStrings.Contains segment "." then segment
      else lastDottedSegment pathSegments i
  end.

(** [extractFilenameFromURL] *)
Definition extractFilenameFromURL (urlStr : string) : string :=
  match url_Parse_Path urlStr with
  | None => ""
  | Some path =>
      let pathSegments := GoStrings.Split path "/" in
      lastDottedSegment pathSegments (length pathSegments)
  end.

(** [DownloadFile] *)
Definition DownloadFile (downloadURL outputPath filename : string) : result string :=
  match http_Get downloadURL with
  | Err err => Err (wrap "download request failed" err)
  | Ok resp =>
      if (StatusCode resp <? 200) || (300 <=? StatusCode resp) then
        Err ("download failed with status " +:+ pretty (StatusCode resp))
      else
        (* Use provided filename, or extract from response *)
        let filename :=
          if String.eqb filename ""
          then extractFilenameFromContentDisposition (ContentDisposition resp)
          else filename in
        let filename :=
          if String.eqb filename "" then extractFilenameFromURL downloadURL
          else filename in
        let filename := if String.eqb filename "" then "download" else filename in
        DownloadFromReader (Body resp) outputPath filename
  end.

End WithLibraries.

(** A path segment that [extractFilenameFromURL] accepts as a file name. *)
Definition dotted (segment : string) : bool :=
  negb (String.eqb segment "") && GoStrings.Contains segment ".".

(** The priority among the sources of a file name: the caller, the
    Content-Disposition header, the URL, and the fixed name "download". *)
Inductive chosen (provided fromHeader fromURL : string) : string -> Prop :=
| ByCaller : provided <> "" -> chosen provided fromHeader fromURL provided
| ByHeader : provided = "" -> fromHeader <> "" -> chosen provided fromHeader fromURL fromHeader
| ByURL : provided = "" -> fromHeader = "" -> fromURL <> "" ->
    chosen provided fromHeader fromURL fromURL
| ByDefault : provided = "" -> fromHeader = "" -> fromURL = "" ->
    chosen provided fromHeader fromURL "download".

(** [seg] is the last dotted segment of [segments], if there is one. *)
Definition last_dotted (segments : list string) (seg : string) : Prop :=
  (exists pre post, segments = (pre ++ seg :: post)%list
                    /\ dotted seg = true /\ Forall (fun s => dotted s = false) post)
  \/ (Forall (fun s => dotted s = false) segments /\ seg = "").

End Download.

(** ** [google.golang.org/protobuf/encoding/protowire] *)
Module Protowire.

(** The negative lengths with which the [Consume] functions report an error. *)
Definition errCodeTruncated : Z := -1.
Definition errCodeFieldNumber : Z := -2.
Definition errCodeOverflow : Z := -3.

(** The wire types. *)
Definition VarintType : Z := 0.
Definition Fixed64Type : Z := 1.
Definition BytesType : Z := 2.
Definition StartGroupType : Z := 3.
Definition EndGroupType : Z := 4.
Definition Fixed32Type : Z := 5.

(** [ConsumeVarint], which the library writes out byte by byte: [i] is the
    index of the byte that is read and [v] the value of the bytes before it. *)
Fixpoint ConsumeVarint_at (i : nat) (v : Z) (b : list byte) : Z * Z :=
  match b with
  | [] => (0, errCodeTruncated)
  | y :: b' =>
      let y := byteZ y in
      let v := v + Z.shiftl y (7 * Z.of_nat i) in
      if (i =? 9)%nat then
        if y <? 2 then (v, 10) else (0, errCodeOverflow)
      else if y <? 0x80 then (v, Z.of_nat i + 1)
      else ConsumeVarint_at (S i) (v - Z.shiftl 0x80 (7 * Z.of_nat i)) b'
  end.

Definition ConsumeVarint (b : list byte) : Z * Z := ConsumeVarint_at 0 0 b.

(** [DecodeTag] *)
Definition DecodeTag (x : Z) : Z * Z :=
  if 2 ^ 31 - 1 <? Z.shiftr x 3 then (-1, 0)
  else (Z.shiftr x 3, Z.land x 7).

(** [ConsumeTag]: field number, wire type and length. *)
Definition ConsumeTag (b : list byte) : Z * Z * Z :=
  let '(v, n) := ConsumeVarint b in
  if n <? 0 then (0, 0, n)
  else
    let '(num, typ) := DecodeTag v in
    if num <? 1 then (0, 0, errCodeFieldNumber)
    else (num, typ, n).

(** [ConsumeFixed32]: four bytes, least significant first. *)
Definition ConsumeFixed32 (b : list byte) : Z * Z :=
  match b with
  | b0 :: b1 :: b2 :: b3 :: _ =>
      (Z.lor (Z.lor (Z.lor (byteZ b0) (Z.shiftl (byteZ b1) 8)) (Z.shiftl (byteZ b2) 16))
         (Z.shiftl (byteZ b3) 24), 4)
  | _ => (0, errCodeTruncated)
  end.

(** [ConsumeFixed64]: eight bytes, least significant first. *)
Definition ConsumeFixed64 (b : list byte) : Z * Z :=
  match b with
  | b0 :: b1 :: b2 :: b3 :: b4 :: b5 :: b6 :: b7 :: _ =>
      (Z.lor (Z.lor (Z.lor (Z.lor (Z.lor (Z.lor (Z.lor (byteZ b0)
         (Z.shiftl (byteZ b1) 8)) (Z.shiftl (byteZ b2) 16)) (Z.shiftl (byteZ b3) 24))
         (Z.shiftl (byteZ b4) 32)) (Z.shiftl (byteZ b5) 40)) (Z.shiftl (byteZ b6) 48))
         (Z.shiftl (byteZ b7) 56), 8)
  | _ => (0, errCodeTruncated)
  end.

(** [ConsumeBytes]: a length prefix [m] and the [m] bytes after it. *)
Definition ConsumeBytes (b : list byte) : list byte * Z :=
  let '(m, n) := ConsumeVarint b in
  if n <? 0 then ([], n)
  else
    let rest := drop (Z.to_nat n) b in
    if blen rest <? m then ([], errCodeTruncated)
    else (take (Z.to_nat m) rest, n + m).

End Protowire.

(** ** The schemaless decoder and the library parser *)
Module Library.

(** The dynamic values the decoder builds: [nil], [uint64], [uint32],
    [string], [map[string]any] and [[]any]. *)
Inductive any :=
| ANil
| AUint64 (v : Z)
| AUint32 (v : Z)
| AString (s : string)
| AMap (m : gmap string any)
| AList (l : list any).

(** How a call ends: it returns, it panics (a slice bound out of range), or
    the model ran out of fuel. *)
Inductive outcome (A : Type) : Type :=
| Done (a : A)
| Panic
| OutOfFuel.
Arguments Done {A} a.
Arguments Panic {A}.
Arguments OutOfFuel {A}.

(** [data[n:]], which panics unless [0 <= n <= len(data)]. *)
Definition slice_from (data : list byte) (n : Z) : option (list byte) :=
  if (0 <=? n) && (n <=? blen data) then Some (drop (Z.to_nat n) data) else None.

(** [decodeRune]: the rune and its size. *)
Definition decodeRune (data : list byte) : Z * Z :=
  match data with
  | [] => (0xFFFD, 0)
  | b0 :: rest =>
      let b := byteZ b0 in
      if b <? 0x80 then (b, 1)
      else if b <? 0xC0 then (0xFFFD, 1)
      else if b <? 0xE0 then
        match rest with
        | d1 :: _ => (Z.lor (Z.shiftl (Z.land b 0x1F) 6) (Z.land (byteZ d1) 0x3F), 2)
        | _ => (0xFFFD, 1)
        end
      else if b <? 0xF0 then
        match rest with
        | d1 :: d2 :: _ =>
            (Z.lor (Z.lor (Z.shiftl (Z.land b 0x0F) 12) (Z.shiftl (Z.land (byteZ d1) 0x3F) 6))
               (Z.land (byteZ d2) 0x3F), 3)
        | _ => (0xFFFD, 1)
        end
      else
        match rest with
        | d1 :: d2 :: d3 :: _ =>
            (Z.lor (Z.lor (Z.lor (Z.shiftl (Z.land b 0x07) 18)
                             (Z.shiftl (Z.land (byteZ d1) 0x3F) 12))
                      (Z.shiftl (Z.land (byteZ d2) 0x3F) 6))
               (Z.land (byteZ d3) 0x3F), 4)
        | _ => (0xFFFD, 1)
        end
  end.

(** The loop [for i := 0; i < len(data); { ...; i += size }] of [isValidUTF8]. *)
Fixpoint isValidUTF8_loop (fuel : nat) (data : list byte) (i : Z) : outcome bool :=
  if i <? blen data then
    match fuel with
    | O => OutOfFuel
    | S fuel' =>
        match slice_from data i with
        | None => Panic
        | Some rest =>
            let '(r, size) := decodeRune rest in
            if (r =? 0xFFFD) && (size =? 1) then Done false
            else if (r <? 0x20) && negb (r =? 9) && negb (r =? 10) && negb (r =? 13)
            then Done false
            else isValidUTF8_loop fuel' data (i + size)
        end
    end
  else Done true.

(** [isValidUTF8] *)
Definition isValidUTF8 (data : list byte) : outcome bool :=
  if blen data =? 0 then Done true
  else isValidUTF8_loop (length data) data 0.

(** The assignment [result[key] = ...] at the end of an iteration of
    [decodeProtobufToJSON], which turns a repeated field into a list. *)
Definition addField (fields : gmap string any) (key : string) (value : any)
    : gmap string any :=
  match fields !! key with
  | Some existing =>
      match existing with
      | AList v => <[key := AList (v ++ [value])]> fields
      | v => <[key := AList [v; value]]> fields
      end
  | None => <[key := value]> fields
  end.

Section Decoder.

(** The recursive call of [decodeProtobufToJSON] on the bytes of a field. *)
Variable decodeNested : list byte -> outcome (result any).

(** The value of a field of wire type [BytesType]: the nested message if the
    bytes decode as one, else the text if they are printable UTF-8, else
    their standard base64 encoding. *)
Definition bytesValue (v : list byte) : outcome any :=
  let fallback :=
    match isValidUTF8 v with
    | Done true => Done (AString (String.string_of_list_byte v))
    | Done false =>
        Done (AString (Base64.EncodeToString Base64.encodeStd (Some "="%char) v))
    | Panic => Panic
    | OutOfFuel => OutOfFuel
    end in
  match decodeNested v with
  | Done (Ok ANil) => fallback
  | Done (Ok nested) => Done nested
  | Done (Err _) => fallback
  | Panic => Panic
  | OutOfFuel => OutOfFuel
  end.

(** One iteration of the loop of [decodeProtobufToJSON]: the data that is
    left and the map [result] so far (here [fields]), or the error the
    function returns. *)
Definition decodeField (data : list byte) (fields : gmap string any)
    : outcome (result (list byte * gmap string any)%type) :=
  let '(fieldNum, wireType, n) := Protowire.ConsumeTag data in
  if n <? 0 then Done (Err "failed to consume tag")
  else
    match slice_from data n with
    | None => Panic
    | Some data =>
        let store (value : any) (consumed : Z) :=
          match slice_from data consumed with
          | None => Panic
          | Some data' => Done (Ok (data', addField fields (pretty fieldNum) value))
          end in
        if wireType =? Protowire.VarintType then
          let '(v, n) := Protowire.ConsumeVarint data in
          if n <? 0 then Done (Err "failed to consume varint") else store (AUint64 v) n
        else if wireType =? Protowire.Fixed64Type then
          let '(v, n) := Protowire.ConsumeFixed64 data in
          if n <? 0 then Done (Err "failed to consume fixed64") else store (AUint64 v) n
        else if wireType =? Protowire.BytesType then
          let '(v, n) := Protowire.ConsumeBytes data in
          if n <? 0 then Done (Err "failed to consume bytes")
          else
            match bytesValue v with
            | Done value => store value n
            | Panic => Panic
            | OutOfFuel => OutOfFuel
            end
        else if wireType =? Protowire.Fixed32Type then
          let '(v, n) := Protowire.ConsumeFixed32 data in
          if n <? 0 then Done (Err "failed to consume fixed32") else store (AUint32 v) n
        else if (wireType =? Protowire.StartGroupType) || (wireType =? Protowire.EndGroupType)
        then Done (Err "groups not supported")
        else Done (Err ("unknown wire type: " +:+ pretty wireType))
    end.

(** The loop [for len(data) > 0] of [decodeProtobufToJSON]. *)
Fixpoint decodeFields (fuel : nat) (data : list byte) (fields : gmap string any)
    : outcome (result (gmap string any)) :=
  if 0 <? blen data then
    match fuel with
    | O => OutOfFuel
    | S fuel' =>
        match decodeField data fields with
        | Done (Ok (data', fields')) => decodeFields fuel' data' fields'
        | Done (Err err) => Done (Err err)
        | Panic => Panic
        | OutOfFuel => OutOfFuel
        end
    end
  else Done (Ok fields).

End Decoder.

(** [decodeProtobufToJSON], with [fuel] bounding the depth of nesting. *)
Fixpoint decodeProtobufToJSON_fuel (fuel : nat) (data : list byte) : outcome (result any) :=
  if blen data =? 0 then Done (Ok ANil)
  else
    match fuel with
    | O => OutOfFuel
    | S fuel' =>
        match decodeFields (decodeProtobufToJSON_fuel fuel') (length data) data ∅ with
        | Done (Ok fields) =>
            if (size fields =? 0)%nat then Done (Ok ANil) else Done (Ok (AMap fields))
        | Done (Err err) => Done (Err err)
        | Panic => Panic
        | OutOfFuel => OutOfFuel
        end
    end.

(** [decodeProtobufToJSON]: a message nested [d] deep has more than [d] bytes. *)
Definition decodeProtobufToJSON (data : list byte) : outcome (result any) :=
  decodeProtobufToJSON_fuel (length data) data.

(** [LibraryResponse], [MediaItemInfo] and [AlbumInfo] *)
Record MediaItemInfo := {
  MediaKey : string;
  Filename : string;
  Caption : string;
  CreationTimestamp : Z;
  FileSize : Z;
  Width : Z;
  Height : Z;
  IsVideo : bool;
  IsInTrash : bool;
  TrashedAt : Z;
  AlbumMediaKey : string;
  DownloadURL : string;
  ThumbnailURL : string;
  DedupKey : string
}.

Record AlbumInfo := {
  AlbumKey : string;
  Name : string;
  ItemCount : Z;
  CoverKey : string
}.

Record LibraryResponse := {
  MediaItems : list MediaItemInfo;
  Albums : list AlbumInfo;
  StateToken : string;
  PageToken : string
}.

(** The zero values [MediaItemInfo{}], [AlbumInfo{}] and [LibraryResponse{}]. *)
Definition zeroMediaItem : MediaItemInfo :=
  {| MediaKey := ""; Filename := ""; Caption := ""; CreationTimestamp := 0;
     FileSize := 0; Width := 0; Height := 0; IsVideo := false; IsInTrash := false;
     TrashedAt := 0; AlbumMediaKey := ""; DownloadURL := ""; ThumbnailURL := "";
     DedupKey := "" |}.
Definition zeroAlbum : AlbumInfo :=
  {| AlbumKey := ""; Name := ""; ItemCount := 0; CoverKey := "" |}.
Definition emptyResponse : LibraryResponse :=
  {| MediaItems := []; Albums := []; StateToken := ""; PageToken := "" |}.

(** The type assertions [v.(string)], [v.(map[string]any)] and [v.([]any)] on
    the value found at a key, in their two-result form. *)
Definition asString (v : option any) : option string :=
  match v with Some (AString s) => Some s | _ => None end.
Definition asMap (v : option any) : option (gmap string any) :=
  match v with Some (AMap m) => Some m | _ => None end.
Definition asList (v : option any) : option (list any) :=
  match v with Some (AList l) => Some l | _ => None end.

(** [getInt64], on the numeric types the decoder produces: a [uint64] is
    converted to [int64] (wrapping above [2^63 - 1]), a [uint32] is widened. *)
Definition getInt64 (v : any) : Z :=
  match v with
  | AUint64 n => if 2 ^ 63 <=? n then n - 2 ^ 64 else n
  | AUint32 n => n
  | _ => 0
  end.

(** [getInt] ([int] has 64 bits). *)
Definition getInt (v : any) : Z := getInt64 v.

(** The value at [key] of a nested map that may be absent. *)
Definition field (m : option (gmap string any)) (key : string) : option any :=
  match m with
  | Some m => m !! key
  | None => None
  end.

(** The later of two assignments to a field, when it happened. *)
Definition later {A} (second first : option A) : option A :=
  match second with
  | Some x => Some x
  | None => first
  end.

(** [parseMediaItem].  Where the source assigns a field twice (the URLs and
    the dimensions, from the image block 5.2 and then from the video block
    5.3) the later assignment wins. *)
Definition parseMediaItem (item : gmap string any) : MediaItemInfo :=
  let meta := asMap (item !! "2") in
  let trashInfo := asMap (field meta "16") in
  let dlInfo := asMap (item !! "5") in
  let imgInfo := asMap (field dlInfo "2") in
  let urlInfo := asMap (field imgInfo "1") in
  let vidInfo := asMap (field dlInfo "3") in
  let thumbInfo := asMap (field vidInfo "2") in
  {| MediaKey := default "" (asString (item !! "1"));
     Filename := default "" (asString (field meta "4"));
     Caption := default "" (asString (field meta "3"));
     CreationTimestamp := default 0 (option_map getInt64 (field meta "7"));
     FileSize := default 0 (option_map getInt64 (field meta "10"));
     DedupKey := default "" (asString (field (asMap (field meta "13")) "1"));
     AlbumMediaKey := default "" (asString (field (asMap (field meta "1")) "1"));
     IsInTrash :=
       default false (option_map (fun state => getInt state =? 2) (field trashInfo "1"));
     TrashedAt := default 0 (option_map getInt64 (field trashInfo "3"));
     IsVideo := default false (option_map (fun mt => getInt mt =? 2) (field dlInfo "1"));
     DownloadURL :=
       default "" (later (asString (field vidInfo "5")) (asString (field imgInfo "6")));
     ThumbnailURL :=
       default "" (later (asString (field thumbInfo "1")) (asString (field urlInfo "1")));
     Width :=
       default 0 (later (option_map getInt (field thumbInfo "2"))
                        (option_map getInt (field urlInfo "2")));
     Height :=
       default 0 (later (option_map getInt (field thumbInfo "3"))
                        (option_map getInt (field urlInfo "3"))) |}.

(** [parseAlbum] *)
Definition parseAlbum (item : gmap string any) : AlbumInfo :=
  let meta := asMap (item !! "2") in
  {| AlbumKey := default "" (asString (item !! "1"));
     Name := default "" (asString (field meta "5"));
     ItemCount := default 0 (option_map getInt (field meta "7"));
     CoverKey := default "" (asString (field (asMap (field meta "17")) "1")) |}.

(** The elements of a list that are maps, each passed through [parse]: the
    loops over [mediaItems] and [albums] in [parseLibraryResponse]. *)
Definition parseEach {A} (parse : gmap string any -> A) (items : list any) : list A :=
  omap (fun item => match item with AMap m => Some (parse m) | _ => None end) items.

(** The projection of the decoded tree that [parseLibraryResponse] performs. *)
Definition projectLibraryResponse (decoded : any) : LibraryResponse :=
  match decoded with
  | AMap root =>
      match asMap (root !! "1") with
      | Some field1 =>
          {| StateToken := default "" (asString (field1 !! "6"));
             PageToken := default "" (asString (field1 !! "5"));
             MediaItems :=
               default [] (option_map (parseEach parseMediaItem) (asList (field1 !! "2")));
             Albums :=
               default [] (option_map (parseEach parseAlbum) (asList (field1 !! "3"))) |}
      | None => emptyResponse
      end
  | _ => emptyResponse
  end.

(** [parseLibraryResponse] *)
Definition parseLibraryResponse (data : list byte) : outcome (result LibraryResponse) :=
  match decodeProtobufToJSON data with
  | Done (Err err) => Done (Err (wrap "failed to decode protobuf" err))
  | Done (Ok decoded) => Done (Ok (projectLibraryResponse decoded))
  | Panic => Panic
  | OutOfFuel => OutOfFuel
  end.

End Library.

(** ** The upload pipeline *)
Module Uploader.

(** [UploadStatus], a string type, and its constants; the zero value is the
    empty text. *)
Definition UploadStatus := string.
Definition StatusHashing : UploadStatus := "hashing".
Definition StatusChecking : UploadStatus := "checking".
Definition StatusUploading : UploadStatus := "uploading".
Definition StatusFinalizing : UploadStatus := "finalizing".
Definition StatusCompleted : UploadStatus := "completed".
Definition StatusSkipped : UploadStatus := "skipped".
Definition StatusFailed : UploadStatus := "failed".

(** [UploadEvent]; [Error = None] is the nil error. *)
Record UploadEvent := {
  Path : string;
  Status : UploadStatus;
  MediaKey : string;
  DedupKey : string;
  Error : option error;
  WorkerID : Z;
  Total : Z
}.

(** [UploadOptions] *)
Record UploadOptions := {
  Workers : Z;
  Recursive : bool;
  ForceUpload : bool;
  DeleteFromHost : bool;
  DisableFilter : bool;
  Caption : string;
  ShouldFavourite : bool;
  ShouldArchive : bool;
  Quality : string;
  UseQuota : bool
}.

(** What [os.Stat] tells about a file: [Size()], [Name()], [ModTime().Unix()]. *)
Record FileInfo := { Size : Z; Name : string; ModTime : Z }.

(** The calls [uploadFile] makes besides sending events, whose results it
    does not look at (or only logs). *)
Inductive SideCall :=
| OsRemove (path : string)
| SetCaption (mediaKey caption : string)
| SetFavourite (mediaKey : string) (isFavourite : bool)
| SetArchived (mediaKeys : list string) (isArchived : bool).

(** What a worker does, one step at a time: send an event on the channel
    [events], or make a side call. *)
Inductive Step :=
| Emit (e : UploadEvent)
| Call (c : SideCall).

(** The outside, as [uploadFile] sees it: the results of [CalculateSHA1],
    [FindMediaKeyByHash], [os.Stat], [GetUploadToken], [UploadFile] and of
    the round trip of [CommitUpload], and the clock. *)
Record Env := {
  sha1Of : string -> result (list byte);
  findMediaKeyByHash : list byte -> result string;
  osStat : string -> result FileInfo;
  getUploadToken : string -> Z -> result string;
  uploadFileBytes : string -> string -> result Core.CommitToken;
  doCommit : Core.CommitUploadRequest -> result Core.CommitUploadResponse;
  now : Z
}.

Section WithEnv.
Variable api : Core.Api.
Variable env : Env.
(** [core.SHA1ToDedupeKey], whose source is not among the files at hand. *)
Variable SHA1ToDedupeKey : list byte -> string.

(** [uploadFile]: the events it sends and the side calls it makes, in order. *)
Definition uploadFile (filePath : string) (workerID : Z) (opts : UploadOptions)
    : list Step :=
  let send (status : UploadStatus) (mediaKey dedupKey : string) (err : option error) :=
    Emit {| Path := filePath; Status := status; MediaKey := mediaKey;
            DedupKey := dedupKey; Error := err; WorkerID := workerID; Total := 0 |} in
  let remove := if DeleteFromHost opts then [Call (OsRemove filePath)] else [] in
  (* Hash file *)
  send StatusHashing "" "" None ::
  match sha1Of env filePath with
  | Err err => [send StatusFailed "" "" (Some (wrap "hash error" err))]
  | Ok sha1Hash =>
      let dedupKey := SHA1ToDedupeKey sha1Hash in
      let upload :=
        (* Get file info *)
        match osStat env filePath with
        | Err err => [send StatusFailed "" dedupKey (Some (wrap "stat error" err))]
        | Ok fileInfo =>
            (* Upload *)
            send StatusUploading "" dedupKey None ::
            let sha1Base64 :=
              Base64.EncodeToString Base64.encodeStd (Some "="%char) sha1Hash in
            match getUploadToken env sha1Base64 (Size fileInfo) with
            | Err err =>
                [send StatusFailed "" dedupKey (Some (wrap "upload token error" err))]
            | Ok token =>
                match uploadFileBytes env filePath token with
                | Err err =>
                    [send StatusFailed "" dedupKey (Some (wrap "upload error" err))]
                | Ok commitToken =>
                    (* Finalize *)
                    send StatusFinalizing "" dedupKey None ::
                    match Core.CommitUpload (doCommit env) api (now env) commitToken
                            (Name fileInfo) sha1Hash (ModTime fileInfo)
                            (Quality opts) (UseQuota opts) with
                    | Err err =>
                        [send StatusFailed "" dedupKey (Some (wrap "commit error" err))]
                    | Ok mediaKey =>
                        if String.eqb mediaKey "" then
                          [send StatusFailed "" dedupKey (Some "no media key returned")]
                        else
                          (* Post-upload ops *)
                          ((if negb (String.eqb (Caption opts) "")
                            then [Call (SetCaption mediaKey (Caption opts))] else [])
                           ++ (if ShouldFavourite opts
                               then [Call (SetFavourite mediaKey true)] else [])
                           ++ (if ShouldArchive opts
                               then [Call (SetArchived [mediaKey] true)] else [])
                           ++ remove
                           ++ [send StatusCompleted mediaKey dedupKey None])%list
                    end
                end
            end
        end in
      (* Check if exists *)
      if negb (ForceUpload opts) then
        send StatusChecking "" dedupKey None ::
        let mediaKey :=
          match findMediaKeyByHash env sha1Hash with
          | Ok mediaKey => mediaKey
          | Err _ => ""
          end in
        if negb (String.eqb mediaKey "") then
          (remove ++ [send StatusSkipped mediaKey dedupKey None])%list
        else upload
      else upload
  end.

(** Where the goroutine of [Upload] is. *)
Inductive DriverPC :=
| DStart                                        (* about to list the files *)
| DSelect (rest : list string) (first : bool)   (* at the top of the sending loop *)
| DTotal (path : string) (rest : list string)   (* about to send the total *)
| DPush (path : string) (rest : list string)    (* about to push [path] *)
| DWait                                         (* in [wg.Wait()] *)
| DClosing                                      (* about to close [events] *)
| DDone.

(** Where a worker goroutine is. *)
Inductive WorkerPC :=
| WReceive                       (* at [for path := range workChan] *)
| WSelect (path : string)        (* at the [select] on [ctx.Done()] *)
| WRun (steps : list Step)       (* inside [uploadFile] *)
| WExit.

(** The state of one call of [Upload]: the two kinds of goroutine, the
    buffered channel [workChan], whether the context is cancelled, and what
    was sent on [events] (oldest first) and whether it is closed. *)
Record State := {
  driver : DriverPC;
  workers : list WorkerPC;
  workChan : list string;
  workChanClosed : bool;
  cancelled : bool;
  events : list UploadEvent;
  eventsClosed : bool;
  calls : list SideCall
}.

(** The number of workers [Upload] starts for [len(files)] files. *)
Definition workerCount (opts : UploadOptions) (files : list string) : Z :=
  let workers := Z.max 1 (Workers opts) in
  let workers := Z.min workers (Z.of_nat (length files)) in
  workers.

(** The two events the driver itself sends. *)
Definition failedEvent (err : error) : UploadEvent :=
  {| Path := ""; Status := StatusFailed; MediaKey := ""; DedupKey := "";
     Error := Some err; WorkerID := 0; Total := 0 |}.
Definition totalEvent (files : list string) : UploadEvent :=
  {| Path := ""; Status := ""; MediaKey := ""; DedupKey := "";
     Error := None; WorkerID := 0; Total := Z.of_nat (length files) |}.

Definition init : State :=
  {| driver := DStart; workers := []; workChan := []; workChanClosed := false;
     cancelled := false; events := []; eventsClosed := false; calls := [] |}.

Definition setDriver (d : DriverPC) (s : State) : State :=
  {| driver := d; workers := workers s; workChan := workChan s;
     workChanClosed := workChanClosed s; cancelled := cancelled s;
     events := events s; eventsClosed := eventsClosed s; calls := calls s |}.
Definition setWorker (i : nat) (w : WorkerPC) (s : State) : State :=
  {| driver := driver s; workers := <[i := w]> (workers s); workChan := workChan s;
     workChanClosed := workChanClosed s; cancelled := cancelled s;
     events := events s; eventsClosed := eventsClosed s; calls := calls s |}.
Definition setWorkChan (q : list string) (s : State) : State :=
  {| driver := driver s; workers := workers s; workChan := q;
     workChanClosed := workChanClosed s; cancelled := cancelled s;
     events := events s; eventsClosed := eventsClosed s; calls := calls s |}.
Definition closeWorkChan (s : State) : State :=
  {| driver := driver s; workers := workers s; workChan := workChan s;
     workChanClosed := true; cancelled := cancelled s;
     events := events s; eventsClosed := eventsClosed s; calls := calls s |}.
Definition sendEvent (e : UploadEvent) (s : State) : State :=
  {| driver := driver s; workers := workers s; workChan := workChan s;
     workChanClosed := workChanClosed s; cancelled := cancelled s;
     events := (events s ++ [e])%list; eventsClosed := eventsClosed s; calls := calls s |}.
Definition makeCall (c : SideCall) (s : State) : State :=
  {| driver := driver s; workers := workers s; workChan := workChan s;
     workChanClosed := workChanClosed s; cancelled := cancelled s;
     events := events s; eventsClosed := eventsClosed s;
     calls := (calls s ++ [c])%list |}.

(** The result of [GetGooglePhotosSupportedFiles] and the options of the call. *)
Variable listing : result (list string).
Variable opts : UploadOptions.

(** One step of one goroutine, or the cancellation of the context. *)
Inductive step : State -> State -> Prop :=
(* the driver *)
| step_list_failed s err :
    driver s = DStart -> listing = Err err ->
    step s (setDriver DClosing (sendEvent (failedEvent err) s))
| step_list_empty s :
    driver s = DStart -> listing = Ok [] ->
    step s (setDriver DClosing s)
| step_start_workers s files :
    driver s = DStart -> listing = Ok files -> files <> [] ->
    step s {| driver := DSelect files true;
              workers := replicate (Z.to_nat (workerCount opts files)) WReceive;
              workChan := workChan s; workChanClosed := workChanClosed s;
              cancelled := cancelled s; events := events s;
              eventsClosed := eventsClosed s; calls := calls s |}
| step_all_sent s first :
    driver s = DSelect [] first ->
    step s (setDriver DWait (closeWorkChan s))
| step_driver_cancelled s path rest first :
    driver s = DSelect (path :: rest) first -> cancelled s = true ->
    step s (setDriver DWait (closeWorkChan s))
| step_driver_continue s path rest first :
    driver s = DSelect (path :: rest) first -> cancelled s = false ->
    step s (setDriver (if first then DTotal path rest else DPush path rest) s)
| step_send_total s path rest files :
    driver s = DTotal path rest -> listing = Ok files ->
    step s (setDriver (DPush path rest) (sendEvent (totalEvent files) s))
| step_push s path rest :
    driver s = DPush path rest ->
    step s (setDriver (DSelect rest false) (setWorkChan (workChan s ++ [path])%list s))
| step_wait_over s :
    driver s = DWait -> Forall (fun w => w = WExit) (workers s) ->
    step s (setDriver DClosing s)
| step_close s :
    driver s = DClosing ->
    step s {| driver := DDone; workers := workers s; workChan := workChan s;
              workChanClosed := workChanClosed s; cancelled := cancelled s;
              events := events s; eventsClosed := true; calls := calls s |}
(* worker [i] *)
| step_receive s i path queue :
    workers s !! i = Some WReceive -> workChan s = path :: queue ->
    step s (setWorker i (WSelect path) (setWorkChan queue s))
| step_range_over s i :
    workers s !! i = Some WReceive -> workChan s = [] -> workChanClosed s = true ->
    step s (setWorker i WExit s)
| step_worker_cancelled s i path :
    workers s !! i = Some (WSelect path) -> cancelled s = true ->
    step s (setWorker i WExit s)
| step_worker_continue s i path :
    workers s !! i = Some (WSelect path) -> cancelled s = false ->
    step s (setWorker i (WRun (uploadFile path (Z.of_nat i) opts)) s)
| step_emit s i e steps :
    workers s !! i = Some (WRun (Emit e :: steps)) ->
    step s (setWorker i (WRun steps) (sendEvent e s))
| step_call s i c steps :
    workers s !! i = Some (WRun (Call c :: steps)) ->
    step s (setWorker i (WRun steps) (makeCall c s))
| step_file_done s i :
    workers s !! i = Some (WRun []) ->
    step s (setWorker i WReceive s)
(* the caller's context *)
| step_cancel s :
    step s {| driver := driver s; workers := workers s; workChan := workChan s;
              workChanClosed := workChanClosed s; cancelled := true;
              events := events s; eventsClosed := eventsClosed s; calls := calls s |}.

(** The states a call of [Upload] can reach. *)
Inductive reachable : State -> Prop :=
| reachable_init : reachable init
| reachable_step s s' : reachable s -> step s s' -> reachable s'.

End WithEnv.

(** An event that carries a status. *)
Definition hasStatus (e : UploadEvent) : Prop := Status e <> "".

(** An event as the workers send them: a status and no total. *)
Definition workerEvent (e : UploadEvent) : Prop := Total e = 0 /\ Status e <> "".

Definition goodStep (st : Step) : Prop :=
  match st with
  | Emit e => workerEvent e
  | Call _ => True
  end.

Definition goodWorker (w : WorkerPC) : Prop :=
  match w with
  | WRun steps => Forall goodStep steps
  | _ => True
  end.

(** A worker that holds no file. *)
Definition idle (w : WorkerPC) : Prop := w = WReceive \/ w = WExit.

(** The shape of the event stream of a batch: nothing yet; or, when the
    listing failed, the one failed event; or the total followed by events of
    the workers. *)
Definition streamShape (listing : result (list string)) (evs : list UploadEvent) : Prop :=
  match listing with
  | Err err => evs = [] \/ evs = [failedEvent err]
  | Ok files =>
      evs = []
      \/ (files <> []
          /\ exists rest, evs = totalEvent files :: rest /\ Forall workerEvent rest)
  end.

(** What holds of the driver at each of its places. *)
Definition driverOk (listing : result (list string)) (s : State) : Prop :=
  match driver s with
  | DStart => events s = [] /\ workers s = []
  | DSelect rest true => events s = [] /\ listing = Ok rest /\ rest <> []
  | DSelect rest false => events s <> []
  | DTotal path rest => events s = [] /\ listing = Ok (path :: rest)
  | DPush path rest => events s <> []
  | DWait | DClosing | DDone =>
      events s = [] -> (exists files, listing = Ok files /\ files <> []) ->
      cancelled s = true
  end.

(** The invariant of a batch. *)
Definition Inv (listing : result (list string)) (s : State) : Prop :=
  streamShape listing (events s)
  /\ Forall goodWorker (workers s)
  /\ (events s = [] -> workChan s = [] /\ Forall idle (workers s))
  /\ (workers s = [] \/ exists files, listing = Ok files /\ files <> [])
  /\ driverOk listing s.

(** The number of workers at each place of the driver, and what a batch
    without files does. *)
Definition workersOk (listing : result (list string)) (opts : UploadOptions)
    (s : State) : Prop :=
  match listing with
  | Ok [] =>
      workers s = [] /\ events s = []
      /\ (driver s = DStart \/ driver s = DClosing \/ driver s = DDone)
  | Ok files =>
      (driver s = DStart /\ workers s = [])
      \/ (driver s <> DStart /\ Z.of_nat (length (workers s)) = workerCount opts files)
  | Err _ => workers s = []
  end.

(** The state in which [Upload] leaves a batch without files. *)
Definition closedEmpty : State :=
  {| driver := DDone; workers := []; workChan := []; workChanClosed := false;
     cancelled := false; events := []; eventsClosed := true; calls := [] |}.

(** The events among the steps of a worker, and the side calls among them. *)
Definition eventsOf (steps : list Step) : list UploadEvent :=
  omap (fun st => match st with Emit e => Some e | Call _ => None end) steps.
Definition callsOf (steps : list Step) : list SideCall :=
  omap (fun st => match st with Call c => Some c | Emit _ => None end) steps.

(** The statuses that end the handling of a file. *)
Definition terminal (status : UploadStatus) : bool :=
  String.eqb status StatusCompleted || String.eqb status StatusSkipped
  || String.eqb status StatusFailed.

(** The place of a status in the life of a file. *)
Definition rank (status : UploadStatus) : Z :=
  if String.eqb status StatusHashing then 0
  else if String.eqb status StatusChecking then 1
  else if String.eqb status StatusUploading then 2
  else if String.eqb status StatusFinalizing then 3
  else 4.

(** A side call that [opts] asks for, on [filePath] and the media key [key]. *)
Definition wanted (opts : UploadOptions) (filePath key : string) (c : SideCall) : Prop :=
  match c with
  | OsRemove path => path = filePath /\ DeleteFromHost opts = true
  | SetCaption k caption => k = key /\ caption = Caption opts /\ caption <> ""
  | SetFavourite k b => k = key /\ b = true /\ ShouldFavourite opts = true
  | SetArchived ks b => ks = [key] /\ b = true /\ ShouldArchive opts = true
  end.

(** The files the driver has still to push, the one in its hands included. *)
Definition driverRest (files : list string) (d : DriverPC) : list string :=
  match d with
  | DStart => files
  | DSelect rest _ => rest
  | DTotal path rest | DPush path rest => path :: rest
  | DWait | DClosing | DDone => []
  end.

(** A step of worker [i] on a file of the batch. *)
Definition stepOf (files : list string) (i : nat) (st : Step) : Prop :=
  match st with
  | Emit e => Path e ∈ files /\ WorkerID e = Z.of_nat i /\ hasStatus e
  | Call _ => True
  end.

Definition workerOf (files : list string) (i : nat) (w : WorkerPC) : Prop :=
  match w with
  | WSelect path => path ∈ files
  | WRun steps => Forall (stepOf files i) steps
  | WReceive | WExit => True
  end.

(** An event that names a file of the batch and one of its workers. *)
Definition eventOf (files : list string) (n : Z) (e : UploadEvent) : Prop :=
  hasStatus e -> Path e ∈ files /\ 0 <= WorkerID e < n.

(** Where the files of a batch are: still with the driver, or in the work
    channel, or with a worker; and whose events have been sent. *)
Definition filesOk (files : list string) (n : Z) (s : State) : Prop :=
  driverRest files (driver s) `suffix_of` files
  /\ (length (workChan s) + length (driverRest files (driver s)) <= length files)%nat
  /\ Forall (fun path => path ∈ files) (workChan s)
  /\ (forall i w, workers s !! i = Some w -> workerOf files i w)
  /\ Z.of_nat (length (workers s)) <= n
  /\ Forall (eventOf files n) (events s).

(** Once the driver is about to close the stream every worker has exited,
    and the stream is closed by the driver's last step only. *)
Definition closingOk (s : State) : Prop :=
  (driver s = DClosing \/ driver s = DDone -> Forall (fun w => w = WExit) (workers s))
  /\ (eventsClosed s = true -> driver s = DDone).

End Uploader.

(** ** [gpcli]: the configuration manager and its token cache *)
Module Config.

(** [CachedToken], [AccountConfig] and [Config]; an account is held by a
    pointer, [None] in [AuthToken] is the nil pointer. *)
Record CachedToken := { Token : string; Expiry : Z }.

Record AccountConfig := {
  Email : string;
  Auth : string;
  AuthToken : option CachedToken;
  Quality : string;
  UseQuota : bool;
  UploadThreads : Z;
  Proxy : string
}.

Record Config := {
  Selected : string;
  Accounts : list AccountConfig
}.

(** [DefaultAccountConfig] *)
Definition DefaultAccountConfig : AccountConfig :=
  {| Email := ""; Auth := ""; AuthToken := None; Quality := "original";
     UseQuota := false; UploadThreads := 3; Proxy := "" |}.

(** [ConfigManager]: the configuration in memory, the path of its file, and
    what the file holds since it was last written ([None]: not written yet). *)
Record ConfigManager := {
  config : Config;
  configPath : string;
  written : option (list byte)
}.

(** The assignments [m.config.Selected = ...], [m.config.Accounts = ...] and
    [m.config.Accounts[idx].AuthToken = ...]. *)
Definition setSelected (selected : string) (m : ConfigManager) : ConfigManager :=
  {| config := {| Selected := selected; Accounts := Accounts (config m) |};
     configPath := configPath m; written := written m |}.
Definition setAccounts (accounts : list AccountConfig) (m : ConfigManager) : ConfigManager :=
  {| config := {| Selected := Selected (config m); Accounts := accounts |};
     configPath := configPath m; written := written m |}.
Definition setAuthToken (t : option CachedToken) (acc : AccountConfig) : AccountConfig :=
  {| Email := Email acc; Auth := Auth acc; AuthToken := t; Quality := Quality acc;
     UseQuota := UseQuota acc; UploadThreads := UploadThreads acc; Proxy := Proxy acc |}.

(** The loop of [findAccountIndex]; [i] is the index of the first account
    of [accounts]. *)
Fixpoint findAccountIndex_from (i : Z) (accounts : list AccountConfig) (email : string) : Z :=
  match accounts with
  | [] => -1
  | acc :: rest =>
      if String.eqb (Email acc) email then i
      else findAccountIndex_from (i + 1) rest email
  end.

(** [findAccountIndex] *)
Definition findAccountIndex (m : ConfigManager) (email : string) : Z :=
  findAccountIndex_from 0 (Accounts (config m)) email.

(** [GetSelectedAccount]; [None] is the nil pointer. *)
Definition GetSelectedAccount (m : ConfigManager) : option AccountConfig :=
  let idx := findAccountIndex m (Selected (config m)) in
  if 0 <=? idx then Accounts (config m) !! Z.to_nat idx else None.

(** [GetAccountEmails] *)
Definition GetAccountEmails (m : ConfigManager) : list string :=
  map Email (Accounts (config m)).

(** The fields [AddCredentials] requires of an auth string. *)
Definition requiredFields : list string :=
  ["androidId"; "app"; "client_sig"; "Email"; "Token"; "lang"; "service"].

(** A slice of strings under the verb [%v]. *)
Definition format_v (l : list string) : string := "[" +:+ String.concat " " l +:+ "]".

Section WithOutside.

(** [toml.Marshal] on a configuration, [filepath.Dir], [os.MkdirAll] and
    [os.WriteFile] (with their fixed permissions), and [url.ParseQuery]. *)
Variable Marshal : Config -> result (list byte).
Variable Dir : string -> string.
Variable MkdirAll : string -> option error.
Variable WriteFile : string -> list byte -> option error.
Variable ParseQuery : string -> result Auth.Values.

(** [Save]; [None] is the nil error. *)
Definition Save (m : ConfigManager) : option error * ConfigManager :=
  match Marshal (config m) with
  | Err err => (Some (wrap "failed to marshal config" err), m)
  | Ok data =>
      (* Create directory if it doesn't exist *)
      let configDir := Dir (configPath m) in
      match MkdirAll configDir with
      | Some err => (Some (wrap "failed to create config directory" err), m)
      | None =>
          match WriteFile (configPath m) data with
          | Some err => (Some (wrap "failed to write config file" err), m)
          | None =>
              (None, {| config := config m; configPath := configPath m;
                        written := Some data |})
          end
      end
  end.

(** [SetSelected] *)
Definition SetSelected (email : string) (m : ConfigManager) : option error * ConfigManager :=
  if findAccountIndex m email <? 0 then
    (Some ("account " +:+ email +:+ " does not exist"), m)
  else Save (setSelected email m).

(** [AddCredentials] *)
Definition AddCredentials (authString : string) (m : ConfigManager)
    : result string * ConfigManager :=
  match ParseQuery authString with
  | Err err => (Err (wrap "invalid auth string format" err), m)
  | Ok params =>
      let missingFields :=
        List.filter (fun field => String.eqb (Auth.Values_Get params field) "")
          requiredFields in
      if (0 <? length missingFields)%nat then
        (Err ("auth string missing required fields: " +:+ format_v missingFields), m)
      else
        let email := Auth.Values_Get params "Email" in
        if 0 <=? findAccountIndex m email then
          (Err ("account " +:+ email +:+ " already exists"), m)
        else
          let account :=
            {| Email := email; Auth := authString;
               AuthToken := AuthToken DefaultAccountConfig;
               Quality := Quality DefaultAccountConfig;
               UseQuota := UseQuota DefaultAccountConfig;
               UploadThreads := UploadThreads DefaultAccountConfig;
               Proxy := Proxy DefaultAccountConfig |} in
          let m := setAccounts (Accounts (config m) ++ [account])%list m in
          let m := setSelected email m in
          match Save m with
          | (Some err, m) => (Err err, m)
          | (None, m) => (Ok email, m)
          end
  end.

(** [RemoveCredentials] *)
Definition RemoveCredentials (email : string) (m : ConfigManager)
    : option error * ConfigManager :=
  let idx := findAccountIndex m email in
  if idx <? 0 then (Some ("account " +:+ email +:+ " does not exist"), m)
  else
    let accounts :=
      (take (Z.to_nat idx) (Accounts (config m))
       ++ drop (Z.to_nat (idx + 1)) (Accounts (config m)))%list in
    let m := setAccounts accounts m in
    let m :=
      if String.eqb (Selected (config m)) email then
        match Accounts (config m) with
        | first :: _ => setSelected (Email first) m
        | [] => setSelected "" m
        end
      else m in
    Save m.

(** [UpdateAccountToken] *)
Definition UpdateAccountToken (email token : string) (expiry : Z) (m : ConfigManager)
    : option error * ConfigManager :=
  let idx := findAccountIndex m email in
  if idx <? 0 then (Some ("account " +:+ email +:+ " does not exist"), m)
  else
    let accounts :=
      alter (setAuthToken (Some {| Token := token; Expiry := expiry |}))
        (Z.to_nat idx) (Accounts (config m)) in
    Save (setAccounts accounts m).

(** [ConfigTokenCache]: the manager it points to, and the account. *)
Record ConfigTokenCache := {
  manager : ConfigManager;
  email : string
}.

(** [ConfigTokenCache.Get] *)
Definition ConfigTokenCache_Get (c : ConfigTokenCache) : string * Z :=
  let idx := findAccountIndex (manager c) (email c) in
  if 0 <=? idx then
    match Accounts (config (manager c)) !! Z.to_nat idx with
    | Some {| AuthToken := Some t |} => (Token t, Expiry t)
    | _ => ("", 0)
    end
  else ("", 0).

(** [ConfigTokenCache.Set], which drops the error of [UpdateAccountToken]. *)
Definition ConfigTokenCache_Set (token : string) (expiry : Z) (c : ConfigTokenCache) : ConfigTokenCache :=
  {| manager := snd (UpdateAccountToken (email c) token expiry (manager c));
     email := email c |}.

#[global] Instance ConfigTokenCache_TokenCache : Auth.TokenCache ConfigTokenCache := {
  Auth.CacheGet := ConfigTokenCache_Get;
  Auth.CacheSet := ConfigTokenCache_Set
}.

End WithOutside.

(** The emails of the accounts are pairwise different and none is empty, and
    the selected email is empty or the email of an account. *)
Definition wellFormed (cfg : Config) : Prop :=
  let emails := map Email (Accounts cfg) in
  NoDup emails /\ ("" ∉ emails) /\ (Selected cfg = "" \/ Selected cfg ∈ emails).

End Config.

(** ** [core]: the download information of a media item *)
Module DownloadInfo.

(** [pb.GetDownloadUrlResponse], as far as [GetDownloadInfo] reads it; [None]
    is a nil message, whose getters give zero values. *)
Record Metadata := { Filename : string; FileSize : Z }.
Record DownloadUrls := { OriginalUrl : string; EditedUrl : string }.
Record Field3 := { DownloadUrl : string }.
Record Urls := {
  IsEdited : Z;
  GetDownloadUrls : option DownloadUrls;
  GetField3 : option Field3
}.
Record Field1 := { GetMetadata : option Metadata; GetUrls : option Urls }.
Definition Response := option Field1.

(** [DownloadInfo] *)
Record DownloadInfo := {
  InfoFilename : string;
  InfoFileSize : Z;
  InfoIsEdited : bool;
  InfoDownloadURL : string;
  InfoOriginalURL : string;
  InfoEditedURL : string
}.

(** [GetDownloadInfo]; [doProtoRequest] is the round trip for the request
    built around [mediaKey]. *)
Definition GetDownloadInfo (doProtoRequest : string -> result Response) (mediaKey : string)
    : result DownloadInfo :=
  match doProtoRequest mediaKey with
  | Err err => Err err
  | Ok response =>
      let metadata := match response with Some f1 => GetMetadata f1 | None => None end in
      let urls := match response with Some f1 => GetUrls f1 | None => None end in
      let filename := match metadata with Some md => Filename md | None => "" end in
      let fileSize := match metadata with Some md => FileSize md | None => 0 end in
      let isEdited := match urls with Some u => 0 <? IsEdited u | None => false end in
      let '(originalURL, editedURL) :=
        match urls with
        | Some u =>
            match GetDownloadUrls u with
            | Some d => (OriginalUrl d, EditedUrl d)
            | None =>
                match GetField3 u with
                | Some f3 => (DownloadUrl f3, "")
                | None => ("", "")
                end
            end
        | None => ("", "")
        end in
      (* Set DownloadURL to preferred URL (original if available, otherwise edited) *)
      let downloadURL :=
        if negb (String.eqb originalURL "") then originalURL else editedURL in
      if String.eqb downloadURL "" then Err "no download URL available"
      else
        Ok {| InfoFilename := filename; InfoFileSize := fileSize; InfoIsEdited := isEdited;
              InfoDownloadURL := downloadURL; InfoOriginalURL := originalURL;
              InfoEditedURL := editedURL |}
  end.

(** [DownloadMedia] of package [gpm] *)
Definition DownloadMedia (doProtoRequest : string -> result Response)
    (TrimSpace : string -> string) (url_Parse_Path : string -> option string)
    (http_Get : string -> result Download.GetResponse)
    (DownloadFromReader : list byte -> string -> string -> result string)
    (mediaKey outputPath : string) : result string :=
  match GetDownloadInfo doProtoRequest mediaKey with
  | Err err => Err err
  | Ok info =>
      Download.DownloadFile TrimSpace url_Parse_Path http_Get DownloadFromReader
        (InfoDownloadURL info) outputPath (InfoFilename info)
  end.

End DownloadInfo.

(** ** The files of a batch *)
Module Files.

(** Supported file formats for Google Photos *)
Definition GPSupportedPhotoExtensions : list string :=
  ["avif"; "bmp"; "gif"; "heic"; "ico"; "jpg"; "jpeg"; "png"; "tiff"; "webp";
   "cr2"; "cr3"; "nef"; "arw"; "orf"; "raf"; "rw2"; "pef"; "sr2"; "dng"].
Definition GPSupportedVideoExtensions : list string :=
  ["3gp"; "3g2"; "asf"; "avi"; "divx"; "m2t"; "m2ts"; "m4v"; "mkv"; "mmv";
   "mod"; "mov"; "mp4"; "mpg"; "mpeg"; "mts"; "tod"; "wmv"; "ts"].

(** [slices.Contains] on strings. *)
Definition Contains (l : list string) (s : string) : bool := existsb (String.eqb s) l.

(** [filepath.Ext] with the separator "/": the loop runs from the end of the
    path to the last separator; [seen] is the text behind the current byte. *)
Fixpoint Ext_loop (reversed : list ascii) (seen : string) : string :=
  match reversed with
  | [] => ""
  | c :: before =>
      if Ascii.eqb c "/" then ""
      else if Ascii.eqb c "." then String c seen
      else Ext_loop before (String c seen)
  end.

Definition Ext (path : string) : string :=
  Ext_loop (rev (String.list_ascii_of_string path)) "".

(** What is in the file system at a path: something that is not a directory,
    or a directory with what [os.ReadDir] gives for it (its entries by name,
    or an error). *)
Inductive Node :=
| File
| Directory (entries : result (list (string * Node))).

Section WithLibraries.

(** [strings.ToLower], [filepath.Join], and the error of [os.ReadDir] on a
    path that is not a directory. *)
Variable ToLower : string -> string.
Variable Join : string -> string -> string.
Variable ReadDir_ENOTDIR : string -> error.

(** [IsSupportedByGooglePhotos] *)
Definition IsSupportedByGooglePhotos (filename : string) : bool :=
  let ext := ToLower (Ext filename) in
  if String.eqb ext "" then false
  else
    let ext := GoStrings.string_drop 1 ext in
    Contains GPSupportedPhotoExtensions ext || Contains GPSupportedVideoExtensions ext.

(** The loop of [scanDir] over the entries of the directory [path]; [files]
    is the slice built so far and [scanSub] the recursive call. *)
Fixpoint scanDir_loop (scanSub : string -> Node -> result (list string))
    (path : string) (recursive : bool) (entries : list (string * Node))
    (files : list string) : result (list string) :=
  match entries with
  | [] => Ok files
  | (name, e) :: rest =>
      let full := Join path name in
      match e with
      | Directory _ =>
          if recursive then
            match scanSub full e with
            | Err err => Err err
            | Ok sub => scanDir_loop scanSub path recursive rest (files ++ sub)%list
            end
          else scanDir_loop scanSub path recursive rest files
      | File => scanDir_loop scanSub path recursive rest (files ++ [full])%list
      end
  end.

(** [scanDir] on [path], where the file system has [dir]; [os.ReadDir] fails
    on what is not a directory. *)
Fixpoint scanDir (path : string) (dir : Node) (recursive : bool) {struct dir}
    : result (list string) :=
  match dir with
  | File => Err (ReadDir_ENOTDIR path)
  | Directory (Err err) => Err err
  | Directory (Ok entries) =>
      scanDir_loop (fun full sub => scanDir full sub true) path recursive entries []
  end.

(** [GetGooglePhotosSupportedFiles]; [stat] is what [os.Stat] finds at [path]. *)
Definition GetGooglePhotosSupportedFiles (path : string) (stat : result Node)
    (recursive disableFilter : bool) : result (list string) :=
  match stat with
  | Err err => Err (wrap ("error accessing " +:+ path) err)
  | Ok info =>
      let scanned :=
        match info with
        | Directory _ => scanDir path info recursive
        | File => Ok [path]
        end in
      match scanned with
      | Err err => Err err
      | Ok files =>
          if disableFilter then Ok files
          else Ok (List.filter IsSupportedByGooglePhotos files)
      end
  end.

End WithLibraries.

End Files.

(** ** Concrete environments, used to run the model on examples *)
Module Fixtures.

(** A line feed, and the reply of the token endpoint in the spec's scenario. *)
Definition LF : string := String "010" EmptyString.
Definition authReplyBody : string :=
  "Auth=abc" +:+ LF +:+ "Expiry=9999999999" +:+ LF.

(** A credential parser that accepts everything and a token endpoint that
    answers 200 with [body]. *)
Definition parseQueryOk (_ : string) : result Auth.Values := Ok ∅.
Definition endpoint (body : string) (_ : Auth.Request) : result Auth.Response :=
  Ok {| Auth.StatusCode := 200; Auth.readGzipBody := Ok body |}.

Definition api : Core.Api := Core.NewApi_defaults "en" "Email=a%40b.c&Token=t" "" false.

Definition freshWorld : Auth.World Auth.MemoryTokenCache :=
  {| Auth.cache := Auth.emptyMemoryTokenCache; Auth.requests := []; Auth.refreshes := 0 |}.

Definition cachedWorld : Auth.World Auth.MemoryTokenCache :=
  {| Auth.cache := {| Auth.token := "tok"; Auth.expiry := 2000 |};
     Auth.requests := []; Auth.refreshes := 0 |}.

(** A file system with the one file "a.jpg", whose digest is twenty zero
    bytes, and a library that knows no digest at all. *)
Definition emptyLibrary : Resolver.Env :=
  {| Resolver.statOk := fun path => String.eqb path "a.jpg";
     Resolver.sha1Of := fun path =>
       if String.eqb path "a.jpg" then Ok (replicate 20 x00%byte)
       else Err "open: no such file or directory";
     Resolver.lookup := fun _ => Ok "" |}.

(** The same file system, and a library that has the file as "AF1QipMk". *)
Definition oneItemLibrary : Resolver.Env :=
  {| Resolver.statOk := Resolver.statOk emptyLibrary;
     Resolver.sha1Of := Resolver.sha1Of emptyLibrary;
     Resolver.lookup := fun h =>
       if (length h =? 20)%nat && forallb (Byte.eqb x00) h then Ok "AF1QipMk"
       else Ok "" |}.

(** A stand-in for [url.Parse]: the text from the first "/" that follows
    "://" up to the first "?" or "#" (enough for plain URLs without escapes). *)
Definition plainPath (urlStr : string) : option string :=
  let i := GoStrings.Index urlStr "://" in
  let rest := if i =? -1 then urlStr else GoStrings.string_drop (Z.to_nat (i + 3)) urlStr in
  let j := GoStrings.Index rest "/" in
  let path := if j =? -1 then "" else GoStrings.string_drop (Z.to_nat j) rest in
  match GoStrings.Split path "?" with
  | p :: _ => match GoStrings.Split p "#" with q :: _ => Some q | [] => Some p end
  | [] => Some path
  end.

(** A server that answers every GET with [header] as Content-Disposition, and
    a [DownloadFromReader] that reports the file name it was given. *)
Definition getWith (header : string) (_ : string) : result Download.GetResponse :=
  Ok {| Download.StatusCode := 200; Download.ContentDisposition := header;
        Download.Body := [] |}.
Definition reportName (_ : list byte) (_ filename : string) : result string := Ok filename.

(** An outside in which every file hashes to twenty zero bytes and is not
    yet in the library, and every upload succeeds with media key "AF1QipNew". *)
Definition uploadEnv : Uploader.Env :=
  {| Uploader.sha1Of := fun _ => Ok (replicate 20 x00%byte);
     Uploader.findMediaKeyByHash := fun _ => Ok "";
     Uploader.osStat := fun path =>
       Ok {| Uploader.Size := 3; Uploader.Name := path; Uploader.ModTime := 1700000000 |};
     Uploader.getUploadToken := fun _ _ => Ok "upload-token";
     Uploader.uploadFileBytes := fun _ _ =>
       Ok {| Core.CT_Field1 := 1; Core.CT_Field2 := [] |};
     Uploader.doCommit := fun _ => Ok (Some (Some "AF1QipNew"));
     Uploader.now := 1700000001 |}.

Definition uploadOptions (workers : Z) : Uploader.UploadOptions :=
  {| Uploader.Workers := workers; Uploader.Recursive := false;
     Uploader.ForceUpload := false; Uploader.DeleteFromHost := false;
     Uploader.DisableFilter := false; Uploader.Caption := "";
     Uploader.ShouldFavourite := false; Uploader.ShouldArchive := false;
     Uploader.Quality := ""; Uploader.UseQuota := false |}.

(** Options that force the upload, and options that delete the file. *)
Definition forcedOptions : Uploader.UploadOptions :=
  {| Uploader.Workers := 1; Uploader.Recursive := false;
     Uploader.ForceUpload := true; Uploader.DeleteFromHost := false;
     Uploader.DisableFilter := false; Uploader.Caption := "";
     Uploader.ShouldFavourite := false; Uploader.ShouldArchive := false;
     Uploader.Quality := ""; Uploader.UseQuota := false |}.
Definition deletingOptions : Uploader.UploadOptions :=
  {| Uploader.Workers := 1; Uploader.Recursive := false;
     Uploader.ForceUpload := false; Uploader.DeleteFromHost := true;
     Uploader.DisableFilter := false; Uploader.Caption := "holiday";
     Uploader.ShouldFavourite := true; Uploader.ShouldArchive := false;
     Uploader.Quality := ""; Uploader.UseQuota := false |}.

(** A configuration with the one account "a@b.c", which is selected; a
    serializer, a directory and a [MkdirAll] that succeed; a [WriteFile] that
    succeeds and one that fails; and a parser of auth strings that finds
    the credential of "x@y.z" in every text. *)
Definition oneAccount : Config.ConfigManager :=
  {| Config.config :=
       {| Config.Selected := "a@b.c";
          Config.Accounts :=
            [{| Config.Email := "a@b.c"; Config.Auth := "Email=a%40b.c&Token=t";
                Config.AuthToken := None; Config.Quality := "original";
                Config.UseQuota := false; Config.UploadThreads := 3;
                Config.Proxy := "" |}] |};
     Config.configPath := "/home/u/.config/gpcli/gpcli.toml";
     Config.written := None |}.
Definition marshalOk (_ : Config.Config) : result (list byte) := Ok [].
Definition dirOf (_ : string) : string := "/home/u/.config/gpcli".
Definition mkdirOk (_ : string) : option error := None.
Definition writeOk (_ : string) (_ : list byte) : option error := None.
Definition writeFails (_ : string) (_ : list byte) : option error :=
  Some "permission denied".
Definition credentials : Auth.Values :=
  list_to_map
    [("androidId", ["1"]); ("app", ["com.google.android.apps.photos"]);
     ("client_sig", ["s"]); ("Email", ["x@y.z"]); ("Token", ["t"]);
     ("lang", ["en"]); ("service", ["oauth2"])].
Definition parseCredentials (_ : string) : result Auth.Values := Ok credentials.

(** A download endpoint that reports the file "photo.jpg" with an edited
    URL only, and one whose reply has the pair of URLs empty next to a
    fallback URL. *)
Definition editedOnly (_ : string) : result DownloadInfo.Response :=
  Ok (Some {| DownloadInfo.GetMetadata :=
                Some {| DownloadInfo.Filename := "photo.jpg"; DownloadInfo.FileSize := 3 |};
              DownloadInfo.GetUrls :=
                Some {| DownloadInfo.IsEdited := 1;
                        DownloadInfo.GetDownloadUrls :=
                          Some {| DownloadInfo.OriginalUrl := "";
                                  DownloadInfo.EditedUrl := "https://host/edited" |};
                        DownloadInfo.GetField3 := None |} |}).
Definition noUrls (_ : string) : result DownloadInfo.Response :=
  Ok (Some {| DownloadInfo.GetMetadata := None;
              DownloadInfo.GetUrls :=
                Some {| DownloadInfo.IsEdited := 0;
                        DownloadInfo.GetDownloadUrls :=
                          Some {| DownloadInfo.OriginalUrl := ""; DownloadInfo.EditedUrl := "" |};
                        DownloadInfo.GetField3 :=
                          Some {| DownloadInfo.DownloadUrl := "https://host/fallback" |} |} |}).

(** [strings.ToLower] on ASCII text, a [filepath.Join] for clean relative
    paths, the error of [os.ReadDir] on a file, and a directory "album" with
    two files and the subdirectory "2024". *)
Fixpoint toLowerASCII (s : string) : string :=
  match s with
  | EmptyString => EmptyString
  | String c s' =>
      let n := Ascii.N_of_ascii c in
      String (if ((65 <=? n) && (n <=? 90))%N then Ascii.ascii_of_N (n + 32) else c)
        (toLowerASCII s')
  end.
Definition joinPath (dir name : string) : string := dir +:+ "/" +:+ name.
Definition notDirectory (path : string) : error :=
  "readdirent " +:+ path +:+ ": not a directory".
Definition album : Files.Node :=
  Files.Directory
    (Ok [("2024", Files.Directory (Ok [("b.MOV", Files.File)]));
         ("a.jpg", Files.File); ("notes.txt", Files.File)]).

End Fixtures.

(* ===================================================================== *)
(** * Properties *)
(* ===================================================================== *)

Example Split_example : GoStrings.Split "/a/b.jpg" "/" = [""; "a"; "b.jpg"].
Proof. reflexivity. Qed.

Example ParseInt_example :
  GoStrings.ParseInt "9999999999" = Some 9999999999
  /\ GoStrings.ParseInt "-12" = Some (-12)
  /\ GoStrings.ParseInt "12a" = None
  /\ GoStrings.ParseInt "9223372036854775808" = None
  /\ GoStrings.ParseInt "-9223372036854775808" = Some (- 2 ^ 63).
Proof. repeat split; reflexivity. Qed.

Example SHA1ToDedupeKey_zero :
  Dedup.SHA1ToDedupeKey (replicate 20 x00%byte) = "AAAAAAAAAAAAAAAAAAAAAAAAAAA"
  /\ Dedup.DedupeKeyToSHA1 "AAAAAAAAAAAAAAAAAAAAAAAAAAA" = Ok (replicate 20 x00%byte)
  /\ Dedup.DedupeKeyToSHA1 "AAAAAAAAAAAAAAAAAAAAAAAAAAB" = Ok (replicate 20 x00%byte)
  /\ Dedup.DedupeKeyToSHA1 "2jmj7l5rSw0yVb_vlWAYkK_YBwk"
     = Ok [xda; x39; xa3; xee; x5e; x6b; x4b; x0d; x32; x55; xbf; xef; x95;
           x60; x18; x90; xaf; xd8; x07; x09]%byte
  /\ Base64.EncodeToString Base64.encodeStd (Some "="%char) [x66; x6f]%byte = "Zm8=".
Proof. repeat split; vm_compute; reflexivity. Qed.

(** ** Bit-level helpers *)

Lemma land_shiftl_low (hi lo n : Z) :
  0 <= n -> 0 <= lo < 2 ^ n -> Z.land (Z.shiftl hi n) lo = 0.
Proof.
  intros Hn Hlo. apply Z.bits_inj'; intros m Hm.
  rewrite Z.land_spec, Z.bits_0.
  destruct (Z.lt_ge_cases m n) as [Hlt | Hge].
  - rewrite Z.shiftl_spec_low by lia. reflexivity.
  - rewrite <- (Z.mod_small lo (2 ^ n)) by lia.
    rewrite Z.mod_pow2_bits_high by lia. apply andb_false_r.
Qed.

Lemma lor_shiftl_add (hi lo n : Z) :
  0 <= n -> 0 <= lo < 2 ^ n -> Z.lor (Z.shiftl hi n) lo = hi * 2 ^ n + lo.
Proof.
  intros Hn Hlo.
  rewrite <- Z.lxor_lor by (apply land_shiftl_low; lia).
  rewrite <- Z.add_nocarry_lxor by (apply land_shiftl_low; lia).
  rewrite Z.shiftl_mul_pow2 by lia. reflexivity.
Qed.

Lemma byteZ_range (b : byte) : 0 <= byteZ b < 256.
Proof. unfold byteZ. pose proof (Byte.to_N_bounded b). lia. Qed.

Lemma byte_of_Z_byteZ (b : byte) : Base64.byte_of_Z (byteZ b) = b.
Proof.
  unfold Base64.byte_of_Z. pose proof (byteZ_range b).
  change 0xFF with (Z.ones 8). rewrite Z.land_ones by lia.
  rewrite Z.mod_small by (change (2 ^ 8) with 256; lia).
  unfold byteZ. rewrite N2Z.id, Byte.of_to_N. reflexivity.
Qed.

Lemma byte_of_Z_mod (v : Z) (b : byte) :
  v mod 256 = byteZ b -> Base64.byte_of_Z v = b.
Proof.
  intros H. unfold Base64.byte_of_Z.
  change 0xFF with (Z.ones 8). rewrite Z.land_ones by lia.
  change (2 ^ 8) with 256. rewrite H.
  unfold byteZ. rewrite N2Z.id, Byte.of_to_N. reflexivity.
Qed.

Lemma land_0x3F (v : Z) : Z.land v 0x3F = v mod 64.
Proof. change 0x3F with (Z.ones 6). rewrite Z.land_ones by lia. reflexivity. Qed.


Lemma lor_mul_add (k lo n : Z) :
  0 <= n -> 0 <= lo < 2 ^ n -> Z.lor (k * 2 ^ n) lo = k * 2 ^ n + lo.
Proof.
  intros Hn Hlo. rewrite <- (Z.shiftl_mul_pow2 k n) by lia.
  rewrite lor_shiftl_add by lia. rewrite Z.shiftl_mul_pow2 by lia. reflexivity.
Qed.

Lemma pack3 (a b c : Z) :
  0 <= b < 256 -> 0 <= c < 256 ->
  Z.lor (Z.lor (Z.shiftl a 16) (Z.shiftl b 8)) c = a * 65536 + b * 256 + c.
Proof.
  intros Hb Hc. rewrite !Z.shiftl_mul_pow2 by lia.
  rewrite (lor_mul_add a (b * 2 ^ 8) 16) by lia.
  replace (a * 2 ^ 16 + b * 2 ^ 8) with ((a * 2 ^ 8 + b) * 2 ^ 8) by lia.
  rewrite lor_mul_add by lia. lia.
Qed.

Lemma pack4 (s0 s1 s2 s3 : Z) :
  0 <= s1 < 64 -> 0 <= s2 < 64 -> 0 <= s3 < 64 ->
  Z.lor (Z.lor (Z.lor (Z.shiftl s0 18) (Z.shiftl s1 12)) (Z.shiftl s2 6)) s3
  = s0 * 262144 + s1 * 4096 + s2 * 64 + s3.
Proof.
  intros H1 H2 H3. rewrite !Z.shiftl_mul_pow2 by lia.
  rewrite (lor_mul_add s0 (s1 * 2 ^ 12) 18) by lia.
  replace (s0 * 2 ^ 18 + s1 * 2 ^ 12) with ((s0 * 2 ^ 6 + s1) * 2 ^ 12) by lia.
  rewrite (lor_mul_add _ (s2 * 2 ^ 6) 12) by lia.
  replace ((s0 * 2 ^ 6 + s1) * 2 ^ 12 + s2 * 2 ^ 6)
    with (((s0 * 2 ^ 6 + s1) * 2 ^ 6 + s2) * 2 ^ 6) by lia.
  rewrite lor_mul_add by lia. lia.
Qed.

Lemma sextet_range (v : Z) : 0 <= Z.land v 0x3F < 64.
Proof. rewrite land_0x3F. apply Z.mod_pos_bound. lia. Qed.

Lemma decode_encode_3 (a b c : byte) (rest : list byte) (out : list byte) :
  Base64.decode_sextets (Base64.encode_sextets rest) = Some out ->
  Base64.decode_sextets (Base64.encode_sextets (a :: b :: c :: rest))
  = Some (a :: b :: c :: out).
Proof.
  intros Hrest.
  pose proof (byteZ_range a) as Ha. pose proof (byteZ_range b) as Hb.
  pose proof (byteZ_range c) as Hc.
  cbn [Base64.encode_sextets Base64.decode_sextets]. rewrite Hrest.
  rewrite pack4 by apply sextet_range.
  rewrite !land_0x3F, !Z.shiftr_div_pow2 by lia.
  rewrite pack3 by lia.
  change (2 ^ 18) with 262144. change (2 ^ 12) with 4096. change (2 ^ 6) with 64.
  change (2 ^ 16) with 65536. change (2 ^ 8) with 256.
  set (n := byteZ a * 65536 + byteZ b * 256 + byteZ c).
  assert (Hn : (n / 262144) mod 64 * 262144 + (n / 4096) mod 64 * 4096
               + (n / 64) mod 64 * 64 + n mod 64 = n).
  { assert (0 <= n < 16777216) by (unfold n; lia).
    rewrite (Z.mod_small (n / 262144)) by (split; [apply Z.div_pos; lia | apply Z.div_lt_upper_bound; lia]).
    Z.div_mod_to_equations. lia. }
  rewrite Hn.
  f_equal. f_equal; [| f_equal; [| f_equal]]; apply byte_of_Z_mod; unfold n.
  all: Z.div_mod_to_equations; lia.
Qed.

Lemma decode_encode_2 (a b : byte) :
  Base64.decode_sextets (Base64.encode_sextets [a; b]) = Some [a; b].
Proof.
  pose proof (byteZ_range a) as Ha. pose proof (byteZ_range b) as Hb.
  cbn [Base64.encode_sextets Base64.decode_sextets].
  rewrite <- (Z.lor_0_r (Z.lor (Z.lor _ _) (Z.shiftl (Z.land _ _) 6))).
  rewrite pack4 by (try apply sextet_range; lia).
  rewrite <- (Z.lor_0_r (Z.lor (Z.shiftl (byteZ a) 16) _)).
  rewrite !land_0x3F, !Z.shiftr_div_pow2 by lia.
  rewrite pack3 by lia.
  change (2 ^ 18) with 262144. change (2 ^ 12) with 4096. change (2 ^ 6) with 64.
  change (2 ^ 16) with 65536. change (2 ^ 8) with 256.
  f_equal. f_equal; [| f_equal]; apply byte_of_Z_mod.
  all: Z.div_mod_to_equations; lia.
Qed.

Lemma decode_encode_1 (a : byte) :
  Base64.decode_sextets (Base64.encode_sextets [a]) = Some [a].
Proof.
  pose proof (byteZ_range a) as Ha.
  cbn [Base64.encode_sextets Base64.decode_sextets].
  rewrite <- (Z.lor_0_r (Z.lor _ _)), <- (Z.lor_0_r (Z.lor _ _)).
  change 0 with (Z.shiftl 0 6) at 1.
  rewrite pack4 by (try apply sextet_range; lia).
  rewrite !land_0x3F, !Z.shiftr_div_pow2, Z.shiftl_mul_pow2 by lia.
  change (2 ^ 18) with 262144. change (2 ^ 12) with 4096.
  change (2 ^ 16) with 65536.
  f_equal. f_equal. apply byte_of_Z_mod.
  Z.div_mod_to_equations; lia.
Qed.

(** Induction in steps of three bytes, the way the encoder consumes its input. *)
Lemma list_ind3 {A} (P : list A -> Prop) :
  P [] -> (forall a, P [a]) -> (forall a b, P [a; b]) ->
  (forall a b c rest, P rest -> P (a :: b :: c :: rest)) ->
  forall l, P l.
Proof.
  intros H0 H1 H2 H3 l.
  enough (P l /\ (forall a, P (a :: l)) /\ (forall a b, P (a :: b :: l))) by tauto.
  induction l as [| x l (IH0 & IH1 & IH2)]; [tauto |].
  repeat split; auto.
Qed.

Lemma decode_encode_sextets (src : list byte) :
  Base64.decode_sextets (Base64.encode_sextets src) = Some src.
Proof.
  induction src as [| a | a b | a b c rest IH] using list_ind3.
  - reflexivity.
  - apply decode_encode_1.
  - apply decode_encode_2.
  - apply decode_encode_3, IH.
Qed.

Lemma encode_sextets_range (src : list byte) :
  Forall (fun i => 0 <= i < 64) (Base64.encode_sextets src).
Proof.
  induction src as [| a | a b | a b c rest IH] using list_ind3;
    cbn [Base64.encode_sextets]; repeat constructor; try apply sextet_range; auto.
Qed.

Lemma encode_sextets_length (src : list byte) :
  length src = 20%nat -> length (Base64.encode_sextets src) = 27%nat.
Proof.
  intros H. do 21 (destruct src as [| ? src]; try discriminate H). reflexivity.
Qed.

Lemma sextet_cases (i : Z) :
  0 <= i < 64 -> exists n : nat, (n < 64)%nat /\ i = Z.of_nat n.
Proof. intros H. exists (Z.to_nat i). lia. Qed.

Lemma decodeMap_enc_URL (i : Z) :
  0 <= i < 64 ->
  Base64.decodeMap Base64.encodeURL (Base64.enc Base64.encodeURL i) = Some i.
Proof.
  intros H. destruct (sextet_cases i H) as (n & Hn & ->).
  do 64 (destruct n as [| n]; [reflexivity |]). lia.
Qed.

Lemma dedup_char_enc_URL (i : Z) :
  0 <= i < 64 -> Dedup.dedup_char (Base64.enc Base64.encodeURL i) = true.
Proof.
  intros H. destruct (sextet_cases i H) as (n & Hn & ->).
  do 64 (destruct n as [| n]; [reflexivity |]). lia.
Qed.

Lemma sextets_of_enc_URL (sx : list Z) :
  Forall (fun i => 0 <= i < 64) sx ->
  Base64.sextets_of Base64.encodeURL
    (String.string_of_list_ascii (map (Base64.enc Base64.encodeURL) sx)) = Some sx.
Proof.
  induction 1 as [| i sx Hi _ IH]; [reflexivity |].
  cbn [map String.string_of_list_ascii Base64.sextets_of].
  rewrite decodeMap_enc_URL, IH by assumption. reflexivity.
Qed.

Lemma string_app_empty_r (s : string) : s +:+ "" = s.
Proof.
  induction s as [| a s IH]; [reflexivity |].
  change (String a s +:+ "") with (String a (s +:+ "")). rewrite IH. reflexivity.
Qed.

Lemma SHA1ToDedupeKey_unfold (h : list byte) :
  Dedup.SHA1ToDedupeKey h
  = String.string_of_list_ascii (map (Base64.enc Base64.encodeURL) (Base64.encode_sextets h)).
Proof. unfold Dedup.SHA1ToDedupeKey, Base64.EncodeToString. cbn [Base64.padding]. apply string_app_empty_r. Qed.

Lemma DecodeString_Encode_URL (src : list byte) :
  Base64.DecodeString Base64.encodeURL (Base64.EncodeToString Base64.encodeURL None src)
  = Some src.
Proof.
  fold (Dedup.SHA1ToDedupeKey src). rewrite SHA1ToDedupeKey_unfold.
  unfold Base64.DecodeString.
  rewrite sextets_of_enc_URL by apply encode_sextets_range.
  apply decode_encode_sextets.
Qed.

Lemma string_length_of_list_ascii (l : list ascii) :
  String.length (String.string_of_list_ascii l) = length l.
Proof. induction l; cbn; congruence. Qed.

(** C6.  For every 20-byte digest [h], decoding the dedup key of [h] gives [h]
    back, the key has 27 characters and matches [^[A-Za-z0-9_-]{27}$]; and
    [DedupeKeyToSHA1] fails on every input whose decoded length is not 20
    (and on every input that does not decode at all). *)
Theorem dedup_key_roundtrip :
  (forall h : list byte, length h = 20%nat ->
     Dedup.DedupeKeyToSHA1 (Dedup.SHA1ToDedupeKey h) = Ok h
     /\ String.length (Dedup.SHA1ToDedupeKey h) = 27%nat
     /\ Dedup.DedupKeyPattern_MatchString (Dedup.SHA1ToDedupeKey h) = true)
  /\ (forall (s : string) (decoded : list byte),
        Base64.DecodeString Base64.encodeURL s = Some decoded ->
        length decoded <> 20%nat ->
        is_Err (Dedup.DedupeKeyToSHA1 s) = true)
  /\ (forall s : string,
        Base64.DecodeString Base64.encodeURL s = None ->
        is_Err (Dedup.DedupeKeyToSHA1 s) = true).
Proof.
  split; [| split].
  - intros h Hlen.
    assert (Hl : String.length (Dedup.SHA1ToDedupeKey h) = 27%nat).
    { rewrite SHA1ToDedupeKey_unfold, string_length_of_list_ascii, length_map.
      apply encode_sextets_length, Hlen. }
    split; [| split; [exact Hl |]].
    + unfold Dedup.DedupeKeyToSHA1, Dedup.SHA1ToDedupeKey.
      rewrite DecodeString_Encode_URL, Hlen. reflexivity.
    + unfold Dedup.DedupKeyPattern_MatchString. rewrite Hl. cbn [Nat.eqb andb].
      rewrite SHA1ToDedupeKey_unfold, String.list_ascii_of_string_of_list_ascii.
      rewrite forallb_forall. intros c Hc. apply in_map_iff in Hc as (i & <- & Hi).
      apply dedup_char_enc_URL.
      pose proof (encode_sextets_range h) as Hr. rewrite Forall_forall in Hr.
      apply Hr. apply list_elem_of_In. exact Hi.
  - intros s decoded Hdec Hne. unfold Dedup.DedupeKeyToSHA1. rewrite Hdec.
    destruct (Nat.eqb_spec (length decoded) 20); [contradiction | reflexivity].
  - intros s Hdec. unfold Dedup.DedupeKeyToSHA1. rewrite Hdec. reflexivity.
Qed.

Lemma dedup_key_roundtrip_witness :
  (Dedup.DedupeKeyToSHA1 (Dedup.SHA1ToDedupeKey (replicate 20 xff%byte))
   = Ok (replicate 20 xff%byte)
   /\ String.length (Dedup.SHA1ToDedupeKey (replicate 20 xff%byte)) = 27%nat
   /\ Dedup.DedupKeyPattern_MatchString (Dedup.SHA1ToDedupeKey (replicate 20 xff%byte)) = true)
  /\ is_Err (Dedup.DedupeKeyToSHA1 "AAAA") = true
  /\ is_Err (Dedup.DedupeKeyToSHA1 "A") = true.
Proof.
  split; [| split].
  - apply (proj1 dedup_key_roundtrip (replicate 20 xff%byte)). reflexivity.
  - apply (proj1 (proj2 dedup_key_roundtrip) "AAAA" [x00; x00; x00]%byte).
    + vm_compute. reflexivity.
    + cbn. lia.
  - apply (proj2 (proj2 dedup_key_roundtrip) "A"). vm_compute. reflexivity.
Defined.

(** ** The upload commit *)

Section CommitUploadFacts.
Variables (a : Core.Api) (now : Z) (commitToken : Core.CommitToken)
  (fileName : string) (sha1Hash : list byte) (uploadTimestamp : Z).

(** C4.  In the request [CommitUpload] sends, quality "storage-saver" gives
    quality code 1 and model "Pixel 2"; any other quality gives code 3 and
    the default model of the client; with the quota flag in effect the model
    is "Pixel 8", whatever the quality. *)
Theorem CommitUpload_quality_model (qualityStr : string) (useQuota : bool) :
  let req := Core.CommitUpload_request a now commitToken fileName sha1Hash
               uploadTimestamp qualityStr useQuota in
  (Core.effectiveQuality a qualityStr = "storage-saver" ->
     Core.F1_Quality req = 1
     /\ (Core.effectiveUseQuota a useQuota = false -> Core.F2_Model req = "Pixel 2"))
  /\ (Core.effectiveQuality a qualityStr <> "storage-saver" ->
     Core.F1_Quality req = 3
     /\ (Core.effectiveUseQuota a useQuota = false -> Core.F2_Model req = Core.Model a))
  /\ (Core.effectiveUseQuota a useQuota = true -> Core.F2_Model req = "Pixel 8").
Proof.
  unfold Core.effectiveQuality, Core.effectiveUseQuota, Core.CommitUpload_request.
  cbv zeta.
  destruct (String.eqb_spec (if String.eqb qualityStr "" then Core.Quality a else qualityStr)
              "storage-saver") as [Heq | Hne];
    destruct (useQuota || Core.UseQuota a); cbn; repeat split; intros; congruence.
Qed.

End CommitUploadFacts.

Lemma CommitUpload_quality_model_witness :
  let a := Core.NewApi_defaults "en" "auth" "" false in
  let ct := {| Core.CT_Field1 := 1; Core.CT_Field2 := [] |} in
  (Core.F1_Quality (Core.CommitUpload_request a 0 ct "a.jpg" [] 5 "storage-saver" false) = 1
   /\ Core.F2_Model (Core.CommitUpload_request a 0 ct "a.jpg" [] 5 "storage-saver" false) = "Pixel 2")
  /\ (Core.F1_Quality (Core.CommitUpload_request a 0 ct "a.jpg" [] 5 "original" false) = 3
      /\ Core.F2_Model (Core.CommitUpload_request a 0 ct "a.jpg" [] 5 "original" false) = "Pixel XL")
  /\ Core.F2_Model (Core.CommitUpload_request a 0 ct "a.jpg" [] 5 "storage-saver" true) = "Pixel 8".
Proof.
  intros a ct. split; [| split].
  - destruct (CommitUpload_quality_model a 0 ct "a.jpg" [] 5 "storage-saver" false)
      as (H & _ & _).
    destruct (H eq_refl) as (Hq & Hm). split; [exact Hq | exact (Hm eq_refl)].
  - destruct (CommitUpload_quality_model a 0 ct "a.jpg" [] 5 "original" false)
      as (_ & H & _).
    assert (Hne : Core.effectiveQuality a "original" <> "storage-saver") by (vm_compute; discriminate).
    destruct (H Hne) as (Hq & Hm). split; [exact Hq | exact (Hm eq_refl)].
  - destruct (CommitUpload_quality_model a 0 ct "a.jpg" [] 5 "storage-saver" true)
      as (_ & _ & H).
    exact (H eq_refl).
Defined.

(** ** The authentication manager *)

Section AuthFacts.
Variable TrimSpace : string -> string.
Variable ParseQuery : string -> result Auth.Values.
Variable Do : Auth.Request -> result Auth.Response.
Context {C : Type} `{Auth.TokenCache C}.

#[local] Abbreviation refreshAccessToken := (Auth.refreshAccessToken TrimSpace ParseQuery Do).
#[local] Abbreviation GetAuthToken := (Auth.GetAuthToken TrimSpace ParseQuery Do).
#[local] Abbreviation parsedAuthResponse := (Auth.parsedAuthResponse TrimSpace).

(** [refreshAccessToken] leaves the cache alone, counts itself once and sends
    at most one request. *)
Lemma refreshAccessToken_world (a : Core.Api) (w : Auth.World C) :
  let w' := snd (refreshAccessToken a w) in
  Auth.cache w' = Auth.cache w
  /\ Auth.refreshes w' = S (Auth.refreshes w)
  /\ (Auth.requests w' = Auth.requests w
      \/ exists req, Auth.requests w' = req :: Auth.requests w).
Proof.
  unfold Auth.refreshAccessToken.
  repeat (match goal with
          | |- context [match ?x with _ => _ end] => destruct x
          end; cbn [snd Auth.cache Auth.refreshes Auth.requests]);
    repeat split; eauto.
Qed.

(** C3.  [GetAuthToken] returns the cached token with no call of
    [refreshAccessToken] and no request sent exactly when the cached token is
    not empty and its expiry is strictly after [now]; the client state is then
    unchanged.  Otherwise it runs [refreshAccessToken] once (which sends at
    most one request); when that yields [(auth, exp)] the pair is written to
    the token cache with [Set] and [auth] is returned, and when it fails the
    error is returned and the cache is left as it was. *)
Theorem GetAuthToken_cached_or_exchanged (a : Core.Api) (now : Z) (w : Auth.World C) :
  let token := fst (Auth.CacheGet (Auth.cache w)) in
  let expiry := snd (Auth.CacheGet (Auth.cache w)) in
  let r := fst (GetAuthToken a now w) in
  let w' := snd (GetAuthToken a now w) in
  ((r = Ok token /\ Auth.refreshes w' = Auth.refreshes w
    /\ Auth.requests w' = Auth.requests w)
   <-> (token <> "" /\ expiry > now))
  /\ (token <> "" /\ expiry > now -> w' = w)
  /\ (~ (token <> "" /\ expiry > now) ->
      Auth.refreshes w' = S (Auth.refreshes w)
      /\ (Auth.requests w' = Auth.requests w
          \/ exists req, Auth.requests w' = req :: Auth.requests w)
      /\ match fst (refreshAccessToken a w) with
         | Ok (auth, exp) =>
             r = Ok auth /\ Auth.cache w' = Auth.CacheSet auth exp (Auth.cache w)
         | Err err =>
             r = Err (wrap "failed to refresh auth token" err)
             /\ Auth.cache w' = Auth.cache w
         end).
Proof.
  cbv zeta. unfold Auth.GetAuthToken.
  destruct (Auth.CacheGet (Auth.cache w)) as [token expiry]. cbn [fst snd].
  pose proof (refreshAccessToken_world a w) as (Hc & Hr & Hq). cbv zeta in *.
  destruct (String.eqb_spec token "") as [-> | Hne]; cbn [negb andb];
    [| destruct (Z.ltb_spec now expiry) as [Hlt | Hge]].
  2: { cbn [fst snd]. intuition (try lia; try congruence). }
  all: destruct (refreshAccessToken a w) as [[[auth exp] | err] w1];
    cbn [fst snd Auth.cache Auth.requests Auth.refreshes] in *.
  all: rewrite ?Hc; intuition (try lia; try congruence).
Qed.

Lemma checkResponse_2xx (resp : Auth.Response) :
  200 <= Auth.StatusCode resp < 300 -> Auth.checkResponse resp = None.
Proof.
  intros Hs. unfold Auth.checkResponse.
  destruct (Z.leb_spec 200 (Auth.StatusCode resp)); [| lia].
  destruct (Z.ltb_spec (Auth.StatusCode resp) 300); [reflexivity | lia].
Qed.

Lemma map_get_Some (m : gmap string string) (k v : string) :
  m !! k = Some v -> Auth.map_get m k = v.
Proof. unfold Auth.map_get. intros ->. reflexivity. Qed.

Lemma map_get_None (m : gmap string string) (k : string) :
  m !! k = None -> Auth.map_get m k = "".
Proof. unfold Auth.map_get. intros ->. reflexivity. Qed.

Lemma map_get_nonempty (m : gmap string string) (k : string) :
  Auth.map_get m k <> "" -> m !! k = Some (Auth.map_get m k).
Proof. unfold Auth.map_get. destruct (m !! k); cbn; congruence. Qed.

(** C8.  Once the token endpoint has answered with a 2xx status and a
    readable body, [refreshAccessToken] fails when the [key=value] map read
    from the body lacks [Auth] or lacks [Expiry], and fails when the value of
    [Expiry] is not a decimal 64-bit integer; whenever it succeeds it returns
    the value of [Auth] and the parsed value of [Expiry], and it does succeed
    when [Auth] is present and not empty and [Expiry] parses. *)
Theorem refreshAccessToken_reply (a : Core.Api) (w : Auth.World C)
    (vals : Auth.Values) (resp : Auth.Response) (body : string) :
  ParseQuery (Core.AuthData a) = Ok vals ->
  Do (Auth.authRequest vals) = Ok resp ->
  200 <= Auth.StatusCode resp < 300 ->
  Auth.readGzipBody resp = Ok body ->
  let m := parsedAuthResponse body in
  let r := fst (refreshAccessToken a w) in
  (m !! "Auth" = None \/ m !! "Expiry" = None ->
     r = Err "auth response missing Auth or Expiry token")
  /\ (GoStrings.ParseInt (Auth.map_get m "Expiry") = None -> is_Err r = true)
  /\ (forall auth exp, r = Ok (auth, exp) ->
        m !! "Auth" = Some auth
        /\ exists e, m !! "Expiry" = Some e /\ GoStrings.ParseInt e = Some exp)
  /\ (forall auth e exp,
        m !! "Auth" = Some auth -> auth <> "" ->
        m !! "Expiry" = Some e -> GoStrings.ParseInt e = Some exp ->
        r = Ok (auth, exp)).
Proof.
  intros HP HD Hs HB. cbv zeta. unfold Auth.refreshAccessToken.
  rewrite HP, HD, (checkResponse_2xx resp Hs), HB.
  set (m := parsedAuthResponse body).
  destruct (String.eqb_spec (Auth.map_get m "Auth") "") as [HA | HA];
    [| destruct (String.eqb_spec (Auth.map_get m "Expiry") "") as [HE | HE]];
    cbn [orb fst].
  - repeat split; try discriminate.
    intros auth e exp H1 H2. rewrite (map_get_Some _ _ _ H1) in HA. contradiction.
  - repeat split; try discriminate.
    intros auth e exp H1 H2 H3 H4. rewrite (map_get_Some _ _ _ H3) in HE.
    subst e. discriminate H4.
  - apply map_get_nonempty in HA, HE.
    destruct (GoStrings.ParseInt (Auth.map_get m "Expiry")) as [exp |] eqn:HPI; cbn [fst].
    + repeat split; try discriminate.
      * intros [Hn | Hn]; congruence.
      * congruence.
      * match goal with Hok : Ok _ = Ok _ |- _ => injection Hok as <- <- end. eauto.
      * intros auth e exp' H1 H2 H3 H4. congruence.
    + repeat split; try discriminate.
      * intros [Hn | Hn]; congruence.
      * intros auth e exp' H1 H2 H3 H4. congruence.
Qed.

End AuthFacts.

Lemma GetAuthToken_cached_or_exchanged_witness :
  let get := Auth.GetAuthToken GoStrings.TrimSpaceASCII Fixtures.parseQueryOk
               (Fixtures.endpoint Fixtures.authReplyBody) Fixtures.api in
  (get 1000 Fixtures.cachedWorld = (Ok "tok", Fixtures.cachedWorld))
  /\ (fst (get 1000 Fixtures.freshWorld) = Ok "abc"
      /\ Auth.cache (snd (get 1000 Fixtures.freshWorld))
         = {| Auth.token := "abc"; Auth.expiry := 9999999999 |}
      /\ Auth.refreshes (snd (get 1000 Fixtures.freshWorld)) = 1%nat).
Proof.
  intros get. split.
  - pose proof (GetAuthToken_cached_or_exchanged GoStrings.TrimSpaceASCII
                  Fixtures.parseQueryOk (Fixtures.endpoint Fixtures.authReplyBody)
                  Fixtures.api 1000 Fixtures.cachedWorld) as (Hiff & Hsame & _).
    assert (Hvalid : fst (Auth.CacheGet (Auth.cache Fixtures.cachedWorld)) <> ""
                     /\ snd (Auth.CacheGet (Auth.cache Fixtures.cachedWorld)) > 1000)
      by (split; [discriminate | reflexivity]).
    apply proj2 in Hiff. destruct (Hiff Hvalid) as (Hr & _). specialize (Hsame Hvalid).
    unfold get. rewrite (surjective_pairing (Auth.GetAuthToken _ _ _ _ _ _)).
    rewrite Hr, Hsame. reflexivity.
  - pose proof (GetAuthToken_cached_or_exchanged GoStrings.TrimSpaceASCII
                  Fixtures.parseQueryOk (Fixtures.endpoint Fixtures.authReplyBody)
                  Fixtures.api 1000 Fixtures.freshWorld) as (_ & _ & Hex).
    assert (Hinvalid : ~ (fst (Auth.CacheGet (Auth.cache Fixtures.freshWorld)) <> ""
                          /\ snd (Auth.CacheGet (Auth.cache Fixtures.freshWorld)) > 1000))
      by (intros (Hne & _); apply Hne; reflexivity).
    destruct (Hex Hinvalid) as (Hn & _ & Hm).
    change (fst (Auth.refreshAccessToken GoStrings.TrimSpaceASCII Fixtures.parseQueryOk
                   (Fixtures.endpoint Fixtures.authReplyBody) Fixtures.api Fixtures.freshWorld))
      with (@Ok (string * Z) ("abc", 9999999999)) in Hm.
    destruct Hm as (Hr & Hc). unfold get. repeat split; assumption.
Defined.

Lemma refreshAccessToken_reply_witness :
  fst (Auth.refreshAccessToken GoStrings.TrimSpaceASCII Fixtures.parseQueryOk
         (Fixtures.endpoint Fixtures.authReplyBody) Fixtures.api Fixtures.freshWorld)
  = Ok ("abc", 9999999999)
  /\ fst (Auth.refreshAccessToken GoStrings.TrimSpaceASCII Fixtures.parseQueryOk
            (Fixtures.endpoint "Auth=abc") Fixtures.api Fixtures.freshWorld)
     = Err "auth response missing Auth or Expiry token"
  /\ is_Err (fst (Auth.refreshAccessToken GoStrings.TrimSpaceASCII Fixtures.parseQueryOk
                    (Fixtures.endpoint ("Auth=abc" +:+ Fixtures.LF +:+ "Expiry=12x"))
                    Fixtures.api Fixtures.freshWorld)) = true.
Proof.
  split; [| split].
  - apply (proj2 (proj2 (proj2
      (refreshAccessToken_reply GoStrings.TrimSpaceASCII Fixtures.parseQueryOk
         (Fixtures.endpoint Fixtures.authReplyBody) Fixtures.api Fixtures.freshWorld
         ∅ {| Auth.StatusCode := 200; Auth.readGzipBody := Ok Fixtures.authReplyBody |}
         Fixtures.authReplyBody eq_refl eq_refl ltac:(cbn; lia) eq_refl)))
      "abc" "9999999999" 9999999999); first [reflexivity | discriminate].
  - apply (proj1
      (refreshAccessToken_reply GoStrings.TrimSpaceASCII Fixtures.parseQueryOk
         (Fixtures.endpoint "Auth=abc") Fixtures.api Fixtures.freshWorld
         ∅ {| Auth.StatusCode := 200; Auth.readGzipBody := Ok "Auth=abc" |}
         "Auth=abc" eq_refl eq_refl ltac:(cbn; lia) eq_refl)).
    right. reflexivity.
  - apply (proj1 (proj2
      (refreshAccessToken_reply GoStrings.TrimSpaceASCII Fixtures.parseQueryOk
         (Fixtures.endpoint ("Auth=abc" +:+ Fixtures.LF +:+ "Expiry=12x"))
         Fixtures.api Fixtures.freshWorld
         ∅ {| Auth.StatusCode := 200;
              Auth.readGzipBody := Ok ("Auth=abc" +:+ Fixtures.LF +:+ "Expiry=12x") |}
         ("Auth=abc" +:+ Fixtures.LF +:+ "Expiry=12x") eq_refl eq_refl ltac:(cbn; lia) eq_refl))).
    reflexivity.
Defined.

(** ** The identifier resolver *)

Section ResolverFacts.
Variable env : Resolver.Env.
Variable SHA1ToDedupeKey : list byte -> string.
Variable DedupeKeyToSHA1 : string -> result (list byte).

Lemma lookup_step (notFound : error) (hash : list byte) (log : list Resolver.Effect) :
  Resolver.bind
    (Resolver.wrapErr "failed to find media in library"
       (Resolver.FindMediaKeyByHash env hash))
    (fun mediaKey =>
       if String.eqb mediaKey "" then Resolver.fail notFound else Resolver.ret mediaKey) log
  = (Resolver.lookupOutcome notFound (Resolver.lookup env hash),
     (log ++ [Resolver.ELookup hash])%list).
Proof.
  unfold Resolver.bind, Resolver.wrapErr, Resolver.FindMediaKeyByHash, Resolver.perform,
    Resolver.lookupOutcome.
  destruct (Resolver.lookup env hash) as [mediaKey | err]; [| reflexivity].
  destruct (String.eqb mediaKey ""); reflexivity.
Qed.

(** C7, as the code has it.  For every input that is not empty:
    if it matches the dedup-key pattern and decodes to [hash],
    [ResolveMediaKey] looks [hash] up (and does nothing else) and an empty
    reply gives "media not found in Google Photos library"; otherwise, if
    [os.Stat] succeeds on it, the file is hashed and the digest is looked up,
    an empty reply giving "file not found in Google Photos library" (a failed
    hashing is reported and nothing is looked up); otherwise the input is
    returned unchanged, after the one [os.Stat]. *)
Theorem ResolveMediaKey_cases (input : string) :
  input <> "" ->
  (Dedup.DedupKeyPattern_MatchString input = true ->
   forall hash, DedupeKeyToSHA1 input = Ok hash ->
     Resolver.run (Resolver.ResolveMediaKey env DedupeKeyToSHA1 input)
     = (Resolver.lookupOutcome "media not found in Google Photos library" (Resolver.lookup env hash),
        [Resolver.ELookup hash]))
  /\ (Dedup.DedupKeyPattern_MatchString input = false ->
      Resolver.statOk env input = true ->
      Resolver.run (Resolver.ResolveMediaKey env DedupeKeyToSHA1 input)
      = match Resolver.sha1Of env input with
        | Err err =>
            (Err (wrap "failed to calculate SHA1" err),
             [Resolver.EStat input; Resolver.EHash input])
        | Ok hash =>
            (Resolver.lookupOutcome "file not found in Google Photos library" (Resolver.lookup env hash),
             [Resolver.EStat input; Resolver.EHash input; Resolver.ELookup hash])
        end)
  /\ (Dedup.DedupKeyPattern_MatchString input = false ->
      Resolver.statOk env input = false ->
      Resolver.run (Resolver.ResolveMediaKey env DedupeKeyToSHA1 input)
      = (Ok input, [Resolver.EStat input]))
  /\ (forall notFound, Resolver.lookupOutcome notFound (Ok "") = Err notFound).
Proof.
  intros Hne. unfold Resolver.run, Resolver.ResolveMediaKey.
  destruct (String.eqb_spec input "") as [-> | _]; [contradiction |].
  repeat split.
  - intros -> hash ->. apply lookup_step.
  - intros -> Hstat.
    unfold Resolver.bind at 1. unfold Resolver.Stat, Resolver.perform. rewrite Hstat.
    unfold Resolver.bind at 1. unfold Resolver.wrapErr at 1.
    unfold Resolver.CalculateSHA1, Resolver.perform.
    destruct (Resolver.sha1Of env input) as [hash | err]; [| reflexivity].
    apply lookup_step.
  - intros -> Hstat.
    unfold Resolver.bind, Resolver.Stat, Resolver.perform. rewrite Hstat. reflexivity.
Qed.

(** C10.  On the empty input [ResolveItemKey] and [ResolveMediaKey] return
    the error "item key or file path is required" and perform no [os.Stat],
    no hashing and no lookup; neither returns the empty text as a key. *)
Theorem resolvers_reject_empty_input :
  Resolver.run (Resolver.ResolveItemKey env SHA1ToDedupeKey "")
  = (Err "item key or file path is required", [])
  /\ Resolver.run (Resolver.ResolveMediaKey env DedupeKeyToSHA1 "")
     = (Err "item key or file path is required", [])
  /\ fst (Resolver.run (Resolver.ResolveItemKey env SHA1ToDedupeKey "")) <> Ok ""
  /\ fst (Resolver.run (Resolver.ResolveMediaKey env DedupeKeyToSHA1 "")) <> Ok "".
Proof. repeat split; discriminate. Qed.

End ResolverFacts.

Lemma dedup_char_decodes (c : ascii) :
  Dedup.dedup_char c = true -> exists i, Base64.decodeMap Base64.encodeURL c = Some i.
Proof.
  destruct c as [b0 b1 b2 b3 b4 b5 b6 b7].
  destruct b0, b1, b2, b3, b4, b5, b6, b7; vm_compute; intros H;
    first [discriminate H | eexists; reflexivity].
Qed.

Lemma sextets_of_pattern (s : string) :
  forallb Dedup.dedup_char (String.list_ascii_of_string s) = true ->
  exists sx, Base64.sextets_of Base64.encodeURL s = Some sx /\ length sx = String.length s.
Proof.
  induction s as [| c s IH]; cbn [String.list_ascii_of_string forallb Base64.sextets_of].
  - exists []. split; reflexivity.
  - intros (Hc & Hs)%andb_prop.
    destruct (dedup_char_decodes c Hc) as (i & ->), (IH Hs) as (sx & -> & Hlen).
    exists (i :: sx). split; [reflexivity | cbn; congruence].
Qed.

Lemma decode_sextets_27 (sx : list Z) :
  length sx = 27%nat ->
  exists out, Base64.decode_sextets sx = Some out /\ length out = 20%nat.
Proof.
  intros H. do 28 (destruct sx as [| ? sx]; try discriminate H).
  cbn [Base64.decode_sextets]. eexists. split; reflexivity.
Qed.

(** With the decoder of the spec, every text that matches the dedup-key
    pattern decodes to a digest of twenty bytes: the decoding branch of
    [ResolveMediaKey] cannot fail. *)
Lemma DedupeKeyToSHA1_accepts_pattern (s : string) :
  Dedup.DedupKeyPattern_MatchString s = true ->
  exists hash, Dedup.DedupeKeyToSHA1 s = Ok hash /\ length hash = 20%nat.
Proof.
  unfold Dedup.DedupKeyPattern_MatchString. intros (Hlen & Hall)%andb_prop.
  apply Nat.eqb_eq in Hlen.
  destruct (sextets_of_pattern s Hall) as (sx & Hsx & Hl).
  destruct (decode_sextets_27 sx) as (out & Hout & Ho); [congruence |].
  exists out. unfold Dedup.DedupeKeyToSHA1, Base64.DecodeString.
  rewrite Hsx, Hout, Ho. split; reflexivity.
Qed.

Lemma ResolveMediaKey_cases_witness :
  fst (Resolver.run (Resolver.ResolveMediaKey Fixtures.emptyLibrary Dedup.DedupeKeyToSHA1
                       "AAAAAAAAAAAAAAAAAAAAAAAAAAA"))
  = Err "media not found in Google Photos library"
  /\ Resolver.run (Resolver.ResolveMediaKey Fixtures.oneItemLibrary Dedup.DedupeKeyToSHA1 "a.jpg")
     = (Ok "AF1QipMk",
        [Resolver.EStat "a.jpg"; Resolver.EHash "a.jpg";
         Resolver.ELookup (replicate 20 x00%byte)])
  /\ Resolver.run (Resolver.ResolveMediaKey Fixtures.oneItemLibrary Dedup.DedupeKeyToSHA1 "AF1QipXyz")
     = (Ok "AF1QipXyz", [Resolver.EStat "AF1QipXyz"]).
Proof.
  split; [| split].
  - rewrite (proj1 (ResolveMediaKey_cases Fixtures.emptyLibrary Dedup.DedupeKeyToSHA1
               "AAAAAAAAAAAAAAAAAAAAAAAAAAA" ltac:(discriminate))
               eq_refl (replicate 20 x00%byte) eq_refl).
    reflexivity.
  - rewrite (proj1 (proj2 (ResolveMediaKey_cases Fixtures.oneItemLibrary Dedup.DedupeKeyToSHA1
               "a.jpg" ltac:(discriminate))) eq_refl eq_refl).
    reflexivity.
  - apply (proj1 (proj2 (proj2 (ResolveMediaKey_cases Fixtures.oneItemLibrary
               Dedup.DedupeKeyToSHA1 "AF1QipXyz" ltac:(discriminate)))) eq_refl eq_refl).
Defined.

(** C7 as stated fails: the empty input matches no pattern and names no
    file, and is not returned unchanged. *)
Lemma ResolveMediaKey_empty_input_rejected :
  ~ (forall (env : Resolver.Env) (d2s : string -> result (list byte)) (input : string),
       Dedup.DedupKeyPattern_MatchString input = false ->
       Resolver.statOk env input = false ->
       fst (Resolver.run (Resolver.ResolveMediaKey env d2s input)) = Ok input).
Proof.
  intros Hclaim.
  specialize (Hclaim Fixtures.emptyLibrary Dedup.DedupeKeyToSHA1 "" eq_refl eq_refl).
  discriminate Hclaim.
Qed.

(** ** Download to a file *)

Section DownloadFacts.
Variable TrimSpace : string -> string.
Variable url_Parse_Path : string -> option string.
Variable http_Get : string -> result Download.GetResponse.
Variable DownloadFromReader : list byte -> string -> string -> result string.

Lemma lastDottedSegment_spec (segments : list string) (n : nat) :
  (n <= length segments)%nat ->
  Download.last_dotted (take n segments) (Download.lastDottedSegment segments n).
Proof.
  induction n as [| i IH]; intros Hn.
  - right. split; [constructor | reflexivity].
  - cbn [Download.lastDottedSegment].
    destruct (lookup_lt_is_Some_2 segments i) as [seg Hseg]; [lia |].
    rewrite (nth_lookup_Some _ _ _ _ Hseg), (take_S_r _ _ _ Hseg).
    fold (Download.dotted seg).
    destruct (Download.dotted seg) eqn:Hd.
    + left. exists (take i segments), []. repeat split; [exact Hd | constructor].
    + destruct IH as [(pre & post & Heq & Hseg' & Hpost) | (Hall & Hnone)]; [lia | |].
      * left. exists pre, (post ++ [seg])%list. rewrite Heq. repeat split.
        -- rewrite <- app_assoc. reflexivity.
        -- exact Hseg'.
        -- apply Forall_app. split; [exact Hpost | repeat constructor; exact Hd].
      * right. split; [| exact Hnone].
        apply Forall_app. split; [exact Hall | repeat constructor; exact Hd].
Qed.

(** C9.  When the GET succeeded with a 2xx status, [DownloadFile] hands
    [DownloadFromReader] the file name chosen in this order: the name the
    caller provided, if not empty; else the name extracted from the
    Content-Disposition header, if not empty; else the name extracted from
    the URL, if not empty; else "download".  The name extracted from the URL
    is the last segment of the parsed path that is not empty and contains a
    dot, and is empty if there is none or the URL does not parse. *)
Theorem DownloadFile_filename_priority (downloadURL outputPath provided : string)
    (resp : Download.GetResponse) :
  http_Get downloadURL = Ok resp ->
  200 <= Download.StatusCode resp < 300 ->
  let fromHeader :=
    Download.extractFilenameFromContentDisposition TrimSpace
      (Download.ContentDisposition resp) in
  let fromURL := Download.extractFilenameFromURL url_Parse_Path downloadURL in
  (exists name,
     Download.chosen provided fromHeader fromURL name
     /\ Download.DownloadFile TrimSpace url_Parse_Path http_Get DownloadFromReader
          downloadURL outputPath provided
        = DownloadFromReader (Download.Body resp) outputPath name)
  /\ match url_Parse_Path downloadURL with
     | Some path => Download.last_dotted (GoStrings.Split path "/") fromURL
     | None => fromURL = ""
     end.
Proof.
  intros Hget Hstatus fromHeader fromURL. split.
  - unfold Download.DownloadFile. rewrite Hget.
    destruct (Z.ltb_spec (Download.StatusCode resp) 200); [lia |].
    destruct (Z.leb_spec 300 (Download.StatusCode resp)); [lia |].
    cbn [orb]. cbv zeta. fold fromHeader fromURL.
    destruct (String.eqb provided "") eqn:Hp.
    + apply String.eqb_eq in Hp.
      destruct (String.eqb fromHeader "") eqn:Hh.
      * apply String.eqb_eq in Hh.
        destruct (String.eqb fromURL "") eqn:Hu.
        -- apply String.eqb_eq in Hu.
           exists "download". split; [apply Download.ByDefault; assumption | reflexivity].
        -- cbv iota; rewrite ?Hu; cbv iota. apply String.eqb_neq in Hu.
           exists fromURL. split; [apply Download.ByURL; assumption | reflexivity].
      * cbv iota; rewrite ?Hh; cbv iota. apply String.eqb_neq in Hh.
        exists fromHeader. split; [apply Download.ByHeader; assumption | reflexivity].
    + cbv iota; rewrite ?Hp; cbv iota; rewrite ?Hp; cbv iota. apply String.eqb_neq in Hp.
      exists provided. split; [apply Download.ByCaller; assumption | reflexivity].
  - unfold fromURL, Download.extractFilenameFromURL.
    destruct (url_Parse_Path downloadURL) as [path |]; [| reflexivity].
    rewrite <- (firstn_all (GoStrings.Split path "/")) at 1.
    apply lastDottedSegment_spec. lia.
Qed.

End DownloadFacts.


Lemma DownloadFile_filename_priority_witness :
  let resp := {| Download.StatusCode := 200; Download.ContentDisposition := "";
                 Download.Body := [] |} in
  let url := "https://host/a/photo.jpg?x=1" in
  let fromHeader :=
    Download.extractFilenameFromContentDisposition GoStrings.TrimSpaceASCII
      (Download.ContentDisposition resp) in
  let fromURL := Download.extractFilenameFromURL Fixtures.plainPath url in
  (exists name,
     Download.chosen "" fromHeader fromURL name
     /\ Download.DownloadFile GoStrings.TrimSpaceASCII Fixtures.plainPath
          (Fixtures.getWith "") Fixtures.reportName url "out" ""
        = Fixtures.reportName (Download.Body resp) "out" name)
  /\ match Fixtures.plainPath url with
     | Some path => Download.last_dotted (GoStrings.Split path "/") fromURL
     | None => fromURL = ""
     end.
Proof.
  intros resp url.
  apply (DownloadFile_filename_priority GoStrings.TrimSpaceASCII Fixtures.plainPath
           (Fixtures.getWith "") Fixtures.reportName url "out" "" resp).
  - reflexivity.
  - cbn. lia.
Defined.

Example DownloadFile_names :
  let download header :=
    Download.DownloadFile GoStrings.TrimSpaceASCII Fixtures.plainPath
      (Fixtures.getWith header) Fixtures.reportName in
  let quote := String "034" EmptyString in
  download "" "https://host/a/photo.jpg?x=1" "out" "given.png" = Ok "given.png"
  /\ download ("attachment; filename=" +:+ quote +:+ "from header.jpg" +:+ quote)
       "https://host/a/photo.jpg" "out" "" = Ok "from header.jpg"
  /\ download "attachment; filename*=UTF-8''a%20b.jpg" "https://host/a/photo.jpg" "out" ""
     = Ok "a b.jpg"
  /\ download "attachment" "https://host/a.b/photo" "out" "" = Ok "a.b"
  /\ download "" "https://host/a/photo.jpg/" "out" "" = Ok "photo.jpg"
  /\ download "" "https://host/a/photo" "out" "" = Ok "download".
Proof. vm_compute. repeat (split; [reflexivity |]). reflexivity. Qed.

(** ** The schemaless decoder *)

Lemma blen_nonneg (b : list byte) : 0 <= blen b.
Proof. unfold blen. lia. Qed.

Lemma blen_cons (x : byte) (b : list byte) : blen (x :: b) = blen b + 1.
Proof. unfold blen. cbn [length]. lia. Qed.

Lemma shiftl_nonneg_sub (y k : Z) :
  0 <= k -> 0x80 <= y -> 0 <= Z.shiftl y k - Z.shiftl 0x80 k.
Proof.
  intros Hk Hy. rewrite !Z.shiftl_mul_pow2 by lia.
  assert (0 < 2 ^ k) by (apply Z.pow_pos_nonneg; lia). nia.
Qed.

(** A successful [ConsumeVarint] reads between one and ten bytes, no more
    than there are, and yields a value that is not negative. *)
Lemma ConsumeVarint_at_len (b : list byte) (i : nat) (v v' n : Z) :
  Protowire.ConsumeVarint_at i v b = (v', n) -> 0 <= v -> 0 <= n ->
  Z.of_nat i + 1 <= n <= Z.of_nat i + blen b /\ 0 <= v'.
Proof.
  revert i v. induction b as [| y b IH]; intros i v Hc Hv Hn;
    cbn [Protowire.ConsumeVarint_at] in Hc.
  - injection Hc as <- <-. unfold Protowire.errCodeTruncated in Hn. lia.
  - rewrite blen_cons. pose proof (blen_nonneg b). pose proof (byteZ_range y) as Hy.
    assert (Hs : 0 <= Z.shiftl (byteZ y) (7 * Z.of_nat i)) by (apply Z.shiftl_nonneg; lia).
    destruct (Nat.eqb_spec i 9) as [-> | Hi].
    + destruct (byteZ y <? 2); injection Hc as <- <-;
        [lia | unfold Protowire.errCodeOverflow in Hn; lia].
    + destruct (Z.ltb_spec (byteZ y) 0x80) as [Hlt | Hge].
      * injection Hc as <- <-. lia.
      * apply IH in Hc; [lia | | exact Hn].
        pose proof (shiftl_nonneg_sub (byteZ y) (7 * Z.of_nat i)). lia.
Qed.

Lemma ConsumeVarint_len (b : list byte) (v n : Z) :
  Protowire.ConsumeVarint b = (v, n) -> 0 <= n -> 1 <= n <= blen b /\ 0 <= v.
Proof.
  intros Hc Hn. apply ConsumeVarint_at_len in Hc; [| lia | exact Hn]. lia.
Qed.

Lemma ConsumeTag_len (b : list byte) (num typ n : Z) :
  Protowire.ConsumeTag b = (num, typ, n) -> 0 <= n -> 1 <= n <= blen b.
Proof.
  unfold Protowire.ConsumeTag.
  destruct (Protowire.ConsumeVarint b) as [v m] eqn:Hv.
  destruct (Z.ltb_spec m 0) as [Hlt | Hge].
  - intros [= <- <- <-] Hn. lia.
  - destruct (Protowire.DecodeTag v) as [num' typ'].
    destruct (num' <? 1); intros [= <- <- <-] Hn.
    + unfold Protowire.errCodeFieldNumber in Hn. lia.
    + apply ConsumeVarint_len in Hv; lia.
Qed.

Lemma ConsumeFixed32_len (b : list byte) (v n : Z) :
  Protowire.ConsumeFixed32 b = (v, n) -> 0 <= n -> 1 <= n <= blen b.
Proof.
  unfold Protowire.ConsumeFixed32.
  do 4 (destruct b as [| ? b];
        [intros [= <- <-] Hn; unfold Protowire.errCodeTruncated in Hn; lia |]).
  intros [= <- <-] _. rewrite !blen_cons. pose proof (blen_nonneg b). lia.
Qed.

Lemma ConsumeFixed64_len (b : list byte) (v n : Z) :
  Protowire.ConsumeFixed64 b = (v, n) -> 0 <= n -> 1 <= n <= blen b.
Proof.
  unfold Protowire.ConsumeFixed64.
  do 8 (destruct b as [| ? b];
        [intros [= <- <-] Hn; unfold Protowire.errCodeTruncated in Hn; lia |]).
  intros [= <- <-] _. rewrite !blen_cons. pose proof (blen_nonneg b). lia.
Qed.

Lemma ConsumeBytes_len (b v : list byte) (n : Z) :
  Protowire.ConsumeBytes b = (v, n) -> 0 <= n ->
  1 <= n <= blen b /\ blen v < blen b.
Proof.
  unfold Protowire.ConsumeBytes.
  destruct (Protowire.ConsumeVarint b) as [m k] eqn:Hv.
  destruct (Z.ltb_spec k 0) as [Hlt | Hge].
  - intros [= <- <-] Hn. lia.
  - apply ConsumeVarint_len in Hv as (Hk & Hm); [| exact Hge].
    assert (Hrest : blen (drop (Z.to_nat k) b) = blen b - k)
      by (unfold blen in *; rewrite length_drop; lia).
    rewrite Hrest.
    destruct (Z.ltb_spec (blen b - k) m) as [Hlt | Hle].
    + intros [= <- <-] Hn. unfold Protowire.errCodeTruncated in Hn. lia.
    + intros [= <- <-] _.
      assert (blen (take (Z.to_nat m) (drop (Z.to_nat k) b)) = m)
        by (unfold blen in *; rewrite length_take, length_drop; lia).
      lia.
Qed.

Lemma slice_from_Some (data : list byte) (n : Z) :
  0 <= n <= blen data ->
  exists rest, Library.slice_from data n = Some rest /\ blen rest = blen data - n.
Proof.
  intros Hn. unfold Library.slice_from.
  destruct (Z.leb_spec 0 n); [| lia]. destruct (Z.leb_spec n (blen data)); [| lia].
  eexists. split; [reflexivity |]. unfold blen in *. rewrite length_drop. lia.
Qed.

(** A rune of a text that is not empty takes at least one byte and no more
    bytes than there are. *)
Lemma decodeRune_size (data : list byte) :
  0 < blen data -> 1 <= snd (Library.decodeRune data) <= blen data.
Proof.
  destruct data as [| b0 rest]; [unfold blen; cbn; lia |]. intros _.
  cbn [Library.decodeRune]. rewrite blen_cons. pose proof (blen_nonneg rest).
  repeat match goal with
         | |- context [if ?c then _ else _] => destruct c
         end; cbn [snd]; try lia.
  all: repeat match goal with
         | |- context [match ?l with [] => _ | _ :: _ => _ end] =>
             destruct l as [| ? ?]; cbn [snd]; rewrite ?blen_cons
         end;
       match goal with |- context [blen ?l] => pose proof (blen_nonneg l) | _ => idtac end;
       try lia.
Qed.

Lemma isValidUTF8_loop_done (fuel : nat) (data : list byte) (i : Z) :
  0 <= i -> blen data - i <= Z.of_nat fuel ->
  exists b, Library.isValidUTF8_loop fuel data i = Library.Done b.
Proof.
  revert i. induction fuel as [| fuel IH]; intros i Hi Hfuel;
    cbn [Library.isValidUTF8_loop];
    destruct (Z.ltb_spec i (blen data)) as [Hlt | Hge]; eauto; [lia |].
  destruct (slice_from_Some data i) as (rest & -> & Hrest); [lia |].
  pose proof (decodeRune_size rest) as Hsize.
  destruct (Library.decodeRune rest) as [r size]. cbn [snd] in Hsize.
  destruct ((r =? 0xFFFD) && (size =? 1)); eauto.
  destruct ((r <? 0x20) && negb (r =? 9) && negb (r =? 10) && negb (r =? 13)); eauto.
  apply IH; lia.
Qed.

Lemma isValidUTF8_done (data : list byte) :
  exists b, Library.isValidUTF8 data = Library.Done b.
Proof.
  unfold Library.isValidUTF8. destruct (blen data =? 0); eauto.
  apply isValidUTF8_loop_done; unfold blen; lia.
Qed.

Section DecoderFacts.
Variable decodeNested : list byte -> Library.outcome (result Library.any).

Lemma bytesValue_done (v : list byte) :
  (exists r, decodeNested v = Library.Done r) ->
  exists value, Library.bytesValue decodeNested v = Library.Done value.
Proof.
  intros [r Hr]. unfold Library.bytesValue. rewrite Hr.
  destruct (isValidUTF8_done v) as [b ->].
  destruct r as [[] |]; destruct b; eauto.
Qed.

(** One iteration of the decoding loop returns, and what it leaves of the
    data is shorter, provided the nested calls on shorter data return. *)
Lemma decodeField_done (data : list byte) (fields : gmap string Library.any) :
  (forall v, blen v < blen data -> exists r, decodeNested v = Library.Done r) ->
  exists r, Library.decodeField decodeNested data fields = Library.Done r
            /\ forall data' fields', r = Ok (data', fields') -> blen data' < blen data.
Proof.
  intros Hnested. unfold Library.decodeField.
  destruct (Protowire.ConsumeTag data) as [[fieldNum wireType] n] eqn:Htag.
  destruct (Z.ltb_spec n 0) as [Hlt | Hge]; [eexists; split; [reflexivity | discriminate] |].
  apply ConsumeTag_len in Htag; [| exact Hge].
  destruct (slice_from_Some data n) as (data1 & -> & Hlen1); [lia |].
  assert (Hstore : forall value consumed, 1 <= consumed <= blen data1 ->
    exists r,
      match Library.slice_from data1 consumed with
      | Some data' =>
          Library.Done (Ok (data', Library.addField fields (pretty fieldNum) value))
      | None => Library.Panic
      end = Library.Done r
      /\ forall data' fields', r = Ok (data', fields') -> blen data' < blen data).
  { intros value consumed Hc.
    destruct (slice_from_Some data1 consumed) as (data2 & -> & Hlen2); [lia |].
    eexists. split; [reflexivity |]. intros data' fields' [= <- <-]. lia. }
  destruct (wireType =? Protowire.VarintType).
  { destruct (Protowire.ConsumeVarint data1) as [v k] eqn:Hv.
    destruct (Z.ltb_spec k 0); [eexists; split; [reflexivity | discriminate] |].
    apply ConsumeVarint_len in Hv; [| assumption]. apply Hstore. lia. }
  destruct (wireType =? Protowire.Fixed64Type).
  { destruct (Protowire.ConsumeFixed64 data1) as [v k] eqn:Hv.
    destruct (Z.ltb_spec k 0); [eexists; split; [reflexivity | discriminate] |].
    apply ConsumeFixed64_len in Hv; [| assumption]. apply Hstore. lia. }
  destruct (wireType =? Protowire.BytesType).
  { destruct (Protowire.ConsumeBytes data1) as [v k] eqn:Hv.
    destruct (Z.ltb_spec k 0); [eexists; split; [reflexivity | discriminate] |].
    apply ConsumeBytes_len in Hv as (Hk & Hvlen); [| assumption].
    destruct (bytesValue_done v) as [value ->]; [apply Hnested; lia |].
    apply Hstore. lia. }
  destruct (wireType =? Protowire.Fixed32Type).
  { destruct (Protowire.ConsumeFixed32 data1) as [v k] eqn:Hv.
    destruct (Z.ltb_spec k 0); [eexists; split; [reflexivity | discriminate] |].
    apply ConsumeFixed32_len in Hv; [| assumption]. apply Hstore. lia. }
  destruct ((wireType =? Protowire.StartGroupType) || (wireType =? Protowire.EndGroupType));
    eexists; split; first [reflexivity | discriminate].
Qed.

Lemma decodeFields_done (fuel : nat) (data : list byte) (fields : gmap string Library.any) :
  (forall v, blen v < blen data -> exists r, decodeNested v = Library.Done r) ->
  blen data <= Z.of_nat fuel ->
  exists r, Library.decodeFields decodeNested fuel data fields = Library.Done r.
Proof.
  revert data fields. induction fuel as [| fuel IH]; intros data fields Hnested Hfuel;
    cbn [Library.decodeFields];
    destruct (Z.ltb_spec 0 (blen data)) as [Hpos | Hzero]; eauto; [lia |].
  destruct (decodeField_done data fields Hnested) as (r & -> & Hshorter).
  destruct r as [[data' fields'] | err]; eauto.
  specialize (Hshorter data' fields' eq_refl).
  apply IH; [| lia]. intros v Hv. apply Hnested. lia.
Qed.

End DecoderFacts.

(** [decodeProtobufToJSON] returns on every input: it does not panic, and the
    fuel the model gives it is enough. *)
Lemma decodeProtobufToJSON_fuel_done (fuel : nat) (data : list byte) :
  blen data <= Z.of_nat fuel ->
  exists r, Library.decodeProtobufToJSON_fuel fuel data = Library.Done r.
Proof.
  revert data. induction fuel as [| fuel IH]; intros data Hfuel;
    cbn [Library.decodeProtobufToJSON_fuel];
    destruct (Z.eqb_spec (blen data) 0) as [Hz | Hnz]; eauto.
  - pose proof (blen_nonneg data). lia.
  - destruct (decodeFields_done (Library.decodeProtobufToJSON_fuel fuel)
                (length data) data ∅) as [r ->].
    + intros v Hv. apply IH. lia.
    + unfold blen. lia.
    + destruct r as [fields | err]; [destruct (size fields =? 0)%nat |]; eauto.
Qed.

Lemma decodeProtobufToJSON_done (data : list byte) :
  exists r, Library.decodeProtobufToJSON data = Library.Done r.
Proof. apply decodeProtobufToJSON_fuel_done. unfold blen. lia. Qed.

Section DecoderFuel.
Variables decodeNested1 decodeNested2 : list byte -> Library.outcome (result Library.any).
Hypothesis nested_mono :
  forall v r, decodeNested1 v = Library.Done r -> decodeNested2 v = Library.Done r.

Lemma bytesValue_mono (v : list byte) (value : Library.any) :
  Library.bytesValue decodeNested1 v = Library.Done value ->
  Library.bytesValue decodeNested2 v = Library.Done value.
Proof.
  unfold Library.bytesValue.
  destruct (decodeNested1 v) as [r | |] eqn:H1; try discriminate.
  rewrite (nested_mono v r H1). trivial.
Qed.

Lemma decodeField_mono (data : list byte) (fields : gmap string Library.any)
    (r : result (list byte * gmap string Library.any)) :
  Library.decodeField decodeNested1 data fields = Library.Done r ->
  Library.decodeField decodeNested2 data fields = Library.Done r.
Proof.
  unfold Library.decodeField.
  destruct (Protowire.ConsumeTag data) as [[fieldNum wireType] n].
  destruct (n <? 0); [trivial |].
  destruct (Library.slice_from data n) as [data1 |]; [| trivial].
  destruct (wireType =? Protowire.VarintType); [trivial |].
  destruct (wireType =? Protowire.Fixed64Type); [trivial |].
  destruct (wireType =? Protowire.BytesType); [| trivial].
  destruct (Protowire.ConsumeBytes data1) as [v k].
  destruct (k <? 0); [trivial |].
  destruct (Library.bytesValue decodeNested1 v) as [value | |] eqn:Hv; try discriminate.
  rewrite (bytesValue_mono v value Hv). trivial.
Qed.

Lemma decodeFields_mono (fuel1 fuel2 : nat) (data : list byte)
    (fields : gmap string Library.any) (r : result (gmap string Library.any)) :
  (fuel1 <= fuel2)%nat ->
  Library.decodeFields decodeNested1 fuel1 data fields = Library.Done r ->
  Library.decodeFields decodeNested2 fuel2 data fields = Library.Done r.
Proof.
  revert fuel2 data fields. induction fuel1 as [| fuel1 IH]; intros fuel2 data fields Hle;
    cbn [Library.decodeFields].
  - destruct fuel2; cbn [Library.decodeFields]; destruct (0 <? blen data);
      first [discriminate | trivial].
  - destruct fuel2 as [| fuel2]; [lia |]. cbn [Library.decodeFields].
    destruct (0 <? blen data); [| trivial].
    destruct (Library.decodeField decodeNested1 data fields) as [r1 | |] eqn:H1;
      try discriminate.
    rewrite (decodeField_mono data fields r1 H1).
    destruct r1 as [[data' fields'] | err]; [| trivial].
    apply IH. lia.
Qed.

End DecoderFuel.

(** More fuel does not change what [decodeProtobufToJSON] returns. *)
Lemma decodeProtobufToJSON_fuel_mono (fuel1 fuel2 : nat) (data : list byte)
    (r : result Library.any) :
  (fuel1 <= fuel2)%nat ->
  Library.decodeProtobufToJSON_fuel fuel1 data = Library.Done r ->
  Library.decodeProtobufToJSON_fuel fuel2 data = Library.Done r.
Proof.
  revert fuel2 data r. induction fuel1 as [| fuel1 IH]; intros fuel2 data r Hle;
    cbn [Library.decodeProtobufToJSON_fuel].
  - destruct fuel2; cbn [Library.decodeProtobufToJSON_fuel]; destruct (blen data =? 0);
      first [discriminate | trivial].
  - destruct fuel2 as [| fuel2]; [lia |]. cbn [Library.decodeProtobufToJSON_fuel].
    destruct (blen data =? 0); [trivial |].
    destruct (Library.decodeFields (Library.decodeProtobufToJSON_fuel fuel1)
                (length data) data ∅) as [r1 | |] eqn:H1; try discriminate.
    rewrite (decodeFields_mono (Library.decodeProtobufToJSON_fuel fuel1)
               (Library.decodeProtobufToJSON_fuel fuel2)
               (fun v r' => IH fuel2 v r' ltac:(lia))
               (length data) (length data) data ∅ r1 (Nat.le_refl _) H1).
    trivial.
Qed.

Lemma decodeProtobufToJSON_fuel_stable (fuel : nat) (data : list byte) :
  (length data <= fuel)%nat ->
  Library.decodeProtobufToJSON_fuel fuel data = Library.decodeProtobufToJSON data.
Proof.
  intros Hle. destruct (decodeProtobufToJSON_done data) as [r Hr].
  rewrite Hr. apply (decodeProtobufToJSON_fuel_mono (length data)); assumption.
Qed.

(** C2.  [parseLibraryResponse] returns on every byte input: it never panics
    (and the model never runs out of fuel), giving a response or an error.
    When the decoded tree is not a map, or its field 1 is not a map, the
    response is the empty one and there is no error.  A field that is missing
    from the decoded tree (or has another type than the one read) leaves its
    zero value in the response: the tokens, the two lists, and the fields of
    every media item and album. *)
Theorem parseLibraryResponse_total :
  (forall data, exists r, Library.parseLibraryResponse data = Library.Done r)
  /\ (forall data decoded,
        Library.decodeProtobufToJSON data = Library.Done (Ok decoded) ->
        (forall root, decoded = Library.AMap root -> Library.asMap (root !! "1") = None) ->
        Library.parseLibraryResponse data = Library.Done (Ok Library.emptyResponse))
  /\ (forall data root field1,
        Library.decodeProtobufToJSON data = Library.Done (Ok (Library.AMap root)) ->
        root !! "1" = Some (Library.AMap field1) ->
        exists resp,
          Library.parseLibraryResponse data = Library.Done (Ok resp)
          /\ (Library.asString (field1 !! "6") = None -> Library.StateToken resp = "")
          /\ (Library.asString (field1 !! "5") = None -> Library.PageToken resp = "")
          /\ (Library.asList (field1 !! "2") = None -> Library.MediaItems resp = [])
          /\ (Library.asList (field1 !! "3") = None -> Library.Albums resp = []))
  /\ (forall item,
        let mi := Library.parseMediaItem item in
        (Library.asString (item !! "1") = None -> Library.MediaKey mi = "")
        /\ (Library.asMap (item !! "2") = None ->
            Library.Filename mi = "" /\ Library.Caption mi = ""
            /\ Library.CreationTimestamp mi = 0 /\ Library.FileSize mi = 0
            /\ Library.DedupKey mi = "" /\ Library.AlbumMediaKey mi = ""
            /\ Library.IsInTrash mi = false /\ Library.TrashedAt mi = 0)
        /\ (Library.asMap (item !! "5") = None ->
            Library.IsVideo mi = false /\ Library.DownloadURL mi = ""
            /\ Library.ThumbnailURL mi = "" /\ Library.Width mi = 0
            /\ Library.Height mi = 0))
  /\ (forall item,
        let ai := Library.parseAlbum item in
        (Library.asString (item !! "1") = None -> Library.AlbumKey ai = "")
        /\ (Library.asMap (item !! "2") = None ->
            Library.Name ai = "" /\ Library.ItemCount ai = 0 /\ Library.CoverKey ai = "")).
Proof.
  repeat apply conj.
  - intros data. unfold Library.parseLibraryResponse.
    destruct (decodeProtobufToJSON_done data) as [[decoded | err] ->]; eauto.
  - intros data decoded Hdec Hroot. unfold Library.parseLibraryResponse. rewrite Hdec.
    destruct decoded as [| | | | root |]; try reflexivity.
    cbn [Library.projectLibraryResponse]. rewrite (Hroot root eq_refl). reflexivity.
  - intros data root field1 Hdec Hf1. unfold Library.parseLibraryResponse. rewrite Hdec.
    cbn [Library.projectLibraryResponse]. rewrite Hf1. cbn [Library.asMap].
    eexists. split; [reflexivity |].
    cbn [Library.StateToken Library.PageToken Library.MediaItems Library.Albums].
    repeat apply conj; intros Hnone; rewrite Hnone; repeat apply conj; reflexivity.
  - intros item mi. unfold mi, Library.parseMediaItem.
    cbn [Library.MediaKey Library.Filename Library.Caption Library.CreationTimestamp
         Library.FileSize Library.DedupKey Library.AlbumMediaKey Library.IsInTrash
         Library.TrashedAt Library.IsVideo Library.DownloadURL Library.ThumbnailURL
         Library.Width Library.Height].
    repeat apply conj; intros Hnone; rewrite Hnone; repeat apply conj; reflexivity.
  - intros item ai. unfold ai, Library.parseAlbum.
    cbn [Library.AlbumKey Library.Name Library.ItemCount Library.CoverKey].
    repeat apply conj; intros Hnone; rewrite Hnone; repeat apply conj; reflexivity.
Qed.

Lemma parseLibraryResponse_total_witness :
  Library.parseLibraryResponse [] = Library.Done (Ok Library.emptyResponse)
  /\ (exists resp,
        Library.parseLibraryResponse [x0a; x02; x08; x01]%byte = Library.Done (Ok resp)
        /\ Library.StateToken resp = "" /\ Library.PageToken resp = ""
        /\ Library.MediaItems resp = [] /\ Library.Albums resp = []).
Proof.
  split.
  - apply (proj1 (proj2 parseLibraryResponse_total) [] Library.ANil eq_refl).
    intros root Hroot. discriminate Hroot.
  - destruct (proj1 (proj2 (proj2 parseLibraryResponse_total))
                [x0a; x02; x08; x01]%byte
                (<["1" := Library.AMap (<["1" := Library.AUint64 1]> ∅)]> ∅)
                (<["1" := Library.AUint64 1]> ∅))
      as (resp & Hresp & Hst & Hpt & Hmi & Hal).
    + vm_compute. reflexivity.
    + vm_compute. reflexivity.
    + exists resp. repeat split; [exact Hresp | apply Hst | apply Hpt | apply Hmi | apply Hal];
        vm_compute; reflexivity.
Defined.

(** ** The upload pipeline *)

Ltac unfold_state :=
  unfold Uploader.setDriver, Uploader.setWorker, Uploader.setWorkChan,
    Uploader.closeWorkChan, Uploader.sendEvent, Uploader.makeCall in *;
  cbn [Uploader.driver Uploader.workers Uploader.workChan Uploader.workChanClosed
       Uploader.cancelled Uploader.events Uploader.eventsClosed Uploader.calls] in *.

Section UploaderFacts.
Variable api : Core.Api.
Variable env : Uploader.Env.
Variable SHA1ToDedupeKey : list byte -> string.
Variable listing : result (list string).
Variable opts : Uploader.UploadOptions.

#[local] Abbreviation step := (Uploader.step api env SHA1ToDedupeKey listing opts).
#[local] Abbreviation reachable := (Uploader.reachable api env SHA1ToDedupeKey listing opts).

(** Every event [uploadFile] sends has a status and no total. *)
Lemma uploadFile_good (filePath : string) (workerID : Z) :
  Forall Uploader.goodStep
    (Uploader.uploadFile api env SHA1ToDedupeKey filePath workerID opts).
Proof.
  unfold Uploader.uploadFile.
  repeat match goal with
         | |- Forall _ (_ :: _) => constructor
         | |- Forall _ [] => constructor
         | |- Forall _ (_ ++ _) => apply Forall_app; split
         | |- Uploader.goodStep (Uploader.Emit _) => split; [reflexivity | discriminate]
         | |- Uploader.goodStep (Uploader.Call _) => exact I
         | |- Forall _ (match ?x with _ => _ end) => destruct x
         | |- Forall _ (if ?x then _ else _) => destruct x
         end.
Qed.

Lemma not_idle_select (path : string) : ~ Uploader.idle (Uploader.WSelect path).
Proof. intros [H | H]; discriminate H. Qed.

Lemma not_idle_run (steps : list Uploader.Step) : ~ Uploader.idle (Uploader.WRun steps).
Proof. intros [H | H]; discriminate H. Qed.

(** A worker that holds a file shows that the total was sent. *)
Lemma busy_worker_started (s : Uploader.State) (i : nat) (w : Uploader.WorkerPC) :
  (Uploader.events s = [] ->
   Uploader.workChan s = [] /\ Forall Uploader.idle (Uploader.workers s)) ->
  Uploader.workers s !! i = Some w -> ~ Uploader.idle w ->
  Uploader.events s <> [].
Proof.
  intros Hidle Hw Hbusy Hnil. destruct (Hidle Hnil) as (_ & Hall).
  apply Hbusy. exact (Forall_lookup_1 _ _ _ _ Hall Hw).
Qed.

Lemma streamShape_worker_event (evs : list Uploader.UploadEvent) (e : Uploader.UploadEvent) :
  (exists files, listing = Ok files /\ files <> []) ->
  Uploader.streamShape listing evs -> evs <> [] -> Uploader.workerEvent e ->
  Uploader.streamShape listing (evs ++ [e]).
Proof.
  intros (files & -> & Hne) Hshape Hnil He. cbn [Uploader.streamShape] in *.
  destruct Hshape as [-> | (_ & rest & -> & Hrest)]; [contradiction |].
  right. split; [exact Hne |]. exists (rest ++ [e])%list. split; [reflexivity |].
  apply Forall_app. split; [exact Hrest | constructor; [exact He | constructor]].
Qed.

Lemma Inv_init : Uploader.Inv listing Uploader.init.
Proof.
  unfold Uploader.Inv, Uploader.driverOk, Uploader.init. unfold_state.
  repeat split; try constructor; auto.
  - destruct listing; left; reflexivity.
Qed.

Lemma workers_nonempty (s : Uploader.State) (i : nat) (w : Uploader.WorkerPC) :
  Uploader.workers s !! i = Some w ->
  (Uploader.workers s = [] \/ exists files, listing = Ok files /\ files <> []) ->
  exists files, listing = Ok files /\ files <> [].
Proof. intros Hi [Hnil | H]; [rewrite Hnil in Hi; discriminate Hi | exact H]. Qed.

Lemma app_singleton_not_nil {A} (l : list A) (x : A) : (l ++ [x])%list <> [].
Proof. destruct l; discriminate. Qed.

Lemma insert_not_nil {A} (l : list A) (i : nat) (x y : A) :
  l !! i = Some y -> <[i := x]> l <> [].
Proof. intros Hi Hnil. apply (f_equal length) in Hnil. rewrite length_insert in Hnil.
  destruct l; [discriminate Hi | discriminate Hnil]. Qed.

(** The driver part of the invariant, when a worker moves and the events
    can only have grown. *)
Lemma driverOk_worker_step (s : Uploader.State) (i : nat) (w w' : Uploader.WorkerPC)
    (evs : list Uploader.UploadEvent) :
  Uploader.workers s !! i = Some w ->
  Uploader.driverOk listing s ->
  (Uploader.events s = [] -> evs = []) -> (evs = [] -> Uploader.events s = []) ->
  Uploader.driverOk listing
    {| Uploader.driver := Uploader.driver s;
       Uploader.workers := <[i := w']> (Uploader.workers s);
       Uploader.workChan := Uploader.workChan s;
       Uploader.workChanClosed := Uploader.workChanClosed s;
       Uploader.cancelled := Uploader.cancelled s;
       Uploader.events := evs;
       Uploader.eventsClosed := Uploader.eventsClosed s;
       Uploader.calls := Uploader.calls s |}.
Proof.
  intros Hi Hd H1 H2. unfold Uploader.driverOk in *. unfold_state.
  destruct (Uploader.driver s) as [| rest [] | | | | |]; try tauto.
  - destruct Hd as (_ & Hnil). rewrite Hnil in Hi. discriminate Hi.
Qed.

Lemma Inv_step (s s' : Uploader.State) :
  Uploader.Inv listing s -> step s s' -> Uploader.Inv listing s'.
Proof.
  intros (Hshape & Hgood & Hidle & Hw & Hd) Hstep.
  destruct Hstep.
  (* the driver *)
  1-10: unfold Uploader.driverOk in Hd;
    repeat match goal with
           | H : Uploader.driver _ = _ |- _ => rewrite H in Hd; clear H
           end;
    unfold Uploader.Inv, Uploader.driverOk; unfold_state.
  - destruct Hd as (Hnil & Hwn). rewrite Hnil in *. subst listing. cbn.
    repeat apply conj; auto; try discriminate.
  - repeat apply conj; auto. intros _ (files & Hf & Hne). congruence.
  - destruct Hd as (Hnil & Hwn). destruct (Hidle Hnil) as (Hq & _).
    repeat apply conj; auto.
    + apply Forall_replicate. exact I.
    + intros _. split; [exact Hq | apply Forall_replicate; left; reflexivity].
    + right. eauto.
  - repeat apply conj; auto. destruct first; [destruct Hd as (_ & _ & Hne); contradiction | tauto].
  - repeat apply conj; auto.
  - repeat apply conj; auto. destruct first; tauto.
  - destruct Hd as (Hnil & Hl). rewrite Hnil in *.
    assert (files = path :: rest) as -> by congruence.
    repeat apply conj; auto; try discriminate.
    rewrite Hl. cbn. right. split; [discriminate |]. exists []. split; [reflexivity | constructor].
  - repeat apply conj; auto; tauto.
  - repeat apply conj; auto.
  - repeat apply conj; auto.
  (* the workers *)
  - assert (Hev : Uploader.events s <> []).
    { intros Hnil. destruct (Hidle Hnil) as (Hq & _). congruence. }
    split; [exact Hshape |]. split; [apply Forall_insert; [exact Hgood | exact I] |].
    split; [unfold_state; tauto |]. split; [right; eapply workers_nonempty; eauto |].
    apply (driverOk_worker_step s i _ _ _ H); unfold_state; auto.
  - split; [exact Hshape |]. split; [apply Forall_insert; [exact Hgood | exact I] |].
    split; [unfold_state; intros Hnil; destruct (Hidle Hnil); split;
            [assumption | apply Forall_insert; [assumption | right; reflexivity]] |].
    split; [right; eapply workers_nonempty; eauto |].
    apply (driverOk_worker_step s i _ _ _ H); auto.
  - split; [exact Hshape |]. split; [apply Forall_insert; [exact Hgood | exact I] |].
    split; [unfold_state; intros Hnil; destruct (Hidle Hnil); split;
            [assumption | apply Forall_insert; [assumption | right; reflexivity]] |].
    split; [right; eapply workers_nonempty; eauto |].
    apply (driverOk_worker_step s i _ _ _ H); auto.
  - pose proof (busy_worker_started s i _ Hidle H (not_idle_select path)) as Hev.
    split; [exact Hshape |].
    split; [apply Forall_insert; [exact Hgood | apply uploadFile_good] |].
    split; [unfold_state; tauto |]. split; [right; eapply workers_nonempty; eauto |].
    apply (driverOk_worker_step s i _ _ _ H); auto.
  - pose proof (busy_worker_started s i _ Hidle H (not_idle_run _)) as Hev.
    pose proof (Forall_lookup_1 _ _ _ _ Hgood H) as Hsteps. cbn in Hsteps.
    apply Forall_cons in Hsteps as (He & Hsteps).
    split; [unfold_state; apply streamShape_worker_event; auto;
            eapply workers_nonempty; eauto |].
    split; [apply Forall_insert; [exact Hgood | exact Hsteps] |].
    split; [unfold_state; intros Hnil; destruct (app_singleton_not_nil _ _ Hnil) |].
    split; [right; eapply workers_nonempty; eauto |].
    apply (driverOk_worker_step s i _ _ _ H); unfold_state; auto.
    + tauto.
    + intros Hnil; destruct (app_singleton_not_nil _ _ Hnil).
  - pose proof (busy_worker_started s i _ Hidle H (not_idle_run _)) as Hev.
    pose proof (Forall_lookup_1 _ _ _ _ Hgood H) as Hsteps. cbn in Hsteps.
    apply Forall_cons in Hsteps as (_ & Hsteps).
    split; [exact Hshape |].
    split; [apply Forall_insert; [exact Hgood | exact Hsteps] |].
    split; [unfold_state; tauto |]. split; [right; eapply workers_nonempty; eauto |].
    apply (driverOk_worker_step s i _ _ _ H); auto.
  - pose proof (busy_worker_started s i _ Hidle H (not_idle_run _)) as Hev.
    split; [exact Hshape |]. split; [apply Forall_insert; [exact Hgood | exact I] |].
    split; [unfold_state; tauto |]. split; [right; eapply workers_nonempty; eauto |].
    apply (driverOk_worker_step s i _ _ _ H); auto.
  (* the context *)
  - unfold Uploader.Inv, Uploader.driverOk in *. unfold_state.
    repeat apply conj; auto. destruct (Uploader.driver s) as [| rest [] | | | | |]; auto.
Qed.

Lemma Inv_reachable (s : Uploader.State) : reachable s -> Uploader.Inv listing s.
Proof. induction 1; [apply Inv_init | eapply Inv_step; eauto]. Qed.

(** C1, as the code has it.  At every moment of a batch the events sent so
    far are: none; or, when listing the files failed, the single failed
    event (which has no total); or, when the listing gave files, the event
    with the total (the number of files, greater than 0, and no status)
    followed by events that each have a status and total 0.  A batch with
    files that ends without the context having been cancelled has sent the
    total. *)
Theorem Upload_total_event_first (s : Uploader.State) :
  reachable s ->
  Uploader.streamShape listing (Uploader.events s)
  /\ (forall files, files <> [] ->
        0 < Uploader.Total (Uploader.totalEvent files)
        /\ Uploader.Status (Uploader.totalEvent files) = "")
  /\ (forall files,
        listing = Ok files -> files <> [] ->
        Uploader.driver s = Uploader.DDone -> Uploader.cancelled s = false ->
        exists rest,
          Uploader.events s = Uploader.totalEvent files :: rest
          /\ Forall Uploader.workerEvent rest).
Proof.
  intros Hreach. destruct (Inv_reachable s Hreach) as (Hshape & _ & _ & _ & Hd).
  split; [exact Hshape |]. split.
  - intros files Hne. unfold Uploader.totalEvent. cbn [Uploader.Total Uploader.Status].
    destruct files; [contradiction |]. cbn [length]. split; [lia | reflexivity].
  - intros files Hl Hne Hdone Hc. unfold Uploader.driverOk in Hd. rewrite Hdone in Hd.
    rewrite Hl in Hshape. cbn [Uploader.streamShape] in Hshape.
    destruct Hshape as [Hnil | (_ & rest & Hev & Hrest)]; [| eauto].
    rewrite Hd in Hc; [discriminate Hc | exact Hnil | eauto].
Qed.

Lemma workersOk_init : Uploader.workersOk listing opts Uploader.init.
Proof.
  unfold Uploader.workersOk, Uploader.init. unfold_state.
  destruct listing as [[| file files] | err]; auto.
Qed.

Lemma workerCount_pos (files : list string) :
  files <> [] -> 1 <= Uploader.workerCount opts files.
Proof.
  intros Hne. unfold Uploader.workerCount.
  destruct files; [contradiction |]. cbn [length]. lia.
Qed.

Lemma workersOk_step (s s' : Uploader.State) :
  Uploader.workersOk listing opts s -> step s s' -> Uploader.workersOk listing opts s'.
Proof.
  unfold Uploader.workersOk. intros Hok Hstep.
  destruct listing as [[| file files] | err] eqn:Hl.
  - destruct Hok as (Hw & He & Hd).
    destruct Hstep; unfold_state;
      try match goal with
          | H : Uploader.workers s !! _ = Some _ |- _ => rewrite Hw in H; discriminate H
          end;
      try (destruct Hd as [Hd | [Hd | Hd]]; congruence);
      auto.
  - destruct Hstep; unfold_state;
      try match goal with
          | H : Uploader.workers s !! _ = Some _ |- _ =>
              destruct Hok as [(_ & Hw) | (Hd & Hlen)];
              [rewrite Hw in H; discriminate H
              | right; rewrite length_insert; split; assumption]
          end;
      try discriminate;
      try (destruct Hok as [(Hd & _) | (Hd & Hlen)];
           [congruence | right; split; [try destruct first; congruence | assumption]]).
    + right. split; [discriminate |].
      match goal with H : Ok _ = Ok _ |- _ => injection H as <- end.
      rewrite length_replicate.
      pose proof (workerCount_pos (file :: files) ltac:(discriminate)). lia.
    + exact Hok.
  - destruct Hstep; unfold_state; auto;
      match goal with
      | H : Uploader.workers s !! _ = Some _ |- _ => rewrite Hok in H; discriminate H
      | _ => congruence
      end.
Qed.

Lemma workersOk_reachable (s : Uploader.State) :
  reachable s -> Uploader.workersOk listing opts s.
Proof. induction 1; [apply workersOk_init | eapply workersOk_step; eauto]. Qed.

(** C5.  A batch without files sends no event, starts no worker and closes
    the stream at once.  A batch with files has, once the workers are
    started, [min (max 1 W) F] of them, for [W] the requested number and [F]
    the number of files; a requested number of 0 or less counts as 1. *)
Theorem Upload_worker_count :
  (listing = Ok [] ->
   reachable Uploader.closedEmpty
   /\ forall s, reachable s -> Uploader.events s = [] /\ Uploader.workers s = [])
  /\ (forall files s,
        listing = Ok files -> files <> [] -> reachable s ->
        Uploader.driver s <> Uploader.DStart ->
        Z.of_nat (length (Uploader.workers s))
        = Z.min (Z.max 1 (Uploader.Workers opts)) (Z.of_nat (length files)))
  /\ (forall files,
        Uploader.Workers opts <= 0 ->
        Uploader.workerCount opts files = Z.min 1 (Z.of_nat (length files))).
Proof.
  repeat apply conj.
  - intros Hl. split.
    + apply (Uploader.reachable_step _ _ _ _ _
               (Uploader.setDriver Uploader.DClosing Uploader.init)).
      * apply (Uploader.reachable_step _ _ _ _ _ Uploader.init);
          [apply Uploader.reachable_init |].
        apply Uploader.step_list_empty; [reflexivity | exact Hl].
      * apply (Uploader.step_close _ _ _ _ _
                 (Uploader.setDriver Uploader.DClosing Uploader.init)). reflexivity.
    + intros s Hs. pose proof (workersOk_reachable s Hs) as Hok.
      unfold Uploader.workersOk in Hok. rewrite Hl in Hok. tauto.
  - intros files s Hl Hne Hs Hd. pose proof (workersOk_reachable s Hs) as Hok.
    unfold Uploader.workersOk in Hok. rewrite Hl in Hok.
    destruct files as [| file files]; [contradiction |].
    destruct Hok as [(Hd' & _) | (_ & Hlen)]; [contradiction | exact Hlen].
  - intros files Hw. unfold Uploader.workerCount. lia.
Qed.

End UploaderFacts.

Ltac advance H rule :=
  eapply Uploader.reachable_step in H;
  [| eapply rule; first [reflexivity | discriminate | repeat constructor]];
  unfold_state.
Ltac advance_worker H rule n :=
  eapply Uploader.reachable_step in H;
  [| eapply rule with (i := n); first [reflexivity | discriminate]];
  unfold_state.

(** A complete run of a batch of one file with one worker. *)
Lemma Upload_total_event_first_witness :
  exists s rest,
    Uploader.reachable Fixtures.api Fixtures.uploadEnv Dedup.SHA1ToDedupeKey
      (Ok ["a.jpg"]) (Fixtures.uploadOptions 0) s
    /\ Uploader.driver s = Uploader.DDone
    /\ Uploader.events s = Uploader.totalEvent ["a.jpg"] :: rest
    /\ Forall Uploader.workerEvent rest.
Proof.
  pose proof (Uploader.reachable_init Fixtures.api Fixtures.uploadEnv Dedup.SHA1ToDedupeKey
                (Ok ["a.jpg"]) (Fixtures.uploadOptions 0)) as Hr.
  advance Hr Uploader.step_start_workers.
  advance Hr Uploader.step_driver_continue.
  advance Hr Uploader.step_send_total.
  advance Hr Uploader.step_push.
  advance Hr Uploader.step_all_sent.
  advance_worker Hr Uploader.step_receive 0%nat.
  advance_worker Hr Uploader.step_worker_continue 0%nat.
  do 5 advance_worker Hr Uploader.step_emit 0%nat.
  advance_worker Hr Uploader.step_file_done 0%nat.
  advance_worker Hr Uploader.step_range_over 0%nat.
  advance Hr Uploader.step_wait_over.
  advance Hr Uploader.step_close.
  destruct (proj2 (proj2 (Upload_total_event_first _ _ _ _ _ _ Hr))
              ["a.jpg"] eq_refl ltac:(discriminate) eq_refl eq_refl) as (rest & Hev & Hrest).
  eexists. exists rest. split; [exact Hr |]. split; [reflexivity |].
  split; [exact Hev | exact Hrest].
Defined.

(** C1 as stated fails: a batch whose files cannot be listed closes its
    stream after one failed event, with no event that has a total. *)
Lemma Upload_failed_listing_no_total :
  ~ (forall (listing : result (list string)) (s : Uploader.State),
       Uploader.reachable Fixtures.api Fixtures.uploadEnv Dedup.SHA1ToDedupeKey
         listing (Fixtures.uploadOptions 2) s ->
       Uploader.eventsClosed s = true ->
       exists e, e ∈ Uploader.events s /\ 0 < Uploader.Total e).
Proof.
  intros Hclaim.
  pose proof (Uploader.reachable_init Fixtures.api Fixtures.uploadEnv Dedup.SHA1ToDedupeKey
                (Err "error accessing missing.jpg") (Fixtures.uploadOptions 2)) as Hr.
  advance Hr Uploader.step_list_failed.
  advance Hr Uploader.step_close.
  destruct (Hclaim _ _ Hr eq_refl) as (e & He & Htotal).
  apply list_elem_of_singleton in He. subst e. discriminate Htotal.
Qed.

Lemma Upload_worker_count_witness :
  (Uploader.reachable Fixtures.api Fixtures.uploadEnv Dedup.SHA1ToDedupeKey
     (Ok []) (Fixtures.uploadOptions 4) Uploader.closedEmpty)
  /\ (exists s,
        Uploader.reachable Fixtures.api Fixtures.uploadEnv Dedup.SHA1ToDedupeKey
          (Ok ["a.jpg"; "b.jpg"; "c.jpg"]) (Fixtures.uploadOptions 2) s
        /\ Z.of_nat (length (Uploader.workers s)) = 2)
  /\ Uploader.workerCount (Fixtures.uploadOptions (-3)) ["a.jpg"; "b.jpg"; "c.jpg"] = 1.
Proof.
  split; [| split].
  - apply (proj1 (Upload_worker_count Fixtures.api Fixtures.uploadEnv Dedup.SHA1ToDedupeKey
                    (Ok []) (Fixtures.uploadOptions 4))).
    reflexivity.
  - pose proof (Uploader.reachable_init Fixtures.api Fixtures.uploadEnv
                  Dedup.SHA1ToDedupeKey (Ok ["a.jpg"; "b.jpg"; "c.jpg"])
                  (Fixtures.uploadOptions 2)) as Hr.
    advance Hr Uploader.step_start_workers.
    eexists. split; [exact Hr |].
    apply (proj1 (proj2 (Upload_worker_count Fixtures.api Fixtures.uploadEnv
                           Dedup.SHA1ToDedupeKey (Ok ["a.jpg"; "b.jpg"; "c.jpg"])
                           (Fixtures.uploadOptions 2)))
             ["a.jpg"; "b.jpg"; "c.jpg"] _ eq_refl ltac:(discriminate) Hr).
    discriminate.
  - apply (proj2 (proj2 (Upload_worker_count Fixtures.api Fixtures.uploadEnv
                           Dedup.SHA1ToDedupeKey (Ok []) (Fixtures.uploadOptions (-3))))).
    cbn. lia.
Defined.

(** ** Further properties of the upload of one file *)

Section UploadFileFacts.
Variable api : Core.Api.
Variable env : Uploader.Env.
Variable SHA1ToDedupeKey : list byte -> string.

#[local] Abbreviation uploadFile := (Uploader.uploadFile api env SHA1ToDedupeKey).

Ltac split_run :=
  unfold Uploader.uploadFile;
  repeat match goal with
         | |- context [match ?x with Ok _ => _ | Err _ => _ end] => destruct x eqn:?
         | |- context [String.eqb ?a ?b] => destruct (String.eqb_spec a b)
         | |- context [if ?b then _ else _] => destruct b eqn:?
         end;
  cbn [Uploader.eventsOf Uploader.callsOf omap list_omap app negb].

Ltac last_event :=
  match goal with
  | |- exists pre last, ?l = _ /\ _ =>
      exists (removelast l),
        (List.last l (Uploader.failedEvent ""))
  end.

(** The handling of a file sends "hashing" first and exactly one of
    "completed", "skipped" and "failed", as its last event; the first two come
    with a media key that is not empty and no error, the last with an error. *)
Theorem uploadFile_ends_once (filePath : string) (workerID : Z)
    (opts : Uploader.UploadOptions) :
  exists pre last,
    Uploader.eventsOf (uploadFile filePath workerID opts) = (pre ++ [last])%list
    /\ Uploader.terminal (Uploader.Status last) = true
    /\ Forall (fun e => Uploader.terminal (Uploader.Status e) = false) pre
    /\ (Uploader.Status last = Uploader.StatusFailed <-> Uploader.Error last <> None)
    /\ (Uploader.Status last <> Uploader.StatusFailed -> Uploader.MediaKey last <> "")
    /\ Uploader.Status <$> head (pre ++ [last]) = Some Uploader.StatusHashing
    /\ Forall (fun e => Uploader.Path e = filePath /\ Uploader.WorkerID e = workerID)
         (pre ++ [last]).
Proof.
  split_run; try (exfalso; cbn in *; congruence); last_event;
    cbn [removelast List.last app].
  all: repeat apply conj; try reflexivity; try (repeat constructor; fail).
  all: try (intros H; first [discriminate H | contradiction | (cbn; congruence)]).
Qed.

(** The statuses of the events of a file follow the order hashing, checking,
    uploading, finalizing, end, each at most once; and a forced upload sends
    no "checking". *)
Theorem uploadFile_status_order (filePath : string) (workerID : Z)
    (opts : Uploader.UploadOptions) :
  let statuses :=
    Uploader.Status <$> Uploader.eventsOf (uploadFile filePath workerID opts) in
  StronglySorted Z.lt (Uploader.rank <$> statuses)
  /\ (Uploader.ForceUpload opts = true ->
      Forall (fun status => status <> Uploader.StatusChecking) statuses).
Proof.
  cbv zeta.
  split_run; try (exfalso; cbn in *; congruence); cbn [fmap list_fmap];
    (split; [repeat constructor
            | intros Hforce; try rewrite Hforce in *;
              first [exfalso; cbn in *; congruence | repeat constructor; discriminate]]).
Qed.

Ltac last_step :=
  match goal with
  | |- exists pre last, ?l = _ /\ _ =>
      exists (removelast l),
        (match List.last l (Uploader.Emit (Uploader.failedEvent "")) with
         | Uploader.Emit e => e
         | Uploader.Call _ => Uploader.failedEvent ""
         end)
  end.

(** The last thing the handling of a file does is to send its last event.
    Before that it makes only the side calls the options ask for, on the file
    and on the media key it reports; it makes none at all when it fails, at
    most the removal of the file when it skips, and it does remove the file
    when that is asked for and it does not fail. *)
Theorem uploadFile_side_calls (filePath : string) (workerID : Z)
    (opts : Uploader.UploadOptions) :
  exists pre last,
    uploadFile filePath workerID opts = (pre ++ [Uploader.Emit last])%list
    /\ (Uploader.Status last = Uploader.StatusFailed -> Uploader.callsOf pre = [])
    /\ Forall (Uploader.wanted opts filePath (Uploader.MediaKey last)) (Uploader.callsOf pre)
    /\ (Uploader.Status last = Uploader.StatusSkipped ->
        Forall (fun c => c = Uploader.OsRemove filePath) (Uploader.callsOf pre))
    /\ (Uploader.DeleteFromHost opts = true ->
        Uploader.Status last <> Uploader.StatusFailed ->
        Uploader.OsRemove filePath ∈ Uploader.callsOf pre).
Proof.
  unfold Uploader.uploadFile;
  repeat match goal with
         | |- context [match ?x with Ok _ => _ | Err _ => _ end] => destruct x eqn:?
         | |- context [String.eqb ?a ?b] => destruct (String.eqb_spec a b)
         | |- context [if ?b then _ else _] => destruct b eqn:?
         end;
  try (exfalso; cbn in *; congruence); cbn [app negb]; last_step;
  cbn [removelast List.last app Uploader.callsOf omap list_omap Uploader.MediaKey
       Uploader.Status].
  all: repeat apply conj; try reflexivity.
  all: try (intros H; first [discriminate H | contradiction]).
  all: try (repeat constructor; cbn; auto; fail).
  all: try (intros _; repeat constructor; fail).
  all: try (intros H _; first [discriminate H | set_solver]).
Qed.

End UploadFileFacts.

(** ** Further properties of a batch *)

Section BatchFacts.
Variable api : Core.Api.
Variable env : Uploader.Env.
Variable SHA1ToDedupeKey : list byte -> string.
Variable listing : result (list string).
Variable opts : Uploader.UploadOptions.

#[local] Abbreviation step := (Uploader.step api env SHA1ToDedupeKey listing opts).
#[local] Abbreviation reachable := (Uploader.reachable api env SHA1ToDedupeKey listing opts).

Lemma closingOk_step (s s' : Uploader.State) :
  Uploader.Inv listing s -> Uploader.closingOk s -> step s s' -> Uploader.closingOk s'.
Proof.
  intros (_ & _ & _ & _ & Hd) (Hexit & Hclosed) Hstep.
  unfold Uploader.closingOk, Uploader.driverOk in *.
  destruct Hstep; unfold_state;
    repeat match goal with
           | H : Uploader.driver _ = _ |- _ => rewrite H in *
           | first : bool |- _ => destruct first
           end.
  all: first
    [ (* a driver step that does not lead to the closing *)
      split; [intros [Hc | Hc]; discriminate Hc | intros Hc; discriminate (Hclosed Hc)]
    | (* the listing failed or was empty: there are no workers *)
      destruct Hd as (_ & ->);
      split; [intros _; constructor | intros Hc; discriminate (Hclosed Hc)]
    | (* the wait is over *)
      split; [intros _; assumption | intros Hc; discriminate (Hclosed Hc)]
    | (* the stream is closed *)
      split; [intros _; apply Hexit; left; reflexivity | reflexivity]
    | (* a worker moves: the driver is not yet closing *)
      split; [| exact Hclosed];
      intros Hc; specialize (Hexit Hc);
      match goal with
      | H : Uploader.workers _ !! _ = Some _ |- _ =>
          pose proof (Forall_lookup_1 _ _ _ _ Hexit H) as Hw; discriminate Hw
      end
    | (* the context is cancelled *)
      split; assumption ].
Qed.

Lemma closingOk_reachable (s : Uploader.State) : reachable s -> Uploader.closingOk s.
Proof.
  induction 1 as [| s s' Hs IH Hstep].
  - split; [intros [H | H]; discriminate H | intros H; discriminate H].
  - eapply closingOk_step; eauto.
    exact (Inv_reachable api env SHA1ToDedupeKey listing opts s Hs).
Qed.

(** Once the stream of events is closed the batch is over: the driver has
    finished, every worker has exited, and no step sends an event or closes
    the stream again. *)
Theorem Upload_nothing_after_close (s : Uploader.State) :
  reachable s -> Uploader.eventsClosed s = true ->
  Uploader.driver s = Uploader.DDone
  /\ Forall (fun w => w = Uploader.WExit) (Uploader.workers s)
  /\ forall s', step s s' ->
       Uploader.events s' = Uploader.events s
       /\ Uploader.calls s' = Uploader.calls s
       /\ Uploader.driver s' = Uploader.DDone
       /\ Uploader.workers s' = Uploader.workers s.
Proof.
  intros Hs Hclosed. destruct (closingOk_reachable s Hs) as (Hexit & Hdone).
  specialize (Hdone Hclosed). specialize (Hexit (or_intror Hdone)).
  split; [exact Hdone |]. split; [exact Hexit |].
  intros s' Hstep. destruct Hstep; unfold_state;
    try congruence;
    try match goal with
        | H : Uploader.workers _ !! _ = Some _ |- _ =>
            pose proof (Forall_lookup_1 _ _ _ _ Hexit H) as Hw; discriminate Hw
        end.
  repeat split; assumption.
Qed.

Lemma uploadFile_stepOf (files : list string) (i : nat) (path : string) :
  path ∈ files ->
  Forall (Uploader.stepOf files i)
    (Uploader.uploadFile api env SHA1ToDedupeKey path (Z.of_nat i) opts).
Proof.
  intros Hin. unfold Uploader.uploadFile.
  repeat match goal with
         | |- Forall _ (_ :: _) => constructor
         | |- Forall _ [] => constructor
         | |- Forall _ (_ ++ _) => apply Forall_app; split
         | |- Uploader.stepOf _ _ (Uploader.Emit _) =>
             split; [exact Hin | split; [reflexivity | discriminate]]
         | |- Uploader.stepOf _ _ (Uploader.Call _) => exact I
         | |- Forall _ (match ?x with _ => _ end) => destruct x
         | |- Forall _ (if ?x then _ else _) => destruct x
         end.
Qed.

Lemma workerOf_insert (files : list string) (ws : list Uploader.WorkerPC)
    (i : nat) (w : Uploader.WorkerPC) :
  (forall j w', ws !! j = Some w' -> Uploader.workerOf files j w') ->
  Uploader.workerOf files i w ->
  forall j w', <[i := w]> ws !! j = Some w' -> Uploader.workerOf files j w'.
Proof.
  intros Hall Hw j w' Hj.
  apply list_lookup_insert_Some in Hj as [(-> & -> & _) | (_ & Hj)]; auto.
Qed.

Lemma filesOk_init (files : list string) (n : Z) :
  0 <= n -> Uploader.filesOk files n Uploader.init.
Proof.
  intros Hn. unfold Uploader.filesOk, Uploader.init. unfold_state.
  cbn [Uploader.driverRest]. repeat apply conj.
  - reflexivity.
  - cbn. lia.
  - constructor.
  - intros i w Hi. discriminate Hi.
  - cbn. lia.
  - constructor.
Qed.

Lemma filesOk_step (files : list string) (s s' : Uploader.State) :
  listing = Ok files ->
  Uploader.filesOk files (Uploader.workerCount opts files) s -> step s s' ->
  Uploader.filesOk files (Uploader.workerCount opts files) s'.
Proof.
  intros Hl (Hsuf & Hlen & Hq & Hws & Hn & Hev) Hstep.
  unfold Uploader.filesOk.
  destruct Hstep; unfold_state;
    repeat match goal with
           | H : Uploader.driver _ = _ |- _ => rewrite H in *
           | first : bool |- _ => destruct first
           end;
    cbn [Uploader.driverRest] in *;
    try congruence.
  all: try (repeat apply conj; rewrite ?length_insert; auto using suffix_nil;
            cbn [length] in *; try lia;
            try (eapply workerOf_insert; eauto; exact I); fail).
  - (* the workers are started *)
    assert (files0 = files) as -> by congruence.
    repeat apply conj; auto.
    + intros i w Hi. apply lookup_replicate in Hi as (-> & _). exact I.
    + rewrite length_replicate.
      assert (1 <= Uploader.workerCount opts files)
        by (unfold Uploader.workerCount; destruct files; [contradiction | cbn [length]; lia]).
      lia.
  - (* the total is sent *)
    repeat apply conj; auto.
    apply Forall_app. split; [exact Hev |]. constructor; [| constructor].
    intros Hst. exfalso. apply Hst. reflexivity.
  - (* a path is pushed *)
    assert (Hin : path ∈ files).
    { destruct Hsuf as (pre & ->). set_solver. }
    repeat apply conj; auto.
    + eapply suffix_cons_l. exact Hsuf.
    + rewrite length_app. cbn [length] in *. lia.
    + apply Forall_app. split; [exact Hq | constructor; [exact Hin | constructor]].
  - (* a worker receives a path *)
    match goal with H : Uploader.workChan _ = _ |- _ => rewrite H in * end.
    apply Forall_cons in Hq as (Hin & Hq).
    repeat apply conj; auto.
    + cbn [length] in *. lia.
    + eapply workerOf_insert; eauto.
    + rewrite length_insert. exact Hn.
  - (* a worker starts on a file *)
    repeat apply conj; auto.
    + eapply workerOf_insert; eauto. apply uploadFile_stepOf.
      match goal with H : Uploader.workers _ !! _ = Some _ |- _ => exact (Hws _ _ H) end.
    + rewrite length_insert. exact Hn.
  - (* a worker sends an event *)
    match goal with H : Uploader.workers _ !! _ = Some _ |- _ =>
      pose proof (Hws _ _ H) as Hsteps; pose proof (lookup_lt_Some _ _ _ H) as Hi end.
    cbn [Uploader.workerOf] in Hsteps. apply Forall_cons in Hsteps as (He & Hsteps).
    repeat apply conj; auto.
    + eapply workerOf_insert; eauto.
    + rewrite length_insert. exact Hn.
    + apply Forall_app. split; [exact Hev |]. constructor; [| constructor].
      intros _. destruct He as (Hp & Hid & _). split; [exact Hp | lia].
  - (* a worker makes a side call *)
    match goal with H : Uploader.workers _ !! _ = Some _ |- _ =>
      pose proof (Hws _ _ H) as Hsteps end.
    cbn [Uploader.workerOf] in Hsteps. apply Forall_cons in Hsteps as (_ & Hsteps).
    repeat apply conj; auto.
    + eapply workerOf_insert; eauto.
    + rewrite length_insert. exact Hn.
Qed.

Lemma filesOk_reachable (files : list string) (s : Uploader.State) :
  listing = Ok files -> reachable s ->
  Uploader.filesOk files (Uploader.workerCount opts files) s.
Proof.
  intros Hl. induction 1 as [| s s' Hs IH Hstep].
  - apply filesOk_init. unfold Uploader.workerCount. lia.
  - eapply filesOk_step; eauto.
Qed.

(** The work channel never holds more paths than it has room for (the
    number of files), so the driver never waits to push a path; every path in
    it is a file of the batch. *)
Theorem Upload_work_channel_bounded (files : list string) (s : Uploader.State) :
  listing = Ok files -> reachable s ->
  (length (Uploader.workChan s) <= length files)%nat
  /\ Forall (fun path => path ∈ files) (Uploader.workChan s)
  /\ (forall path rest,
        Uploader.driver s = Uploader.DPush path rest ->
        (length (Uploader.workChan s) < length files)%nat).
Proof.
  intros Hl Hs. destruct (filesOk_reachable files s Hl Hs) as (_ & Hlen & Hq & _).
  repeat apply conj; [lia | exact Hq |].
  intros path rest Hd. rewrite Hd in Hlen. cbn [Uploader.driverRest length] in Hlen. lia.
Qed.

(** Every event of a batch that carries a status names a file of the batch
    and comes from one of its workers, whose ids run from 0 to the number of
    workers less one. *)
Theorem Upload_events_of_batch (files : list string) (s : Uploader.State) :
  listing = Ok files -> reachable s ->
  Forall (fun e =>
            Uploader.hasStatus e ->
            Uploader.Path e ∈ files
            /\ 0 <= Uploader.WorkerID e < Z.min (Z.max 1 (Uploader.Workers opts))
                                              (Z.of_nat (length files)))
    (Uploader.events s).
Proof.
  intros Hl Hs. destruct (filesOk_reachable files s Hl Hs) as (_ & _ & _ & _ & _ & Hev).
  exact Hev.
Qed.

End BatchFacts.

Ltac run_one_file Hr :=
  advance Hr Uploader.step_start_workers;
  advance Hr Uploader.step_driver_continue;
  advance Hr Uploader.step_send_total;
  advance Hr Uploader.step_push;
  advance Hr Uploader.step_all_sent;
  advance_worker Hr Uploader.step_receive 0%nat;
  advance_worker Hr Uploader.step_worker_continue 0%nat;
  do 5 advance_worker Hr Uploader.step_emit 0%nat;
  advance_worker Hr Uploader.step_file_done 0%nat;
  advance_worker Hr Uploader.step_range_over 0%nat;
  advance Hr Uploader.step_wait_over;
  advance Hr Uploader.step_close.

Lemma uploadFile_ends_once_witness :
  exists pre last,
    Uploader.eventsOf (Uploader.uploadFile Fixtures.api Fixtures.uploadEnv
                         Dedup.SHA1ToDedupeKey "a.jpg" 0 Fixtures.deletingOptions)
    = (pre ++ [last])%list
    /\ Uploader.terminal (Uploader.Status last) = true
    /\ (Uploader.Status last <> Uploader.StatusFailed -> Uploader.MediaKey last <> "").
Proof.
  destruct (uploadFile_ends_once Fixtures.api Fixtures.uploadEnv Dedup.SHA1ToDedupeKey
              "a.jpg" 0 Fixtures.deletingOptions)
    as (pre & last & Heq & Hterm & _ & _ & Hkey & _).
  exists pre, last. repeat split; assumption.
Defined.

Lemma uploadFile_status_order_witness :
  Forall (fun status => status <> Uploader.StatusChecking)
    (Uploader.Status <$>
       Uploader.eventsOf (Uploader.uploadFile Fixtures.api Fixtures.uploadEnv
                            Dedup.SHA1ToDedupeKey "a.jpg" 0 Fixtures.forcedOptions)).
Proof.
  apply (proj2 (uploadFile_status_order Fixtures.api Fixtures.uploadEnv
                  Dedup.SHA1ToDedupeKey "a.jpg" 0 Fixtures.forcedOptions)).
  reflexivity.
Defined.

Lemma uploadFile_side_calls_witness :
  exists pre last,
    Uploader.uploadFile Fixtures.api Fixtures.uploadEnv Dedup.SHA1ToDedupeKey
      "a.jpg" 0 Fixtures.deletingOptions = (pre ++ [Uploader.Emit last])%list
    /\ Uploader.Status last = Uploader.StatusCompleted
    /\ Uploader.OsRemove "a.jpg" ∈ Uploader.callsOf pre.
Proof.
  destruct (uploadFile_side_calls Fixtures.api Fixtures.uploadEnv Dedup.SHA1ToDedupeKey
              "a.jpg" 0 Fixtures.deletingOptions)
    as (pre & last & Heq & _ & _ & _ & Hremove).
  assert (Hlast : Uploader.Status last = Uploader.StatusCompleted).
  { vm_compute in Heq.
    match type of Heq with
    | ?l = _ => change l with (removelast l ++ [List.last l (Uploader.Emit last)])%list in Heq
    end.
    apply app_inj_tail in Heq as (_ & Heq). vm_compute in Heq.
    injection Heq as <-. reflexivity. }
  exists pre, last. split; [exact Heq |]. split; [exact Hlast |].
  apply Hremove; [reflexivity |]. rewrite Hlast. discriminate.
Defined.

Lemma Upload_nothing_after_close_witness :
  exists s,
    Uploader.reachable Fixtures.api Fixtures.uploadEnv Dedup.SHA1ToDedupeKey
      (Ok ["a.jpg"]) (Fixtures.uploadOptions 1) s
    /\ Uploader.eventsClosed s = true
    /\ Uploader.driver s = Uploader.DDone
    /\ Forall (fun w => w = Uploader.WExit) (Uploader.workers s).
Proof.
  pose proof (Uploader.reachable_init Fixtures.api Fixtures.uploadEnv Dedup.SHA1ToDedupeKey
                (Ok ["a.jpg"]) (Fixtures.uploadOptions 1)) as Hr.
  run_one_file Hr.
  destruct (Upload_nothing_after_close _ _ _ _ _ _ Hr eq_refl) as (Hd & Hw & _).
  eexists. split; [exact Hr |]. split; [reflexivity |]. split; [exact Hd | exact Hw].
Defined.

Lemma Upload_work_channel_bounded_witness :
  exists s,
    Uploader.reachable Fixtures.api Fixtures.uploadEnv Dedup.SHA1ToDedupeKey
      (Ok ["a.jpg"; "b.jpg"]) (Fixtures.uploadOptions 1) s
    /\ Uploader.workChan s = ["a.jpg"]
    /\ (length (Uploader.workChan s) <= 2)%nat.
Proof.
  pose proof (Uploader.reachable_init Fixtures.api Fixtures.uploadEnv Dedup.SHA1ToDedupeKey
                (Ok ["a.jpg"; "b.jpg"]) (Fixtures.uploadOptions 1)) as Hr.
  advance Hr Uploader.step_start_workers.
  advance Hr Uploader.step_driver_continue.
  advance Hr Uploader.step_send_total.
  advance Hr Uploader.step_push.
  destruct (Upload_work_channel_bounded _ _ _ _ _ ["a.jpg"; "b.jpg"] _ eq_refl Hr)
    as (Hlen & _).
  eexists. split; [exact Hr |]. split; [reflexivity | exact Hlen].
Defined.

Lemma Upload_events_of_batch_witness :
  exists s,
    Uploader.reachable Fixtures.api Fixtures.uploadEnv Dedup.SHA1ToDedupeKey
      (Ok ["a.jpg"]) (Fixtures.uploadOptions 1) s
    /\ length (Uploader.events s) = 6%nat
    /\ Forall (fun e => Uploader.hasStatus e ->
                        Uploader.Path e ∈ ["a.jpg"] /\ 0 <= Uploader.WorkerID e < 1)
         (Uploader.events s).
Proof.
  pose proof (Uploader.reachable_init Fixtures.api Fixtures.uploadEnv Dedup.SHA1ToDedupeKey
                (Ok ["a.jpg"]) (Fixtures.uploadOptions 1)) as Hr.
  run_one_file Hr.
  pose proof (Upload_events_of_batch _ _ _ _ _ ["a.jpg"] _ eq_refl Hr) as Hev.
  eexists. split; [exact Hr |]. split; [reflexivity | exact Hev].
Defined.

(** ** Further properties of the upload commit *)

Lemma CommitUpload_Ok_inv
    (doProtoRequest : Core.CommitUploadRequest -> result Core.CommitUploadResponse)
    (a : Core.Api) (now : Z) (commitToken : Core.CommitToken) (fileName : string)
    (sha1Hash : list byte) (uploadTimestamp : Z) (qualityStr : string) (useQuota : bool)
    (mediaKey : string) :
  Core.CommitUpload doProtoRequest a now commitToken fileName sha1Hash
    uploadTimestamp qualityStr useQuota = Ok mediaKey ->
  doProtoRequest (Core.CommitUpload_request a now commitToken fileName sha1Hash
                    uploadTimestamp qualityStr useQuota) = Ok (Some (Some mediaKey))
  /\ mediaKey <> "".
Proof.
  unfold Core.CommitUpload.
  destruct (doProtoRequest _) as [[[mediaKey' |] |] | err'];
    [destruct (String.eqb_spec mediaKey' "") as [-> | Hne] | | |];
    intros H; try discriminate H.
  injection H as <-. split; [reflexivity | exact Hne].
Qed.

(** [CommitUpload] returns a media key exactly when the commit endpoint
    answered with one that is not empty; an error of the round trip is
    returned as it is; and a zero timestamp is replaced by the current time. *)
Theorem CommitUpload_media_key
    (doProtoRequest : Core.CommitUploadRequest -> result Core.CommitUploadResponse)
    (a : Core.Api) (now : Z) (commitToken : Core.CommitToken) (fileName : string)
    (sha1Hash : list byte) (uploadTimestamp : Z) (qualityStr : string) (useQuota : bool) :
  let req := Core.CommitUpload_request a now commitToken fileName sha1Hash
               uploadTimestamp qualityStr useQuota in
  let r := Core.CommitUpload doProtoRequest a now commitToken fileName sha1Hash
             uploadTimestamp qualityStr useQuota in
  (forall mediaKey,
     r = Ok mediaKey <-> doProtoRequest req = Ok (Some (Some mediaKey)) /\ mediaKey <> "")
  /\ (forall err, doProtoRequest req = Err err -> r = Err err)
  /\ Core.F1_F4_FileLastModifiedTimestamp req
     = (if uploadTimestamp =? 0 then now else uploadTimestamp).
Proof.
  cbv zeta. repeat apply conj.
  - intros k; split; [apply CommitUpload_Ok_inv |].
    intros (H & Hk). unfold Core.CommitUpload. rewrite H.
    destruct (String.eqb_spec k ""); [contradiction | reflexivity].
  - intros e H. unfold Core.CommitUpload. rewrite H. reflexivity.
  - unfold Core.CommitUpload_request.
    destruct (String.eqb _ "storage-saver"); reflexivity.
Qed.

Lemma CommitUpload_media_key_witness :
  Core.CommitUpload (Uploader.doCommit Fixtures.uploadEnv) Fixtures.api 7
    {| Core.CT_Field1 := 1; Core.CT_Field2 := [] |} "a.jpg" [] 0 "" false = Ok "AF1QipNew"
  /\ Core.CommitUpload (fun _ => Err "request failed with status 500: oops") Fixtures.api 7
       {| Core.CT_Field1 := 1; Core.CT_Field2 := [] |} "a.jpg" [] 0 "" false
     = Err "request failed with status 500: oops".
Proof.
  split.
  - apply (proj1 (CommitUpload_media_key (Uploader.doCommit Fixtures.uploadEnv)
                    Fixtures.api 7 {| Core.CT_Field1 := 1; Core.CT_Field2 := [] |}
                    "a.jpg" [] 0 "" false)).
    split; [reflexivity | discriminate].
  - apply (proj1 (proj2 (CommitUpload_media_key
                    (fun _ => Err "request failed with status 500: oops")
                    Fixtures.api 7 {| Core.CT_Field1 := 1; Core.CT_Field2 := [] |}
                    "a.jpg" [] 0 "" false))).
    reflexivity.
Defined.

(** The check of [uploadFile] for an empty media key after a successful
    commit never fires: no event reports "no media key returned". *)
Theorem uploadFile_no_missing_key (api : Core.Api) (env : Uploader.Env)
    (SHA1ToDedupeKey : list byte -> string) (filePath : string) (workerID : Z)
    (opts : Uploader.UploadOptions) :
  Forall (fun e => Uploader.Error e <> Some "no media key returned")
    (Uploader.eventsOf (Uploader.uploadFile api env SHA1ToDedupeKey filePath workerID opts)).
Proof.
  unfold Uploader.uploadFile.
  repeat match goal with
         | |- context [match ?x with Ok _ => _ | Err _ => _ end] => destruct x eqn:?
         | |- context [String.eqb ?a ?b] => destruct (String.eqb_spec a b)
         | |- context [if ?b then _ else _] => destruct b eqn:?
         end;
    try match goal with
        | H : Core.CommitUpload _ _ _ _ _ _ _ _ _ = Ok ?k, Hk : ?k = "" |- _ =>
            apply CommitUpload_Ok_inv in H; destruct H as (_ & H); contradiction
        end;
    cbn [Uploader.eventsOf omap list_omap app];
    repeat constructor; cbn [Uploader.Error]; unfold wrap; cbn; discriminate.
Qed.

(** ** Further properties of the identifier resolver *)

Lemma lookupOutcome_Ok (notFound : error) (reply : result string) (mediaKey : string) :
  Resolver.lookupOutcome notFound reply = Ok mediaKey ->
  reply = Ok mediaKey /\ mediaKey <> "".
Proof.
  unfold Resolver.lookupOutcome. destruct reply as [k | err]; [| discriminate].
  destruct (String.eqb_spec k "") as [-> | Hne]; [discriminate |].
  intros [= <-]. split; [reflexivity | exact Hne].
Qed.

Section ResolverMoreFacts.
Variable env : Resolver.Env.
Variable SHA1ToDedupeKey : list byte -> string.
Variable DedupeKeyToSHA1 : string -> result (list byte).

Lemma ResolveItemKey_file (input : string) :
  input <> "" ->
  Dedup.DedupKeyPattern_MatchString input = false ->
  Resolver.statOk env input = true ->
  Resolver.run (Resolver.ResolveItemKey env SHA1ToDedupeKey input)
  = (match Resolver.sha1Of env input with
     | Err err => Err (wrap "failed to calculate SHA1" err)
     | Ok hash => Ok (SHA1ToDedupeKey hash)
     end, [Resolver.EStat input; Resolver.EHash input]).
Proof.
  intros Hne Hpat Hstat. unfold Resolver.run, Resolver.ResolveItemKey.
  destruct (String.eqb_spec input "") as [-> | _]; [contradiction |].
  rewrite Hpat.
  unfold Resolver.bind at 1. unfold Resolver.Stat, Resolver.perform. rewrite Hstat.
  unfold Resolver.bind, Resolver.wrapErr, Resolver.CalculateSHA1, Resolver.perform,
    Resolver.ret.
  destruct (Resolver.sha1Of env input); reflexivity.
Qed.

(** For every input that is not empty, [ResolveItemKey] returns a text that
    matches the dedup-key pattern as it is, touching nothing; for another
    input on which [os.Stat] succeeds it hashes the file and returns the
    dedup key of the digest (a failed hashing is reported); any other input
    is returned as it is after the one [os.Stat].  It never looks anything
    up in the library. *)
Theorem ResolveItemKey_cases (input : string) :
  input <> "" ->
  (Dedup.DedupKeyPattern_MatchString input = true ->
   Resolver.run (Resolver.ResolveItemKey env SHA1ToDedupeKey input) = (Ok input, []))
  /\ (Dedup.DedupKeyPattern_MatchString input = false ->
      Resolver.statOk env input = true ->
      Resolver.run (Resolver.ResolveItemKey env SHA1ToDedupeKey input)
      = (match Resolver.sha1Of env input with
         | Err err => Err (wrap "failed to calculate SHA1" err)
         | Ok hash => Ok (SHA1ToDedupeKey hash)
         end, [Resolver.EStat input; Resolver.EHash input]))
  /\ (Dedup.DedupKeyPattern_MatchString input = false ->
      Resolver.statOk env input = false ->
      Resolver.run (Resolver.ResolveItemKey env SHA1ToDedupeKey input)
      = (Ok input, [Resolver.EStat input]))
  /\ (forall hash,
        Resolver.ELookup hash
        ∉ snd (Resolver.run (Resolver.ResolveItemKey env SHA1ToDedupeKey input))).
Proof.
  intros Hne.
  assert (Hkey : Dedup.DedupKeyPattern_MatchString input = true ->
            Resolver.run (Resolver.ResolveItemKey env SHA1ToDedupeKey input) = (Ok input, [])).
  { intros Hpat. unfold Resolver.run, Resolver.ResolveItemKey.
    destruct (String.eqb_spec input "") as [-> | _]; [contradiction |].
    rewrite Hpat. reflexivity. }
  assert (Hother : Dedup.DedupKeyPattern_MatchString input = false ->
            Resolver.statOk env input = false ->
            Resolver.run (Resolver.ResolveItemKey env SHA1ToDedupeKey input)
            = (Ok input, [Resolver.EStat input])).
  { intros Hpat Hstat. unfold Resolver.run, Resolver.ResolveItemKey.
    destruct (String.eqb_spec input "") as [-> | _]; [contradiction |].
    rewrite Hpat. unfold Resolver.bind, Resolver.Stat, Resolver.perform.
    rewrite Hstat. reflexivity. }
  repeat apply conj; [exact Hkey | apply ResolveItemKey_file; exact Hne | exact Hother |].
  intros hash.
  destruct (Dedup.DedupKeyPattern_MatchString input) eqn:Hpat;
    [rewrite (Hkey eq_refl); cbn [snd]; apply not_elem_of_nil |].
  destruct (Resolver.statOk env input) eqn:Hstat.
  - rewrite (ResolveItemKey_file input Hne Hpat Hstat). cbn [snd].
    rewrite !elem_of_cons, elem_of_nil. intros [Heq | [Heq | []]]; discriminate Heq.
  - rewrite (Hother eq_refl eq_refl). cbn [snd].
    rewrite !elem_of_cons, elem_of_nil. intros [Heq | []]; discriminate Heq.
Qed.

(** Whatever the input, a media key that [ResolveMediaKey] returns is not
    empty, and it is either the input itself (which then neither matches the
    dedup-key pattern nor names a file) or the answer of the library to the
    lookup of the digest: the one decoded from the input when that matches
    the pattern, the one of the file otherwise. *)
Theorem ResolveMediaKey_key_origin (input mediaKey : string) :
  fst (Resolver.run (Resolver.ResolveMediaKey env DedupeKeyToSHA1 input)) = Ok mediaKey ->
  mediaKey <> ""
  /\ ((mediaKey = input /\ Dedup.DedupKeyPattern_MatchString input = false
       /\ Resolver.statOk env input = false)
      \/ exists hash, Resolver.lookup env hash = Ok mediaKey
           /\ (if Dedup.DedupKeyPattern_MatchString input
               then DedupeKeyToSHA1 input = Ok hash
               else Resolver.sha1Of env input = Ok hash)).
Proof.
  unfold Resolver.run, Resolver.ResolveMediaKey.
  destruct (String.eqb_spec input "") as [-> | Hne]; [discriminate |].
  destruct (Dedup.DedupKeyPattern_MatchString input) eqn:Hpat.
  - destruct (DedupeKeyToSHA1 input) as [hash | err] eqn:Hdec; [| discriminate].
    rewrite lookup_step. cbn [fst]. intros (Hl & Hk)%lookupOutcome_Ok.
    split; [exact Hk | right; exists hash; split; [exact Hl | reflexivity]].
  - unfold Resolver.bind at 1. unfold Resolver.Stat, Resolver.perform.
    destruct (Resolver.statOk env input) eqn:Hstat.
    + unfold Resolver.bind at 1. unfold Resolver.wrapErr at 1.
      unfold Resolver.CalculateSHA1, Resolver.perform.
      destruct (Resolver.sha1Of env input) as [hash | err] eqn:Hsha; [| discriminate].
      rewrite lookup_step. cbn [fst]. intros (Hl & Hk)%lookupOutcome_Ok.
      split; [exact Hk | right; exists hash; split; [exact Hl | reflexivity]].
    + cbn [fst Resolver.ret]. intros [= <-]. split; [exact Hne | left; auto].
Qed.

Lemma ResolveMediaKey_by_hash (notFound : error) (input : string) (hash : list byte) :
  input <> "" ->
  (if Dedup.DedupKeyPattern_MatchString input
   then DedupeKeyToSHA1 input = Ok hash
        /\ notFound = "media not found in Google Photos library"
   else Resolver.statOk env input = true /\ Resolver.sha1Of env input = Ok hash
        /\ notFound = "file not found in Google Photos library") ->
  fst (Resolver.run (Resolver.ResolveMediaKey env DedupeKeyToSHA1 input))
  = Resolver.lookupOutcome notFound (Resolver.lookup env hash).
Proof.
  intros Hne. unfold Resolver.run, Resolver.ResolveMediaKey.
  destruct (String.eqb_spec input "") as [-> | _]; [contradiction |].
  destruct (Dedup.DedupKeyPattern_MatchString input).
  - intros (-> & ->). rewrite lookup_step. reflexivity.
  - intros (Hstat & Hsha & ->).
    unfold Resolver.bind at 1. unfold Resolver.Stat, Resolver.perform. rewrite Hstat.
    unfold Resolver.bind at 1. unfold Resolver.wrapErr at 1.
    unfold Resolver.CalculateSHA1, Resolver.perform. rewrite Hsha.
    rewrite lookup_step. reflexivity.
Qed.

(** Resolving a file to its item key and that key to a media key finds the
    same media key as resolving the file directly, provided the dedup key of
    the file's digest matches the dedup-key pattern and decodes to the digest. *)
Theorem ResolveMediaKey_of_item_key (input : string) (hash : list byte) :
  input <> "" ->
  Dedup.DedupKeyPattern_MatchString input = false ->
  Resolver.statOk env input = true ->
  Resolver.sha1Of env input = Ok hash ->
  Dedup.DedupKeyPattern_MatchString (SHA1ToDedupeKey hash) = true ->
  DedupeKeyToSHA1 (SHA1ToDedupeKey hash) = Ok hash ->
  exists itemKey,
    fst (Resolver.run (Resolver.ResolveItemKey env SHA1ToDedupeKey input)) = Ok itemKey
    /\ forall mediaKey,
         fst (Resolver.run (Resolver.ResolveMediaKey env DedupeKeyToSHA1 itemKey)) = Ok mediaKey
         <-> fst (Resolver.run (Resolver.ResolveMediaKey env DedupeKeyToSHA1 input)) = Ok mediaKey.
Proof.
  intros Hne Hpat Hstat Hsha Hkey Hdec.
  exists (SHA1ToDedupeKey hash). split.
  - rewrite (ResolveItemKey_file input Hne Hpat Hstat), Hsha. reflexivity.
  - intros mediaKey.
    assert (Hk : SHA1ToDedupeKey hash <> "").
    { intros Hempty. rewrite Hempty in Hkey. discriminate Hkey. }
    rewrite (ResolveMediaKey_by_hash "media not found in Google Photos library"
               (SHA1ToDedupeKey hash) hash Hk)
      by (rewrite Hkey; split; [exact Hdec | reflexivity]).
    rewrite (ResolveMediaKey_by_hash "file not found in Google Photos library"
               input hash Hne)
      by (rewrite Hpat; repeat split; assumption).
    unfold Resolver.lookupOutcome.
    destruct (Resolver.lookup env hash) as [k | err]; [| split; discriminate].
    destruct (String.eqb k ""); split; first [discriminate | trivial].
Qed.

End ResolverMoreFacts.

Lemma ResolveItemKey_cases_witness :
  Resolver.run (Resolver.ResolveItemKey Fixtures.oneItemLibrary Dedup.SHA1ToDedupeKey
                  "AAAAAAAAAAAAAAAAAAAAAAAAAAA")
  = (Ok "AAAAAAAAAAAAAAAAAAAAAAAAAAA", [])
  /\ Resolver.run (Resolver.ResolveItemKey Fixtures.oneItemLibrary Dedup.SHA1ToDedupeKey "a.jpg")
     = (Ok "AAAAAAAAAAAAAAAAAAAAAAAAAAA", [Resolver.EStat "a.jpg"; Resolver.EHash "a.jpg"])
  /\ Resolver.run (Resolver.ResolveItemKey Fixtures.oneItemLibrary Dedup.SHA1ToDedupeKey "AF1QipXyz")
     = (Ok "AF1QipXyz", [Resolver.EStat "AF1QipXyz"]).
Proof.
  split; [| split].
  - apply (proj1 (ResolveItemKey_cases Fixtures.oneItemLibrary Dedup.SHA1ToDedupeKey
                    "AAAAAAAAAAAAAAAAAAAAAAAAAAA" ltac:(discriminate))).
    reflexivity.
  - apply (proj1 (proj2 (ResolveItemKey_cases Fixtures.oneItemLibrary Dedup.SHA1ToDedupeKey
                    "a.jpg" ltac:(discriminate))) eq_refl eq_refl).
  - apply (proj1 (proj2 (proj2 (ResolveItemKey_cases Fixtures.oneItemLibrary
                    Dedup.SHA1ToDedupeKey "AF1QipXyz" ltac:(discriminate)))) eq_refl eq_refl).
Defined.

Lemma ResolveMediaKey_key_origin_witness :
  "AF1QipMk" <> ""
  /\ (("AF1QipMk" = "a.jpg" /\ Dedup.DedupKeyPattern_MatchString "a.jpg" = false
       /\ Resolver.statOk Fixtures.oneItemLibrary "a.jpg" = false)
      \/ exists hash, Resolver.lookup Fixtures.oneItemLibrary hash = Ok "AF1QipMk"
           /\ (if Dedup.DedupKeyPattern_MatchString "a.jpg"
               then Dedup.DedupeKeyToSHA1 "a.jpg" = Ok hash
               else Resolver.sha1Of Fixtures.oneItemLibrary "a.jpg" = Ok hash)).
Proof.
  apply (ResolveMediaKey_key_origin Fixtures.oneItemLibrary Dedup.DedupeKeyToSHA1
           "a.jpg" "AF1QipMk").
  reflexivity.
Defined.

Lemma ResolveMediaKey_of_item_key_witness :
  exists itemKey,
    fst (Resolver.run (Resolver.ResolveItemKey Fixtures.oneItemLibrary
                         Dedup.SHA1ToDedupeKey "a.jpg")) = Ok itemKey
    /\ forall mediaKey,
         fst (Resolver.run (Resolver.ResolveMediaKey Fixtures.oneItemLibrary
                              Dedup.DedupeKeyToSHA1 itemKey)) = Ok mediaKey
         <-> fst (Resolver.run (Resolver.ResolveMediaKey Fixtures.oneItemLibrary
                                  Dedup.DedupeKeyToSHA1 "a.jpg")) = Ok mediaKey.
Proof.
  apply (ResolveMediaKey_of_item_key Fixtures.oneItemLibrary Dedup.SHA1ToDedupeKey
           Dedup.DedupeKeyToSHA1 "a.jpg" (replicate 20 x00%byte));
    first [discriminate | vm_compute; reflexivity].
Defined.

(** ** Further properties of the authentication manager *)

Section AuthMoreFacts.
Variable TrimSpace : string -> string.
Variable ParseQuery : string -> result Auth.Values.
Variable Do : Auth.Request -> result Auth.Response.
Context {C : Type} `{Auth.TokenCache C}.

Lemma refreshAccessToken_Ok (a : Core.Api) (w : Auth.World C) (auth : string) (exp : Z) :
  fst (Auth.refreshAccessToken TrimSpace ParseQuery Do a w) = Ok (auth, exp) ->
  auth <> "".
Proof.
  unfold Auth.refreshAccessToken.
  destruct (ParseQuery _); [| discriminate].
  destruct (Do _) as [resp |]; [| discriminate].
  destruct (Auth.checkResponse resp); [discriminate |].
  destruct (Auth.readGzipBody resp) as [body |]; [| discriminate].
  destruct (String.eqb_spec (Auth.map_get (Auth.parsedAuthResponse TrimSpace body) "Auth") "")
    as [Hempty | Hne]; [discriminate |].
  destruct (String.eqb _ ""); [discriminate |].
  destruct (GoStrings.ParseInt _); [| discriminate].
  cbn [orb fst]. intros [= <- _]. exact Hne.
Qed.

Lemma GetAuthToken_Ok (a : Core.Api) (now : Z) (w : Auth.World C) (tok : string) :
  fst (Auth.GetAuthToken TrimSpace ParseQuery Do a now w) = Ok tok ->
  tok <> ""
  /\ ((Auth.CacheGet (Auth.cache w) = (tok, snd (Auth.CacheGet (Auth.cache w)))
       /\ now < snd (Auth.CacheGet (Auth.cache w))
       /\ snd (Auth.GetAuthToken TrimSpace ParseQuery Do a now w) = w)
      \/ exists exp,
           Auth.cache (snd (Auth.GetAuthToken TrimSpace ParseQuery Do a now w))
           = Auth.CacheSet tok exp (Auth.cache w)).
Proof.
  unfold Auth.GetAuthToken.
  destruct (Auth.CacheGet (Auth.cache w)) as [token expiry]. cbn [snd].
  destruct (String.eqb_spec token "") as [-> | Hne]; cbn [negb andb];
    [| destruct (Z.ltb_spec now expiry) as [Hlt | Hge]].
  2: { cbn [fst snd]. intros [= <-]. split; [exact Hne | left; auto]. }
  all: pose proof (refreshAccessToken_world TrimSpace ParseQuery Do a w) as (Hc & _);
    cbv zeta in Hc;
    pose proof (refreshAccessToken_Ok a w) as Hok;
    destruct (Auth.refreshAccessToken TrimSpace ParseQuery Do a w) as [[[auth exp] | err] w1];
    cbn [fst snd Auth.cache] in *; try discriminate;
    intros [= <-]; (split; [exact (Hok auth exp eq_refl) |]);
    right; exists exp; rewrite Hc; reflexivity.
Qed.

(** The token [GetAuthToken] returns is never the empty text, whatever the
    token cache holds and whatever the token endpoint answers. *)
Theorem GetAuthToken_token_nonempty (a : Core.Api) (now : Z) (w : Auth.World C) :
  fst (Auth.GetAuthToken TrimSpace ParseQuery Do a now w) <> Ok "".
Proof.
  intros Hr. apply GetAuthToken_Ok in Hr as (Hne & _). apply Hne. reflexivity.
Qed.

(** With a token cache that gives back what was stored in it, a call of
    [GetAuthToken] that follows a successful one and comes before the expiry
    then found in the cache returns the same token and leaves the client as
    it is: no further exchange, no request. *)
Theorem GetAuthToken_reuse (a : Core.Api) (now now' : Z) (w : Auth.World C) (tok : string) :
  (forall t e c, Auth.CacheGet (Auth.CacheSet t e c) = (t, e)) ->
  fst (Auth.GetAuthToken TrimSpace ParseQuery Do a now w) = Ok tok ->
  let w' := snd (Auth.GetAuthToken TrimSpace ParseQuery Do a now w) in
  now' < snd (Auth.CacheGet (Auth.cache w')) ->
  Auth.GetAuthToken TrimSpace ParseQuery Do a now' w' = (Ok tok, w').
Proof.
  intros Hlaw Hr w'. apply GetAuthToken_Ok in Hr as (Hne & Hcase). subst w'.
  set (w' := snd (Auth.GetAuthToken TrimSpace ParseQuery Do a now w)) in *.
  assert (Hget : Auth.CacheGet (Auth.cache w') = (tok, snd (Auth.CacheGet (Auth.cache w')))).
  { destruct Hcase as [(Hg & _ & Hw) | (exp & Hc)].
    - rewrite Hw. exact Hg.
    - rewrite Hc, Hlaw. reflexivity. }
  intros Hnow. unfold Auth.GetAuthToken at 1. rewrite Hget.
  destruct (String.eqb_spec tok "") as [-> | _]; [contradiction |].
  destruct (Z.ltb_spec now' (snd (Auth.CacheGet (Auth.cache w')))); [reflexivity | lia].
Qed.

End AuthMoreFacts.

Lemma GetAuthToken_reuse_witness :
  let get := Auth.GetAuthToken GoStrings.TrimSpaceASCII Fixtures.parseQueryOk
               (Fixtures.endpoint Fixtures.authReplyBody) Fixtures.api in
  get 5000 (snd (get 1000 Fixtures.freshWorld)) = (Ok "abc", snd (get 1000 Fixtures.freshWorld)).
Proof.
  intros get.
  apply (GetAuthToken_reuse GoStrings.TrimSpaceASCII Fixtures.parseQueryOk
           (Fixtures.endpoint Fixtures.authReplyBody) Fixtures.api 1000 5000
           Fixtures.freshWorld "abc").
  - intros t e c. reflexivity.
  - vm_compute. reflexivity.
  - vm_compute. reflexivity.
Defined.

(** ** The configuration manager *)

Lemma remove_at_sublist {A} (l : list A) (i : nat) :
  (take i l ++ drop (S i) l)%list `sublist_of` l.
Proof.
  rewrite <- (take_drop i l) at 3. apply sublist_app; [reflexivity |].
  replace (S i) with (i + 1)%nat by lia. rewrite <- drop_drop. apply sublist_drop.
Qed.

Lemma remove_at_elem_of {A} (l : list A) (i : nat) (x y : A) :
  l !! i = Some y -> x ∈ l -> x <> y -> x ∈ (take i l ++ drop (S i) l)%list.
Proof.
  intros Hy Hin Hne. rewrite <- (take_drop_middle l i y Hy) in Hin.
  rewrite elem_of_app, elem_of_cons in Hin. rewrite elem_of_app. tauto.
Qed.

Lemma findAccountIndex_from_spec (accounts : list Config.AccountConfig) (email : string)
    (i : Z) :
  let r := Config.findAccountIndex_from i accounts email in
  (r = -1 /\ email ∉ map Config.Email accounts)
  \/ (i <= r < i + Z.of_nat (length accounts)
      /\ (exists acc, accounts !! Z.to_nat (r - i) = Some acc /\ Config.Email acc = email)
      /\ email ∉ map Config.Email (take (Z.to_nat (r - i)) accounts)).
Proof.
  cbv zeta. revert i. induction accounts as [| acc rest IH]; intros i;
    cbn [Config.findAccountIndex_from].
  - left. split; [reflexivity | apply not_elem_of_nil].
  - destruct (String.eqb_spec (Config.Email acc) email) as [Heq | Hne].
    + right. rewrite Z.sub_diag. cbn [length Z.to_nat take map].
      repeat apply conj; [lia | lia | exists acc; auto | apply not_elem_of_nil].
    + destruct (IH (i + 1)) as [(Hr & Hnot) | (Hr & (a & Ha & He) & Hnot)].
      * left. split; [exact Hr |]. cbn [map]. rewrite not_elem_of_cons. auto.
      * right.
        replace (Z.to_nat (Config.findAccountIndex_from (i + 1) rest email - i))
          with (S (Z.to_nat (Config.findAccountIndex_from (i + 1) rest email - (i + 1))))
          by lia.
        cbn [length take map]. repeat apply conj; [lia | lia | exists a; auto |].
        rewrite not_elem_of_cons. auto.
Qed.

Lemma findAccountIndex_from_emails (l1 l2 : list Config.AccountConfig) (email : string)
    (i : Z) :
  map Config.Email l1 = map Config.Email l2 ->
  Config.findAccountIndex_from i l1 email = Config.findAccountIndex_from i l2 email.
Proof.
  revert l2 i. induction l1 as [| a l1 IH]; intros [| b l2] i Heq; try discriminate Heq;
    [reflexivity |].
  injection Heq as Hab Hrest. cbn [Config.findAccountIndex_from]. rewrite Hab.
  destruct (String.eqb (Config.Email b) email); [reflexivity | apply IH, Hrest].
Qed.

Lemma findAccountIndex_from_absent (accounts : list Config.AccountConfig) (email : string)
    (i : Z) :
  0 <= i ->
  (Config.findAccountIndex_from i accounts email < 0
   <-> email ∉ map Config.Email accounts).
Proof.
  intros Hi.
  destruct (findAccountIndex_from_spec accounts email i) as [(Hr & Hnot) | (Hr & (a & Ha & He) & _)].
  - split; [intros _; exact Hnot | lia].
  - split; [lia |]. intros Hnot. exfalso. apply Hnot. rewrite <- He.
    apply list_elem_of_fmap_2. apply list_elem_of_lookup_2 in Ha. exact Ha.
Qed.

Lemma findAccountIndex_from_last (accounts : list Config.AccountConfig)
    (acc : Config.AccountConfig) (i : Z) :
  Config.Email acc ∉ map Config.Email accounts ->
  Config.findAccountIndex_from i (accounts ++ [acc]) (Config.Email acc)
  = i + Z.of_nat (length accounts).
Proof.
  revert i. induction accounts as [| a rest IH]; intros i Hnot;
    cbn [app Config.findAccountIndex_from length].
  - rewrite String.eqb_refl. lia.
  - cbn [map] in Hnot. apply not_elem_of_cons in Hnot as (Hne & Hrest).
    destruct (String.eqb_spec (Config.Email a) (Config.Email acc)) as [Heq | _];
      [congruence |].
    rewrite IH by exact Hrest. lia.
Qed.

Lemma emails_alter_token (t : option Config.CachedToken) (i : nat)
    (accounts : list Config.AccountConfig) :
  map Config.Email (alter (Config.setAuthToken t) i accounts) = map Config.Email accounts.
Proof.
  revert i. induction accounts as [| a rest IH]; intros [| i]; cbn; try reflexivity.
  f_equal. apply IH.
Qed.

Section ConfigFacts.
Variable Marshal : Config.Config -> result (list byte).
Variable Dir : string -> string.
Variable MkdirAll : string -> option error.
Variable WriteFile : string -> list byte -> option error.
Variable ParseQuery : string -> result Auth.Values.

#[local] Abbreviation Save := (Config.Save Marshal Dir MkdirAll WriteFile).
#[local] Abbreviation SetSelected := (Config.SetSelected Marshal Dir MkdirAll WriteFile).
#[local] Abbreviation AddCredentials :=
  (Config.AddCredentials Marshal Dir MkdirAll WriteFile ParseQuery).
#[local] Abbreviation RemoveCredentials :=
  (Config.RemoveCredentials Marshal Dir MkdirAll WriteFile).
#[local] Abbreviation UpdateAccountToken :=
  (Config.UpdateAccountToken Marshal Dir MkdirAll WriteFile).
#[local] Abbreviation ConfigTokenCache_Set :=
  (Config.ConfigTokenCache_Set Marshal Dir MkdirAll WriteFile).

(** [Save] leaves the configuration in memory as it is, and writes the file
    only when it returns no error. *)
Lemma Save_config (m : Config.ConfigManager) :
  Config.config (snd (Save m)) = Config.config m
  /\ Config.configPath (snd (Save m)) = Config.configPath m
  /\ (fst (Save m) <> None -> snd (Save m) = m).
Proof.
  unfold Config.Save.
  destruct (Marshal _); [destruct (MkdirAll _); [| destruct (WriteFile _ _)] |];
    cbn [fst snd Config.config Config.configPath]; repeat split; congruence.
Qed.

Lemma ConfigTokenCache_known (c : Config.ConfigTokenCache) (token : string) (expiry : Z) :
  Config.email c ∈ Config.GetAccountEmails (Config.manager c) ->
  Config.ConfigTokenCache_Get (ConfigTokenCache_Set token expiry c) = (token, expiry).
Proof.
  destruct c as [m email]. unfold Config.GetAccountEmails. cbn [Config.email Config.manager].
  intros Hin.
  destruct (findAccountIndex_from_spec (Config.Accounts (Config.config m)) email 0)
    as [(_ & Hnot) | (Hr & (acc & Hacc & He) & _)]; [contradiction |].
  rewrite Z.sub_0_r in Hacc.
  unfold Config.ConfigTokenCache_Set, Config.ConfigTokenCache_Get, Config.UpdateAccountToken,
    Config.findAccountIndex.
  cbn [Config.email Config.manager].
  destruct (Z.ltb_spec (Config.findAccountIndex_from 0
                          (Config.Accounts (Config.config m)) email) 0); [lia |].
  match goal with |- context [Save ?x] => destruct (Save_config x) as (-> & _) end.
  cbn [Config.setAccounts Config.config Config.Accounts].
  rewrite (findAccountIndex_from_emails _ (Config.Accounts (Config.config m)))
    by apply emails_alter_token.
  destruct (Z.leb_spec 0 (Config.findAccountIndex_from 0
                            (Config.Accounts (Config.config m)) email)); [| lia].
  rewrite list_lookup_alter_eq, Hacc. reflexivity.
Qed.

Lemma ConfigTokenCache_unknown (c : Config.ConfigTokenCache) (token : string) (expiry : Z) :
  Config.email c ∉ Config.GetAccountEmails (Config.manager c) ->
  ConfigTokenCache_Set token expiry c = c /\ Config.ConfigTokenCache_Get c = ("", 0).
Proof.
  destruct c as [m email]. unfold Config.GetAccountEmails. cbn [Config.email Config.manager].
  intros Hnot. apply (findAccountIndex_from_absent _ _ 0 (Z.le_refl 0)) in Hnot.
  unfold Config.ConfigTokenCache_Set, Config.ConfigTokenCache_Get, Config.UpdateAccountToken,
    Config.findAccountIndex.
  cbn [Config.email Config.manager].
  destruct (Z.ltb_spec (Config.findAccountIndex_from 0
                          (Config.Accounts (Config.config m)) email) 0); [| lia].
  destruct (Z.leb_spec 0 (Config.findAccountIndex_from 0
                            (Config.Accounts (Config.config m)) email)); [lia |].
  split; reflexivity.
Qed.

(** The token cache of an account that is in the configuration gives back
    the token and the expiry that were last stored in it, whether or not the
    configuration file could be written; the token cache of an account that
    is not in the configuration stores nothing and always answers with the
    empty token. *)
Theorem ConfigTokenCache_get_set (c : Config.ConfigTokenCache) (token : string)
    (expiry : Z) :
  (Config.email c ∈ Config.GetAccountEmails (Config.manager c) ->
   Config.ConfigTokenCache_Get (ConfigTokenCache_Set token expiry c) = (token, expiry))
  /\ (Config.email c ∉ Config.GetAccountEmails (Config.manager c) ->
      ConfigTokenCache_Set token expiry c = c
      /\ Config.ConfigTokenCache_Get c = ("", 0)).
Proof.
  split; [apply ConfigTokenCache_known | apply ConfigTokenCache_unknown].
Qed.

(** On an email that no account has, [SetSelected], [RemoveCredentials] and
    [UpdateAccountToken] report that the account does not exist, change
    nothing in memory and write nothing. *)
Theorem unknown_account_rejected (m : Config.ConfigManager) (email token : string)
    (expiry : Z) :
  email ∉ Config.GetAccountEmails m ->
  SetSelected email m = (Some ("account " +:+ email +:+ " does not exist"), m)
  /\ RemoveCredentials email m = (Some ("account " +:+ email +:+ " does not exist"), m)
  /\ UpdateAccountToken email token expiry m
     = (Some ("account " +:+ email +:+ " does not exist"), m).
Proof.
  intros Hnot.
  apply (findAccountIndex_from_absent _ _ 0 (Z.le_refl 0)) in Hnot.
  unfold Config.SetSelected, Config.RemoveCredentials, Config.UpdateAccountToken,
    Config.findAccountIndex.
  destruct (Z.ltb_spec (Config.findAccountIndex_from 0
                          (Config.Accounts (Config.config m)) email) 0); [| lia].
  repeat split.
Qed.

Lemma RemoveCredentials_config (email : string) (m : Config.ConfigManager) :
  0 <= Config.findAccountIndex m email ->
  let accounts :=
    (take (Z.to_nat (Config.findAccountIndex m email)) (Config.Accounts (Config.config m))
     ++ drop (S (Z.to_nat (Config.findAccountIndex m email)))
          (Config.Accounts (Config.config m)))%list in
  Config.config (snd (RemoveCredentials email m))
  = {| Config.Selected :=
         if String.eqb (Config.Selected (Config.config m)) email
         then default "" (Config.Email <$> head accounts)
         else Config.Selected (Config.config m);
       Config.Accounts := accounts |}.
Proof.
  intros Hidx. cbv zeta. unfold Config.RemoveCredentials.
  destruct (Z.ltb_spec (Config.findAccountIndex m email) 0); [lia |].
  match goal with |- context [Save ?x] => destruct (Save_config x) as (-> & _) end.
  replace (Z.to_nat (Config.findAccountIndex m email + 1))
    with (S (Z.to_nat (Config.findAccountIndex m email))) by lia.
  cbn [Config.setAccounts Config.config Config.Selected Config.Accounts].
  destruct (String.eqb (Config.Selected (Config.config m)) email); [| reflexivity].
  destruct (take _ _ ++ drop _ _)%list; reflexivity.
Qed.

Lemma AddCredentials_cases (authString : string) (m : Config.ConfigManager) :
  (is_Err (fst (AddCredentials authString m)) = true /\ snd (AddCredentials authString m) = m)
  \/ exists email account,
       email <> "" /\ (email ∉ Config.GetAccountEmails m)
       /\ Config.Email account = email
       /\ Config.config (snd (AddCredentials authString m))
          = {| Config.Selected := email;
               Config.Accounts := (Config.Accounts (Config.config m) ++ [account])%list |}
       /\ forall r, fst (AddCredentials authString m) = Ok r -> r = email.
Proof.
  unfold Config.AddCredentials.
  destruct (ParseQuery authString) as [params |]; [| left; split; reflexivity].
  set (missing := List.filter _ Config.requiredFields).
  destruct (Nat.ltb_spec 0 (length missing)) as [| Hnone]; [left; split; reflexivity |].
  assert (Hemail : Auth.Values_Get params "Email" <> "").
  { intros Hempty.
    assert (Hin : In "Email" missing).
    { apply filter_In. split; [cbn; tauto | rewrite Hempty; reflexivity]. }
    destruct missing; [contradiction | cbn in Hnone; lia]. }
  cbv zeta.
  destruct (Z.leb_spec 0 (Config.findAccountIndex m (Auth.Values_Get params "Email")))
    as [| Hidx]; [left; split; reflexivity |].
  right.
  exists (Auth.Values_Get params "Email"),
    {| Config.Email := Auth.Values_Get params "Email"; Config.Auth := authString;
       Config.AuthToken := None; Config.Quality := "original"; Config.UseQuota := false;
       Config.UploadThreads := 3; Config.Proxy := "" |}.
  match goal with
  | |- context [Save ?m1] =>
      pose proof (Save_config m1) as (Hcfg & _); destruct (Save m1) as [[err |] m2]
  end; cbn [fst snd] in *; rewrite Hcfg.
  all: repeat apply conj;
    [ exact Hemail
    | apply (findAccountIndex_from_absent _ _ 0 (Z.le_refl 0)); exact Hidx
    | reflexivity
    | reflexivity
    | intros r [= <-]; reflexivity ].
Qed.

(** After a successful [AddCredentials] the new account is the last one and
    is selected; removing it again gives back the accounts there were before,
    and selects the first of them (or none, if there is none), whatever was
    selected before the account was added. *)
Theorem AddCredentials_then_RemoveCredentials (authString email : string)
    (m : Config.ConfigManager) :
  fst (AddCredentials authString m) = Ok email ->
  let m1 := snd (AddCredentials authString m) in
  let m2 := snd (RemoveCredentials email m1) in
  Config.GetAccountEmails m1 = (Config.GetAccountEmails m ++ [email])%list
  /\ Config.Selected (Config.config m1) = email
  /\ Config.Accounts (Config.config m2) = Config.Accounts (Config.config m)
  /\ Config.Selected (Config.config m2)
     = default "" (Config.Email <$> head (Config.Accounts (Config.config m))).
Proof.
  intros Hok. cbv zeta.
  destruct (AddCredentials_cases authString m)
    as [(Herr & _) | (email' & account & Hne & Hnot & He & Hcfg & Hres)];
    [rewrite Hok in Herr; discriminate Herr |].
  specialize (Hres email Hok). rewrite <- Hres in Hne, Hnot, He, Hcfg. clear Hres email'.
  set (m1 := snd (AddCredentials authString m)) in *.
  assert (Hidx : Config.findAccountIndex m1 email
                 = Z.of_nat (length (Config.Accounts (Config.config m)))).
  { unfold Config.findAccountIndex. rewrite Hcfg. cbn [Config.Accounts].
    rewrite <- He. rewrite findAccountIndex_from_last; [lia |]. rewrite He. exact Hnot. }
  assert (Hm2 : Config.config (snd (RemoveCredentials email m1))
                = {| Config.Selected :=
                       default "" (Config.Email <$> head (Config.Accounts (Config.config m)));
                     Config.Accounts := Config.Accounts (Config.config m) |}).
  { rewrite RemoveCredentials_config by lia. rewrite Hidx, Hcfg.
    cbn [Config.Selected Config.Accounts]. rewrite String.eqb_refl, Nat2Z.id.
    rewrite take_app_length, drop_ge by (rewrite length_app; cbn; lia).
    rewrite app_nil_r. reflexivity. }
  repeat apply conj.
  - unfold Config.GetAccountEmails. rewrite Hcfg. cbn [Config.Accounts].
    rewrite map_app. cbn [map]. rewrite He. reflexivity.
  - rewrite Hcfg. reflexivity.
  - rewrite Hm2. reflexivity.
  - rewrite Hm2. reflexivity.
Qed.

(** [SetSelected], [AddCredentials], [RemoveCredentials] and
    [UpdateAccountToken] keep a configuration well formed, whether they
    succeed or fail: the emails of the accounts stay pairwise different and
    not empty, and the selected email stays empty or the email of an account. *)
Theorem wellFormed_preserved (m : Config.ConfigManager) :
  Config.wellFormed (Config.config m) ->
  (forall email, Config.wellFormed (Config.config (snd (SetSelected email m))))
  /\ (forall authString,
        Config.wellFormed (Config.config (snd (AddCredentials authString m))))
  /\ (forall email, Config.wellFormed (Config.config (snd (RemoveCredentials email m))))
  /\ (forall email token expiry,
        Config.wellFormed (Config.config (snd (UpdateAccountToken email token expiry m)))).
Proof.
  intros (Hnd & Hempty & Hsel). repeat apply conj.
  - intros email. unfold Config.SetSelected.
    destruct (Z.ltb_spec (Config.findAccountIndex m email) 0) as [| Hidx];
      [repeat split; assumption |].
    destruct (Save_config (Config.setSelected email m)) as (-> & _).
    repeat split; [exact Hnd | exact Hempty |]. right. cbn.
    destruct (findAccountIndex_from_spec (Config.Accounts (Config.config m)) email 0)
      as [(Hr & _) | (_ & (acc & Hacc & <-) & _)];
      [unfold Config.findAccountIndex in Hidx; lia |].
    apply list_elem_of_fmap_2. apply list_elem_of_lookup_2 in Hacc. exact Hacc.
  - intros authString.
    destruct (AddCredentials_cases authString m)
      as [(_ & ->) | (email & account & Hne & Hnot & He & -> & _)];
      [repeat split; assumption |].
    unfold Config.wellFormed, Config.GetAccountEmails in *.
    cbn [Config.Accounts Config.Selected]. rewrite map_app. cbn [map]. rewrite He.
    repeat split.
    + apply NoDup_app. repeat split; [exact Hnd | | apply NoDup_singleton].
      intros x Hx ->%list_elem_of_singleton. contradiction.
    + rewrite elem_of_app, list_elem_of_singleton. intros [H | H]; [contradiction | congruence].
    + right. rewrite elem_of_app, list_elem_of_singleton. right. reflexivity.
  - intros email.
    destruct (Z.ltb_spec (Config.findAccountIndex m email) 0) as [Hlt | Hidx].
    { unfold Config.RemoveCredentials.
      destruct (Z.ltb_spec (Config.findAccountIndex m email) 0); [| lia].
      repeat split; assumption. }
    rewrite RemoveCredentials_config by exact Hidx. cbv zeta.
    unfold Config.findAccountIndex in *.
    destruct (findAccountIndex_from_spec (Config.Accounts (Config.config m)) email 0)
      as [(Hr & _) | (_ & (acc & Hacc & He) & _)]; [lia |].
    rewrite Z.sub_0_r in Hacc.
    set (i := Z.to_nat (Config.findAccountIndex_from 0 (Config.Accounts (Config.config m)) email))
      in *.
    unfold Config.wellFormed. cbn [Config.Accounts Config.Selected].
    assert (Hsub : map Config.Email
                     (take i (Config.Accounts (Config.config m))
                      ++ drop (S i) (Config.Accounts (Config.config m)))%list
                   `sublist_of` map Config.Email (Config.Accounts (Config.config m))).
    { apply (fmap_sublist Config.Email), remove_at_sublist. }
    repeat split.
    + exact (sublist_NoDup _ _ Hnd Hsub).
    + intros Hin. apply Hempty. exact (elem_of_sublist _ _ _ Hin Hsub).
    + destruct (String.eqb_spec (Config.Selected (Config.config m)) email) as [Heq | Hne].
      * destruct (take i _ ++ drop (S i) _)%list as [| first rest]; [left; reflexivity |].
        right. cbn. apply list_elem_of_here.
      * destruct Hsel as [Hs | Hs]; [left; exact Hs | right].
        change (Config.Selected (Config.config m)
                ∈ Config.Email <$> (take i (Config.Accounts (Config.config m))
                                    ++ drop (S i) (Config.Accounts (Config.config m)))%list).
        rewrite fmap_app, fmap_take, fmap_drop.
        apply (remove_at_elem_of _ i _ email); [| exact Hs | exact Hne].
        rewrite list_lookup_fmap, Hacc. cbn. congruence.
  - intros email token expiry. unfold Config.UpdateAccountToken.
    destruct (Z.ltb_spec (Config.findAccountIndex m email) 0) as [| Hidx];
      [repeat split; assumption |].
    match goal with |- context [Save ?x] => destruct (Save_config x) as (-> & _) end.
    unfold Config.wellFormed. cbn [Config.setAccounts Config.config Config.Accounts Config.Selected].
    rewrite emails_alter_token. repeat split; assumption.
Qed.

(** In a well-formed configuration [GetSelectedAccount] finds an account
    exactly when the selected email is not empty, and the account it finds is
    the one with the selected email. *)
Theorem GetSelectedAccount_wellFormed (m : Config.ConfigManager) :
  Config.wellFormed (Config.config m) ->
  (Config.GetSelectedAccount m = None <-> Config.Selected (Config.config m) = "")
  /\ (forall acc, Config.GetSelectedAccount m = Some acc ->
         Config.Email acc = Config.Selected (Config.config m)
         /\ acc ∈ Config.Accounts (Config.config m)).
Proof.
  intros (_ & Hempty & Hsel). unfold Config.GetSelectedAccount, Config.findAccountIndex.
  destruct (findAccountIndex_from_spec (Config.Accounts (Config.config m))
              (Config.Selected (Config.config m)) 0)
    as [(Hr & Hnot) | (Hr & (acc & Hacc & He) & _)].
  - rewrite Hr. cbn. split; [| discriminate].
    split; [intros _ | reflexivity]. destruct Hsel; [assumption | contradiction].
  - rewrite Z.sub_0_r in Hacc.
    destruct (Z.leb_spec 0 (Config.findAccountIndex_from 0 (Config.Accounts (Config.config m))
                              (Config.Selected (Config.config m)))); [| lia].
    rewrite Hacc. split.
    + split; [discriminate |]. intros Hs. exfalso. apply Hempty. rewrite <- Hs, <- He.
      apply list_elem_of_fmap_2. apply list_elem_of_lookup_2 in Hacc. exact Hacc.
    + intros acc' [= <-]. split; [exact He |].
      apply list_elem_of_lookup_2 in Hacc. exact Hacc.
Qed.


End ConfigFacts.

Section ConfigAuthFacts.
Variable TrimSpace : string -> string.
Variable ParseQuery : string -> result Auth.Values.
Variable Do : Auth.Request -> result Auth.Response.
Variable Marshal : Config.Config -> result (list byte).
Variable Dir : string -> string.
Variable MkdirAll : string -> option error.
Variable WriteFile : string -> list byte -> option error.

#[local] Abbreviation tokenCache :=
  (Config.ConfigTokenCache_TokenCache Marshal Dir MkdirAll WriteFile).

(** A client whose token cache is the [ConfigTokenCache] of an account that
    is not in the configuration never reuses a token: every call of
    [GetAuthToken] runs the exchange, and leaves the cache as it was. *)
Theorem GetAuthToken_unknown_account (a : Core.Api) (now : Z)
    (w : Auth.World Config.ConfigTokenCache) :
  Config.email (Auth.cache w) ∉ Config.GetAccountEmails (Config.manager (Auth.cache w)) ->
  let w' := snd (Auth.GetAuthToken (H := tokenCache) TrimSpace ParseQuery Do a now w) in
  Auth.refreshes w' = S (Auth.refreshes w) /\ Auth.cache w' = Auth.cache w.
Proof.
  intros Hnot. cbv zeta. unfold Auth.GetAuthToken.
  cbn [Auth.CacheGet Auth.CacheSet tokenCache].
  destruct (ConfigTokenCache_unknown Marshal Dir MkdirAll WriteFile (Auth.cache w) "" 0 Hnot)
    as (_ & ->).
  cbn [String.eqb negb andb].
  pose proof (refreshAccessToken_world TrimSpace ParseQuery Do a w)
    as (Hc & Hr & _).
  cbv zeta in Hc, Hr.
  destruct (Auth.refreshAccessToken TrimSpace ParseQuery Do a w) as [[[auth exp] | err] w1];
    cbn [fst snd Auth.cache Auth.refreshes] in *; (split; [exact Hr |]); [| exact Hc].
  rewrite Hc.
  apply (ConfigTokenCache_unknown Marshal Dir MkdirAll WriteFile (Auth.cache w) auth exp Hnot).
Qed.

End ConfigAuthFacts.

Lemma oneAccount_wellFormed : Config.wellFormed (Config.config Fixtures.oneAccount).
Proof.
  repeat split.
  - apply NoDup_singleton.
  - cbn. rewrite list_elem_of_singleton. discriminate.
  - right. cbn. apply list_elem_of_here.
Qed.

Lemma ConfigTokenCache_get_set_witness :
  Config.ConfigTokenCache_Get
    (Config.ConfigTokenCache_Set Fixtures.marshalOk Fixtures.dirOf Fixtures.mkdirOk
       Fixtures.writeFails "tok" 2000
       {| Config.manager := Fixtures.oneAccount; Config.email := "a@b.c" |})
  = ("tok", 2000)
  /\ Config.ConfigTokenCache_Get
       {| Config.manager := Fixtures.oneAccount; Config.email := "x@y.z" |} = ("", 0).
Proof.
  split.
  - apply (proj1 (ConfigTokenCache_get_set Fixtures.marshalOk Fixtures.dirOf Fixtures.mkdirOk
                    Fixtures.writeFails
                    {| Config.manager := Fixtures.oneAccount; Config.email := "a@b.c" |}
                    "tok" 2000)).
    cbn. apply list_elem_of_here.
  - apply (proj2 (ConfigTokenCache_get_set Fixtures.marshalOk Fixtures.dirOf Fixtures.mkdirOk
                    Fixtures.writeFails
                    {| Config.manager := Fixtures.oneAccount; Config.email := "x@y.z" |}
                    "tok" 2000)).
    cbn. rewrite list_elem_of_singleton. discriminate.
Defined.

Lemma unknown_account_rejected_witness :
  Config.SetSelected Fixtures.marshalOk Fixtures.dirOf Fixtures.mkdirOk Fixtures.writeOk
    "x@y.z" Fixtures.oneAccount
  = (Some "account x@y.z does not exist", Fixtures.oneAccount)
  /\ Config.RemoveCredentials Fixtures.marshalOk Fixtures.dirOf Fixtures.mkdirOk Fixtures.writeOk
       "x@y.z" Fixtures.oneAccount
     = (Some "account x@y.z does not exist", Fixtures.oneAccount)
  /\ Config.UpdateAccountToken Fixtures.marshalOk Fixtures.dirOf Fixtures.mkdirOk
       Fixtures.writeOk "x@y.z" "tok" 2000 Fixtures.oneAccount
     = (Some "account x@y.z does not exist", Fixtures.oneAccount).
Proof.
  apply (unknown_account_rejected Fixtures.marshalOk Fixtures.dirOf Fixtures.mkdirOk
           Fixtures.writeOk Fixtures.oneAccount "x@y.z" "tok" 2000).
  cbn. rewrite list_elem_of_singleton. discriminate.
Defined.

Lemma AddCredentials_then_RemoveCredentials_witness :
  let add := Config.AddCredentials Fixtures.marshalOk Fixtures.dirOf Fixtures.mkdirOk
               Fixtures.writeOk Fixtures.parseCredentials "androidId=1" in
  let remove := Config.RemoveCredentials Fixtures.marshalOk Fixtures.dirOf Fixtures.mkdirOk
                  Fixtures.writeOk in
  Config.GetAccountEmails (snd (add Fixtures.oneAccount)) = ["a@b.c"; "x@y.z"]
  /\ Config.Selected (Config.config (snd (add Fixtures.oneAccount))) = "x@y.z"
  /\ Config.Accounts (Config.config (snd (remove "x@y.z" (snd (add Fixtures.oneAccount)))))
     = Config.Accounts (Config.config Fixtures.oneAccount)
  /\ Config.Selected (Config.config (snd (remove "x@y.z" (snd (add Fixtures.oneAccount)))))
     = "a@b.c".
Proof.
  intros add remove.
  apply (AddCredentials_then_RemoveCredentials Fixtures.marshalOk Fixtures.dirOf
           Fixtures.mkdirOk Fixtures.writeOk Fixtures.parseCredentials
           "androidId=1" "x@y.z" Fixtures.oneAccount).
  vm_compute. reflexivity.
Defined.

Lemma wellFormed_preserved_witness :
  Config.wellFormed
    (Config.config (snd (Config.RemoveCredentials Fixtures.marshalOk Fixtures.dirOf
                           Fixtures.mkdirOk Fixtures.writeFails "a@b.c" Fixtures.oneAccount)))
  /\ Config.wellFormed
       (Config.config (snd (Config.AddCredentials Fixtures.marshalOk Fixtures.dirOf
                              Fixtures.mkdirOk Fixtures.writeFails Fixtures.parseCredentials
                              "androidId=1" Fixtures.oneAccount))).
Proof.
  pose proof (wellFormed_preserved Fixtures.marshalOk Fixtures.dirOf Fixtures.mkdirOk
                Fixtures.writeFails Fixtures.parseCredentials Fixtures.oneAccount
                oneAccount_wellFormed) as (_ & Hadd & Hremove & _).
  split; [apply Hremove | apply Hadd].
Defined.

Lemma GetSelectedAccount_wellFormed_witness :
  (Config.GetSelectedAccount Fixtures.oneAccount = None
   <-> Config.Selected (Config.config Fixtures.oneAccount) = "")
  /\ (forall acc, Config.GetSelectedAccount Fixtures.oneAccount = Some acc ->
         Config.Email acc = Config.Selected (Config.config Fixtures.oneAccount)
         /\ acc ∈ Config.Accounts (Config.config Fixtures.oneAccount)).
Proof.
  apply (GetSelectedAccount_wellFormed Fixtures.oneAccount oneAccount_wellFormed).
Defined.

Lemma GetAuthToken_unknown_account_witness :
  let w := {| Auth.cache := {| Config.manager := Fixtures.oneAccount;
                               Config.email := "x@y.z" |};
              Auth.requests := []; Auth.refreshes := 0 |} in
  let w' := snd (Auth.GetAuthToken
                   (H := Config.ConfigTokenCache_TokenCache Fixtures.marshalOk Fixtures.dirOf
                           Fixtures.mkdirOk Fixtures.writeOk)
                   GoStrings.TrimSpaceASCII Fixtures.parseQueryOk
                   (Fixtures.endpoint Fixtures.authReplyBody) Fixtures.api 1000 w) in
  Auth.refreshes w' = 1%nat /\ Auth.cache w' = Auth.cache w.
Proof.
  intros w.
  apply (GetAuthToken_unknown_account GoStrings.TrimSpaceASCII Fixtures.parseQueryOk
           (Fixtures.endpoint Fixtures.authReplyBody) Fixtures.marshalOk Fixtures.dirOf
           Fixtures.mkdirOk Fixtures.writeOk Fixtures.api 1000 w).
  cbn. rewrite list_elem_of_singleton. discriminate.
Defined.

(** ** The download information of a media item *)

Section DownloadInfoFacts.
Variable doProtoRequest : string -> result DownloadInfo.Response.
Variable TrimSpace : string -> string.
Variable url_Parse_Path : string -> option string.
Variable http_Get : string -> result Download.GetResponse.
Variable DownloadFromReader : list byte -> string -> string -> result string.

Lemma GetDownloadInfo_Ok (mediaKey : string) (info : DownloadInfo.DownloadInfo) :
  DownloadInfo.GetDownloadInfo doProtoRequest mediaKey = Ok info ->
  DownloadInfo.InfoDownloadURL info <> ""
  /\ DownloadInfo.InfoDownloadURL info
     = (if String.eqb (DownloadInfo.InfoOriginalURL info) ""
        then DownloadInfo.InfoEditedURL info else DownloadInfo.InfoOriginalURL info).
Proof.
  unfold DownloadInfo.GetDownloadInfo.
  destruct (doProtoRequest mediaKey) as [response | err]; [| discriminate].
  cbv zeta.
  match goal with
  | |- context [let '(o, e) := ?p in _] => destruct p as [originalURL editedURL]
  end.
  destruct (String.eqb_spec originalURL "") as [-> | Ho]; cbn [negb].
  - destruct (String.eqb_spec editedURL "") as [-> | He]; [discriminate |].
    intros [= <-]. cbn. split; [exact He | reflexivity].
  - destruct (String.eqb_spec originalURL "") as [| _]; [contradiction |].
    intros [= <-]. cbn. split; [exact Ho |].
    destruct (String.eqb_spec originalURL ""); [contradiction | reflexivity].
Qed.

(** The download URL that [GetDownloadInfo] reports is never empty: it is
    the original URL when there is one and the edited URL otherwise.  When
    the reply carries the pair of download URLs and both are empty the call
    fails, whatever the fallback field holds; and an error of the round trip
    is returned as it is. *)
Theorem GetDownloadInfo_preferred_url (mediaKey : string) :
  (forall info,
     DownloadInfo.GetDownloadInfo doProtoRequest mediaKey = Ok info ->
     DownloadInfo.InfoDownloadURL info <> ""
     /\ DownloadInfo.InfoDownloadURL info
        = (if String.eqb (DownloadInfo.InfoOriginalURL info) ""
           then DownloadInfo.InfoEditedURL info else DownloadInfo.InfoOriginalURL info))
  /\ (forall f1 urls pair,
        doProtoRequest mediaKey = Ok (Some f1) ->
        DownloadInfo.GetUrls f1 = Some urls ->
        DownloadInfo.GetDownloadUrls urls = Some pair ->
        DownloadInfo.OriginalUrl pair = "" -> DownloadInfo.EditedUrl pair = "" ->
        DownloadInfo.GetDownloadInfo doProtoRequest mediaKey
        = Err "no download URL available")
  /\ (forall err,
        doProtoRequest mediaKey = Err err ->
        DownloadInfo.GetDownloadInfo doProtoRequest mediaKey = Err err).
Proof.
  repeat apply conj.
  - apply GetDownloadInfo_Ok.
  - intros f1 urls pair Hr Hu Hp Ho He. unfold DownloadInfo.GetDownloadInfo.
    rewrite Hr, Hu, Hp, Ho, He. reflexivity.
  - intros err Hr. unfold DownloadInfo.GetDownloadInfo. rewrite Hr. reflexivity.
Qed.

(** When the download information names the file, [DownloadMedia] stores
    the body of a successful GET on the reported URL under that name:
    neither the Content-Disposition header nor the URL is consulted. *)
Theorem DownloadMedia_reported_name (mediaKey outputPath : string)
    (info : DownloadInfo.DownloadInfo) (resp : Download.GetResponse) :
  DownloadInfo.GetDownloadInfo doProtoRequest mediaKey = Ok info ->
  DownloadInfo.InfoFilename info <> "" ->
  http_Get (DownloadInfo.InfoDownloadURL info) = Ok resp ->
  200 <= Download.StatusCode resp < 300 ->
  DownloadInfo.DownloadMedia doProtoRequest TrimSpace url_Parse_Path http_Get
    DownloadFromReader mediaKey outputPath
  = DownloadFromReader (Download.Body resp) outputPath (DownloadInfo.InfoFilename info).
Proof.
  intros Hinfo Hname Hget Hstatus.
  unfold DownloadInfo.DownloadMedia, Download.DownloadFile. rewrite Hinfo, Hget.
  destruct (Z.ltb_spec (Download.StatusCode resp) 200); [lia |].
  destruct (Z.leb_spec 300 (Download.StatusCode resp)); [lia |].
  cbn [orb]. cbv zeta.
  do 3 (destruct (String.eqb_spec (DownloadInfo.InfoFilename info) ""); [contradiction |]).
  reflexivity.
Qed.

End DownloadInfoFacts.

Lemma GetDownloadInfo_preferred_url_witness :
  DownloadInfo.GetDownloadInfo Fixtures.editedOnly "AF1QipMk"
  = Ok {| DownloadInfo.InfoFilename := "photo.jpg"; DownloadInfo.InfoFileSize := 3;
          DownloadInfo.InfoIsEdited := true;
          DownloadInfo.InfoDownloadURL := "https://host/edited";
          DownloadInfo.InfoOriginalURL := ""; DownloadInfo.InfoEditedURL := "https://host/edited" |}
  /\ DownloadInfo.GetDownloadInfo Fixtures.noUrls "AF1QipMk" = Err "no download URL available".
Proof.
  split; [reflexivity |].
  apply (proj1 (proj2 (GetDownloadInfo_preferred_url Fixtures.noUrls "AF1QipMk"))
           {| DownloadInfo.GetMetadata := None;
              DownloadInfo.GetUrls :=
                Some {| DownloadInfo.IsEdited := 0;
                        DownloadInfo.GetDownloadUrls :=
                          Some {| DownloadInfo.OriginalUrl := ""; DownloadInfo.EditedUrl := "" |};
                        DownloadInfo.GetField3 :=
                          Some {| DownloadInfo.DownloadUrl := "https://host/fallback" |} |} |}
           {| DownloadInfo.IsEdited := 0;
              DownloadInfo.GetDownloadUrls :=
                Some {| DownloadInfo.OriginalUrl := ""; DownloadInfo.EditedUrl := "" |};
              DownloadInfo.GetField3 :=
                Some {| DownloadInfo.DownloadUrl := "https://host/fallback" |} |}
           {| DownloadInfo.OriginalUrl := ""; DownloadInfo.EditedUrl := "" |});
    reflexivity.
Defined.

Lemma DownloadMedia_reported_name_witness :
  DownloadInfo.DownloadMedia Fixtures.editedOnly GoStrings.TrimSpaceASCII Fixtures.plainPath
    (Fixtures.getWith "attachment; filename=other.png") Fixtures.reportName "AF1QipMk" "out"
  = Fixtures.reportName [] "out" "photo.jpg".
Proof.
  apply (DownloadMedia_reported_name Fixtures.editedOnly GoStrings.TrimSpaceASCII
           Fixtures.plainPath (Fixtures.getWith "attachment; filename=other.png")
           Fixtures.reportName "AF1QipMk" "out"
           {| DownloadInfo.InfoFilename := "photo.jpg"; DownloadInfo.InfoFileSize := 3;
              DownloadInfo.InfoIsEdited := true;
              DownloadInfo.InfoDownloadURL := "https://host/edited";
              DownloadInfo.InfoOriginalURL := "";
              DownloadInfo.InfoEditedURL := "https://host/edited" |}
           {| Download.StatusCode := 200;
              Download.ContentDisposition := "attachment; filename=other.png";
              Download.Body := [] |});
    first [reflexivity | discriminate | cbn; lia].
Defined.

(** ** The files of a batch *)

Lemma filter_sublist {A} (f : A -> bool) (l : list A) : List.filter f l `sublist_of` l.
Proof.
  induction l as [| x l IH]; cbn [List.filter]; [constructor |].
  destruct (f x); [apply sublist_skip | apply sublist_cons]; exact IH.
Qed.

Lemma list_ascii_of_string_app (s1 s2 : string) :
  String.list_ascii_of_string (s1 +:+ s2)
  = (String.list_ascii_of_string s1 ++ String.list_ascii_of_string s2)%list.
Proof.
  induction s1 as [| c s1 IH]; [reflexivity |].
  change (String c s1 +:+ s2) with (String c (s1 +:+ s2)).
  cbn [String.list_ascii_of_string app]. rewrite IH. reflexivity.
Qed.

Lemma Ext_loop_no_dot (r1 r2 : list ascii) (seen : string) :
  Forall (fun c => c <> "."%char) r1 ->
  (r2 = [] \/ exists r3, r2 = "/"%char :: r3) ->
  Files.Ext_loop (r1 ++ r2) seen = "".
Proof.
  intros Hr1 Hr2. revert seen. induction Hr1 as [| c r1 Hc _ IH]; intros seen.
  - destruct Hr2 as [-> | (r3 & ->)]; reflexivity.
  - cbn [app Files.Ext_loop].
    destruct (Ascii.eqb c "/"); [reflexivity |].
    destruct (Ascii.eqb_spec c "."); [contradiction | apply IH].
Qed.

Section FilesFacts.
Variable ToLower : string -> string.
Variable Join : string -> string -> string.
Variable ReadDir_ENOTDIR : string -> error.

#[local] Abbreviation IsSupportedByGooglePhotos := (Files.IsSupportedByGooglePhotos ToLower).
#[local] Abbreviation scanDir := (Files.scanDir Join ReadDir_ENOTDIR).
#[local] Abbreviation GetGooglePhotosSupportedFiles :=
  (Files.GetGooglePhotosSupportedFiles ToLower Join ReadDir_ENOTDIR).

(** With the filter on, [GetGooglePhotosSupportedFiles] returns the
    supported ones among the files it returns with the filter off, in the
    same order, and fails exactly when it fails with the filter off, with the
    same error. *)
Theorem GetGooglePhotosSupportedFiles_filter (path : string) (stat : result Files.Node)
    (recursive : bool) :
  match GetGooglePhotosSupportedFiles path stat recursive true with
  | Ok all =>
      exists files,
        GetGooglePhotosSupportedFiles path stat recursive false = Ok files
        /\ files = List.filter IsSupportedByGooglePhotos all
        /\ Forall (fun f => IsSupportedByGooglePhotos f = true) files
        /\ files `sublist_of` all
  | Err err => GetGooglePhotosSupportedFiles path stat recursive false = Err err
  end.
Proof.
  unfold Files.GetGooglePhotosSupportedFiles.
  destruct stat as [info | err]; [| reflexivity].
  destruct (match info with
            | Files.File => Ok [path]
            | Files.Directory _ => scanDir path info recursive
            end) as [all | err]; [| reflexivity].
  eexists. repeat apply conj; [reflexivity | reflexivity | | apply filter_sublist].
  apply Forall_forall. intros f Hf. apply list_elem_of_In, filter_In in Hf. tauto.
Qed.

(** The paths of the entries of a directory that are not directories. *)
Lemma scanDir_loop_flat (scanSub : string -> Files.Node -> result (list string))
    (path : string) (entries : list (string * Files.Node)) (files : list string) :
  Files.scanDir_loop Join scanSub path false entries files
  = Ok (files ++ omap (fun entry =>
                         match snd entry with
                         | Files.File => Some (Join path (fst entry))
                         | Files.Directory _ => None
                         end) entries)%list.
Proof.
  revert files. induction entries as [| [name e] rest IH]; intros files;
    cbn [Files.scanDir_loop omap list_omap fst snd].
  - rewrite app_nil_r. reflexivity.
  - destruct e; rewrite IH; [rewrite <- app_assoc |]; reflexivity.
Qed.

(** Without recursion [scanDir] on a readable directory never fails and
    returns the paths of the entries that are not directories, in the order
    of the entries; with recursion it gives the same on a directory that has
    no subdirectory. *)
Theorem scanDir_direct_children (path : string) (entries : list (string * Files.Node)) :
  let direct :=
    omap (fun entry =>
            match snd entry with
            | Files.File => Some (Join path (fst entry))
            | Files.Directory _ => None
            end) entries in
  scanDir path (Files.Directory (Ok entries)) false = Ok direct
  /\ (Forall (fun entry => snd entry = Files.File) entries ->
      scanDir path (Files.Directory (Ok entries)) true = Ok direct).
Proof.
  cbv zeta. cbn [Files.scanDir]. split; [apply scanDir_loop_flat |].
  intros Hflat.
  enough (Hloop : forall files,
            Files.scanDir_loop Join (fun full sub => scanDir full sub true) path true
              entries files
            = Files.scanDir_loop Join (fun full sub => scanDir full sub true) path false
                entries files)
    by (rewrite Hloop; apply scanDir_loop_flat).
  induction Hflat as [| [name e] rest He _ IH]; intros files; [reflexivity |].
  cbn [snd] in He. subst e. cbn [Files.scanDir_loop]. apply IH.
Qed.

Lemma scanDir_loop_extends (scanSub : string -> Files.Node -> result (list string))
    (path : string) (entries : list (string * Files.Node))
    (files0 files1 flat deep : list string) :
  files0 `sublist_of` files1 ->
  Files.scanDir_loop Join scanSub path false entries files0 = Ok flat ->
  Files.scanDir_loop Join scanSub path true entries files1 = Ok deep ->
  flat `sublist_of` deep.
Proof.
  revert files0 files1. induction entries as [| [name e] rest IH]; intros files0 files1 Hsub;
    cbn [Files.scanDir_loop].
  - intros [= <-] [= <-]. exact Hsub.
  - destruct e as [| sub_entries].
    + apply IH. apply sublist_app; [exact Hsub | reflexivity].
    + destruct (scanSub (Join path name) (Files.Directory sub_entries)) as [sub | err];
        [| discriminate].
      apply IH. apply sublist_inserts_r. exact Hsub.
Qed.

(** Whatever [scanDir] finds in a directory without recursion it also
    finds with recursion, in the same order. *)
Theorem scanDir_recursive_extends (path : string) (dir : Files.Node)
    (flat deep : list string) :
  scanDir path dir false = Ok flat ->
  scanDir path dir true = Ok deep ->
  flat `sublist_of` deep.
Proof.
  destruct dir as [| [entries | err]]; cbn [Files.scanDir]; try discriminate.
  apply scanDir_loop_extends. reflexivity.
Qed.

(** A file whose name has no dot after the last separator is not
    supported (given that [strings.ToLower] maps the empty text to itself). *)
Theorem IsSupportedByGooglePhotos_needs_extension (dir base : string) :
  ToLower "" = "" ->
  Forall (fun c => c <> "."%char) (String.list_ascii_of_string base) ->
  IsSupportedByGooglePhotos base = false
  /\ IsSupportedByGooglePhotos (dir +:+ "/" +:+ base) = false.
Proof.
  intros Hlower Hbase.
  assert (Hrev : Forall (fun c => c <> "."%char) (rev (String.list_ascii_of_string base))).
  { apply Forall_forall. intros c Hc. rewrite Forall_forall in Hbase. apply Hbase.
    apply list_elem_of_In. apply list_elem_of_In, in_rev in Hc. exact Hc. }
  unfold Files.IsSupportedByGooglePhotos, Files.Ext. split.
  - rewrite <- (app_nil_r (rev _)).
    rewrite (Ext_loop_no_dot _ [] "" Hrev (or_introl eq_refl)), Hlower. reflexivity.
  - rewrite !list_ascii_of_string_app, !rev_app_distr. cbn [String.list_ascii_of_string rev app].
    rewrite <- ?app_assoc. cbn [app].
    rewrite (Ext_loop_no_dot _ _ "" Hrev (or_intror (ex_intro _ _ eq_refl))), Hlower.
    reflexivity.
Qed.

End FilesFacts.

Example IsSupportedByGooglePhotos_examples :
  let supported := Files.IsSupportedByGooglePhotos Fixtures.toLowerASCII in
  supported "IMG_1.JPG" = true /\ supported "a/b.c/clip.Mp4" = true
  /\ supported "notes.txt" = false /\ supported "a/b.jpg/README" = false
  /\ supported ".png" = true /\ supported "archive.tar." = false.
Proof. vm_compute. repeat split. Qed.

Lemma GetGooglePhotosSupportedFiles_filter_witness :
  exists files,
    Files.GetGooglePhotosSupportedFiles Fixtures.toLowerASCII Fixtures.joinPath
      Fixtures.notDirectory "album" (Ok Fixtures.album) true false = Ok files
    /\ files = List.filter (Files.IsSupportedByGooglePhotos Fixtures.toLowerASCII)
                 ["album/2024/b.MOV"; "album/a.jpg"; "album/notes.txt"]
    /\ Forall (fun f => Files.IsSupportedByGooglePhotos Fixtures.toLowerASCII f = true) files
    /\ files `sublist_of` ["album/2024/b.MOV"; "album/a.jpg"; "album/notes.txt"].
Proof.
  exact (GetGooglePhotosSupportedFiles_filter Fixtures.toLowerASCII Fixtures.joinPath
           Fixtures.notDirectory "album" (Ok Fixtures.album) true).
Defined.

Lemma scanDir_direct_children_witness :
  Files.scanDir Fixtures.joinPath Fixtures.notDirectory "album/2024"
    (Files.Directory (Ok [("b.MOV", Files.File)])) true
  = Ok ["album/2024/b.MOV"].
Proof.
  apply (proj2 (scanDir_direct_children Fixtures.joinPath Fixtures.notDirectory
                  "album/2024" [("b.MOV", Files.File)])).
  repeat constructor.
Defined.

Lemma scanDir_recursive_extends_witness :
  ["album/a.jpg"; "album/notes.txt"]
  `sublist_of` ["album/2024/b.MOV"; "album/a.jpg"; "album/notes.txt"].
Proof.
  apply (scanDir_recursive_extends Fixtures.joinPath Fixtures.notDirectory
           "album" Fixtures.album); reflexivity.
Defined.

Lemma IsSupportedByGooglePhotos_needs_extension_witness :
  Files.IsSupportedByGooglePhotos Fixtures.toLowerASCII "README" = false
  /\ Files.IsSupportedByGooglePhotos Fixtures.toLowerASCII ("a/b.jpg" +:+ "/" +:+ "README")
     = false.
Proof.
  apply (IsSupportedByGooglePhotos_needs_extension Fixtures.toLowerASCII "a/b.jpg" "README").
  - reflexivity.
  - repeat constructor; discriminate.
Defined.
